(** * A shallow embedding of the task model and of the docker executor

    The development follows two source files:
    - [gaia/core/task.py]: the port-based task with its input and output
      caches and the [dirty] property;
    - [girder_worker/plugins/docker/executor.py]: argument templating,
      output validation, named-pipe setup and output collection.

    Python objects that are mutated in place are modelled by explicit state
    passing; an exception is an outcome that carries the state reached when
    it was raised, so that partial effects of a failing call stay visible. *)

From Stdlib Require Import DecimalString DecimalNat.
From Stdlib Require Import Ascii.
From stdpp Require Import base gmap strings list.

Open Scope string_scope.

#[local] Arguments String.append !_ _ : simpl nomatch.

(** ** Python values and exceptions *)

(** The scalar values that flow through ports and bindings. *)
Inductive pyval : Type :=
  | PNone
  | PBool (b : bool)
  | PInt (z : Z)
  | PStr (s : string).

(** Python truthiness, [bool(v)]. *)
Definition truthy (v : pyval) : bool :=
  match v with
  | PNone => false
  | PBool b => b
  | PInt z => negb (Z.eqb z 0)
  | PStr s => negb (String.eqb s "")
  end.

(** [str(v)] *)
Definition py_str (v : pyval) : string :=
  match v with
  | PNone => "None"
  | PBool true => "True"
  | PBool false => "False"
  | PInt z => NilEmpty.string_of_int (Z.to_int z)
  | PStr s => s
  end.

(** [str(i)] for a non-negative machine-independent integer. *)
Definition str_nat (n : nat) : string :=
  NilEmpty.string_of_uint (Nat.to_uint n).

(** The exception classes the two modules raise, with their message. *)
Inductive exn : Type :=
  | ValueError (msg : string)
  | KeyError (key : string)
  | TypeError (msg : string)
  | AttributeError (msg : string)
  | OSError (msg : string)
  | UnboundLocalError (var : string)
  | TaskSpecValidationError (msg : string)
  | Exception (msg : string).

(** The result of running a piece of Python: a value, a raised exception, or
    the interpreter model running out of fuel. *)
Inductive outcome (A : Type) : Type :=
  | Ret (a : A)
  | Raise (e : exn)
  | OutOfFuel.
Arguments Ret {A} a.
Arguments Raise {A} e.
Arguments OutOfFuel {A}.

(** A computation over a mutable world [W]. *)
Definition M (W A : Type) : Type := W -> outcome A * W.

Definition ret {W A} (a : A) : M W A := fun w => (Ret a, w).
Definition raise {W A} (e : exn) : M W A := fun w => (Raise e, w).
Definition out_of_fuel {W A} : M W A := fun w => (OutOfFuel, w).
Definition bind {W A B} (m : M W A) (k : A -> M W B) : M W B :=
  fun w =>
    match m w with
    | (Ret a, w') => k a w'
    | (Raise e, w') => (Raise e, w')
    | (OutOfFuel, w') => (OutOfFuel, w')
    end.
Definition gets {W A} (f : W -> A) : M W A := fun w => (Ret (f w), w).
Definition lift {W A} (o : outcome A) : M W A := fun w => (o, w).
Definition modify {W} (f : W -> W) : M W unit := fun w => (Ret tt, f w).

Notation "x <- m ;; k" := (bind m (fun x => k))
  (at level 100, m at next level, right associativity).
Notation "m ;;; k" := (bind m (fun _ => k))
  (at level 100, right associativity).

(** Code without side effects that may raise. *)
Definition obind {A B} (m : outcome A) (k : A -> outcome B) : outcome B :=
  match m with
  | Ret a => k a
  | Raise e => Raise e
  | OutOfFuel => OutOfFuel
  end.

Notation "'let!' x ':=' m 'in' k" := (obind m (fun x => k))
  (at level 10, x name, m at level 100, k at level 200).

(** [for x in xs: body x] *)
Fixpoint for_each {W A} (xs : list A) (body : A -> M W unit) : M W unit :=
  match xs with
  | [] => ret tt
  | x :: rest => body x ;;; for_each rest body
  end.

(** ** Dictionaries whose iteration order is observed

    A dict that the code iterates over is an association list in iteration
    order with unique keys; [dict_set] is [d[k] = v]: it overwrites in place
    or appends. *)
Section Dict.
Context {K V : Type} `{EqDecision K}.

Fixpoint dict_get (d : list (K * V)) (k : K) : option V :=
  match d with
  | [] => None
  | (k', v) :: rest => if decide (k' = k) then Some v else dict_get rest k
  end.

Definition dict_mem (d : list (K * V)) (k : K) : bool :=
  match dict_get d k with Some _ => true | None => false end.

Fixpoint dict_set (d : list (K * V)) (k : K) (v : V) : list (K * V) :=
  match d with
  | [] => [(k, v)]
  | (k', v') :: rest =>
      if decide (k' = k) then (k', v) :: rest
      else (k', v') :: dict_set rest k v
  end.
End Dict.

(** ** Python [str] methods and the regular expressions of the executor *)
Module Str.

(** [s[n:]] *)
Fixpoint drop (n : nat) (s : string) : string :=
  match n, s with
  | O, _ => s
  | S k, String _ s' => drop k s'
  | S _, EmptyString => EmptyString
  end.

(** [s.startswith(p)] *)
Definition startswith (s p : string) : bool := String.prefix p s.

(** [s.endswith("/")] *)
Fixpoint ends_with_slash (s : string) : bool :=
  match s with
  | EmptyString => false
  | String c EmptyString => Ascii.eqb c "/"%char
  | String _ s' => ends_with_slash s'
  end.

(** [s.replace("", new)]: [new] before every character and at the end. *)
Fixpoint intersperse (new s : string) : string :=
  match s with
  | EmptyString => new
  | String c s' => new ++ String c (intersperse new s')
  end.

(** The scan of [s.replace(old, new)] for a non-empty [old]; [skip] counts
    the characters of a match that are still to be passed over. *)
Fixpoint replace_from (old new : string) (skip : nat) (s : string)
  : string :=
  match s with
  | EmptyString => EmptyString
  | String c s' =>
      match skip with
      | S k => replace_from old new k s'
      | O =>
          if String.prefix old s
          then new ++ replace_from old new (String.length old - 1) s'
          else String c (replace_from old new 0 s')
      end
  end.

(** [s.replace(old, new)]: every non-overlapping occurrence, left to
    right. *)
Definition replace (old new s : string) : string :=
  match old with
  | EmptyString => intersperse new s
  | _ => replace_from old new 0 s
  end.

(** [s.replace(old, new, 1)]: the first occurrence only. *)
Fixpoint replace_first (old new s : string) : string :=
  if String.prefix old s then new ++ drop (String.length old) s
  else match s with
       | EmptyString => EmptyString
       | String c s' => String c (replace_first old new s')
       end.

(** [s.split("/")] *)
Fixpoint split_slash (s : string) : list string :=
  match s with
  | EmptyString => [EmptyString]
  | String c s' =>
      if Ascii.eqb c "/"%char then EmptyString :: split_slash s'
      else match split_slash s' with
           | h :: t => String c h :: t
           | [] => [String c EmptyString]
           end
  end.

(** ["/".join(comps)] *)
Fixpoint join_slash (comps : list string) : string :=
  match comps with
  | [] => EmptyString
  | [c] => c
  | c :: rest => c ++ "/" ++ join_slash rest
  end.

(** The group of the patterns [\$input\{([^}]+)\}] and
    [\$flag\{([^}]+)\}]: the longest run of characters other than the
    closing brace, which must be followed by a closing brace. The result
    is the run and the number of characters consumed, brace included. *)
Fixpoint group (s : string) : option (string * nat) :=
  match s with
  | EmptyString => None
  | String c s' =>
      if Ascii.eqb c "}"%char then Some (EmptyString, 1)
      else match group s' with
           | Some (g, n) => Some (String c g, S n)
           | None => None
           end
  end.

(** A match of [opener ([^}]+) }] at the start of [s]: the captured group
    and the length of the whole match. *)
Definition match_here (opener s : string) : option (string * nat) :=
  if String.prefix opener s then
    match group (drop (String.length opener) s) with
    | Some (String c g, n) => Some (String c g, String.length opener + n)
    | _ => None
    end
  else None.

(** The scan of [re.findall]; [skip] as in [replace_from]. *)
Fixpoint findall_from (opener : string) (skip : nat) (s : string)
  : list string :=
  match s with
  | EmptyString => []
  | String c s' =>
      match skip with
      | S k => findall_from opener k s'
      | O =>
          match match_here opener s with
          | Some (g, n) => g :: findall_from opener (n - 1) s'
          | None => findall_from opener 0 s'
          end
      end
  end.

(** [re.findall(re.compile(opener + r'([^}]+)\}'), s)] for a literal
    [opener]: the captured groups of the non-overlapping matches, left to
    right. *)
Definition findall (opener s : string) : list string :=
  findall_from opener 0 s.

End Str.

(** ** posixpath

    The functions of Python's [os.path] that the executor calls, after
    CPython's posixpath module. [cwd] is [os.getcwd()]. *)
Module PosixPath.

Definition isabs (s : string) : bool := Str.startswith s "/".

(** [os.path.join(a, b)] *)
Definition join (a b : string) : string :=
  if Str.startswith b "/" then b
  else if String.eqb a "" || Str.ends_with_slash a then a ++ b
  else a ++ "/" ++ b.

(** The loop of [normpath] over the components. *)
Fixpoint norm_comps (initial_slashes : nat) (comps : list string)
    (new_comps : list string) : list string :=
  match comps with
  | [] => new_comps
  | comp :: rest =>
      if String.eqb comp "" || String.eqb comp "." then
        norm_comps initial_slashes rest new_comps
      else if negb (String.eqb comp "..")
              || (Nat.eqb initial_slashes 0
                  && match new_comps with [] => true | _ => false end)
              || match last new_comps with
                 | Some l => String.eqb l ".."
                 | None => false
                 end
      then norm_comps initial_slashes rest (new_comps ++ [comp])
      else norm_comps initial_slashes rest (removelast new_comps)
  end.

(** [os.path.normpath(path)] *)
Definition normpath (path : string) : string :=
  if String.eqb path "" then "."
  else
    let initial_slashes :=
      if Str.startswith path "/" then
        if Str.startswith path "//" && negb (Str.startswith path "///")
        then 2 else 1
      else 0 in
    let comps := norm_comps initial_slashes (Str.split_slash path) [] in
    let path := Str.join_slash comps in
    let path :=
      match initial_slashes with
      | 0 => path
      | 1 => "/" ++ path
      | _ => "//" ++ path
      end in
    if String.eqb path "" then "." else path.

(** [os.path.abspath(path)] *)
Definition abspath (cwd path : string) : string :=
  if isabs path then normpath path else normpath (join cwd path).

(** [len(os.path.commonprefix([l1, l2]))] on two component lists. *)
Fixpoint common_len (l1 l2 : list string) : nat :=
  match l1, l2 with
  | a :: l1', b :: l2' => if String.eqb a b then S (common_len l1' l2') else 0
  | _, _ => 0
  end.

Definition nonempty_comps (s : string) : list string :=
  List.filter (fun x => negb (String.eqb x "")) (Str.split_slash s).

(** [os.path.relpath(path, start)] for a non-empty [path]. *)
Definition relpath (cwd path start : string) : string :=
  let start_list := nonempty_comps (abspath cwd start) in
  let path_list := nonempty_comps (abspath cwd path) in
  let i := common_len start_list path_list in
  let rel_list :=
    (repeat ".." (length start_list - i) ++ List.skipn i path_list)%list in
  match rel_list with
  | [] => "."
  | a :: p => fold_left join p a
  end.

End PosixPath.

(** ** gaia/core/task.py *)
Module Task.

(** Modelled from the spec: [gaia.core.port.Port] is not part of the
    sources; a port is a named endpoint whose [fetch] resolves a binding
    descriptor and may fail ([None] stands for a raised exception or a
    [None] result). *)
Record Port : Type := mkPort {
  name : string;
  fetch : list (string * pyval) -> option pyval
}.

(** What a caller may bind to a port: plain data, or a [dict] that
    describes another task's output. *)
Inductive value : Type :=
  | Data (v : pyval)
  | Descriptor (d : list (string * pyval)).

(** [Task._port_dict]: an [OrderedDict] keyed by port name. *)
Definition _port_dict (ports : list Port) : list (string * Port) :=
  fold_left (fun o port => dict_set o (name port) port) ports [].

(** The attributes of a task instance. [_dirty] is the private slot
    behind the [dirty] property: it does not exist until first written. *)
Record Task : Type := mkTask {
  _inputs : list (string * Port);
  _outputs : list (string * Port);
  _input_data : gmap string value;
  _output_data : gmap string value;
  _dirty : option bool
}.

(** Calls observed on a task, most recent first. *)
Inductive event : Type :=
  | EvRun
  | EvReset
  | EvOnChange (old new : bool).

Record world : Type := mkWorld {
  self : Task;
  trace : list event
}.

Definition tick (e : event) : M world unit :=
  modify (fun w => mkWorld (self w) (e :: trace w)).

Definition is_run (e : event) : bool :=
  match e with EvRun => true | _ => false end.
Definition is_reset (e : event) : bool :=
  match e with EvReset => true | _ => false end.
Definition count_run (tr : list event) : nat :=
  length (List.filter is_run tr).
Definition count_reset (tr : list event) : nat :=
  length (List.filter is_reset tr).

(** [Task.__init__] *)
Definition __init__ (inputs outputs : list Port) : Task :=
  mkTask (_port_dict inputs) (_port_dict outputs) ∅ ∅ None.

(** Modelled from the spec: [GaiaObject.add_property] is not part of the
    sources. The property [dirty] declared at the end of task.py has
    default [True]; reading it yields the private slot or the default. *)
Definition dirty (t : Task) : bool := default true (_dirty t).
Arguments dirty : simpl never.

(** [self._dirty = v], the plain attribute write. *)
Definition with_dirty (v : bool) (t : Task) : Task :=
  mkTask (_inputs t) (_outputs t) (_input_data t) (_output_data t) (Some v).

Definition setattr_dirty (v : bool) : M world unit :=
  modify (fun w => mkWorld (with_dirty v (self w)) (trace w)).

(** [Task._reset], given the property setter it goes through. *)
Definition _reset (set_dirty : bool -> M world unit) : M world unit :=
  tick EvReset ;;;
  set_dirty true.

(** [Task._reset_downstream(self, _, isdirty)] *)
Definition _reset_downstream (set_dirty : bool -> M world unit)
    (old isdirty : bool) : M world unit :=
  d <- gets (fun w => dirty (self w)) ;;
  if isdirty && negb d then _reset set_dirty else ret tt.

(** Modelled from the spec: the setter of the [dirty] property
    ([self.dirty = v]). It is an observable transition: the value is
    stored and the [on_change] handler, [Task._reset_downstream], is
    notified with the old and the new value. The handler may assign the
    property again, hence the fuel. *)
Fixpoint set_dirty (fuel : nat) (v : bool) : M world unit :=
  match fuel with
  | O => out_of_fuel
  | S n =>
      old <- gets (fun w => dirty (self w)) ;;
      setattr_dirty v ;;;
      tick (EvOnChange old v) ;;;
      _reset_downstream (set_dirty n) old v
  end.

(** The body of the loop of [Task.set_input] for one [name, value] item. *)
Definition set_input_one (nv : string * value) : M world unit :=
  let '(name, value) := nv in
  ins <- gets (fun w => _inputs (self w)) ;;
  match dict_get ins name with
  | None => raise (ValueError ("Invalid port name '" ++ name ++ "'"))
  | Some port =>
      let data :=
        match value with
        | Descriptor d => Data <$> fetch port d
        | Data _ => None
        end in
      let data := match data with None => value | Some d => d end in
      setattr_dirty true
  end.

(** The first loop of [Task.set_input]: positional argument [i] becomes
    the keyword argument [str(i)]. *)
Definition kw_of_args (arg : list value) (kw : list (string * value))
  : list (string * value) :=
  fold_left (fun kw ia => dict_set kw (str_nat (fst ia)) (snd ia))
            (imap (fun i a => (i, a)) arg) kw.

(** [Task.set_input] with positional arguments [arg] and keyword
    arguments [kw]; the returned [self] is the world. *)
Definition set_input (arg : list value) (kw : list (string * value))
  : M world unit :=
  for_each (kw_of_args arg kw) set_input_one.

(** [Task.get_input(name)]: [dict.get], so [None] when absent. *)
Definition get_input (name : string) (t : Task) : option value :=
  _input_data t !! name.

(** [Task.run] *)
Definition run (fuel : nat) : M world unit :=
  tick EvRun ;;;
  set_dirty fuel false.

(** [Task.get_output(name)] *)
Definition get_output (fuel : nat) (name : string)
  : M world (option value) :=
  outs <- gets (fun w => _outputs (self w)) ;;
  if negb (dict_mem outs name)
  then raise (ValueError ("Invalid port name '" ++ name ++ "'"))
  else
    d <- gets (fun w => dirty (self w)) ;;
    (if d then run fuel else ret tt) ;;;
    gets (fun w => _output_data (self w) !! name).

(** The spec's name for the error raised on an undeclared port. *)
Definition InvalidPortError (name : string) : exn :=
  ValueError ("Invalid port name '" ++ name ++ "'").

(** The world after the loop of [set_input] went through the declared
    names [pre]: untouched if there was none, marked dirty otherwise. *)
Definition marked (pre : list (string * value)) (w : world) : world :=
  match pre with
  | [] => w
  | _ => mkWorld (with_dirty true (self w)) (trace w)
  end.

(** Concrete tasks for the examples. *)
Definition port0 : Port := mkPort "0" (fun _ => None).
Definition port_a : Port := mkPort "a" (fun _ => None).
Definition port_out : Port := mkPort "out" (fun _ => None).

(** A freshly constructed task with one input ["0"] and one output. *)
Definition task0 : Task := __init__ [port0] [port_out].

(** A task with one input ["a"] whose outputs are up to date. *)
Definition clean_task : Task :=
  mkTask (_port_dict [port_a]) (_port_dict [port_out]) ∅
         {[ "out" := Data (PInt 7) ]} (Some false).

End Task.

(** ** girder_worker/plugins/docker/executor.py *)
Module Docker.

Definition DATA_VOLUME : string := "/mnt/girder_worker/data".

(** The keys of a task input or output spec that the executor reads.
    [stream] is the truth value of [spec.get('stream')]. *)
Record PortSpec : Type := mkPortSpec {
  port_id : option string;
  port_name : option string;
  target : option string;
  stream : bool;
  path : option string;
  arg : option string
}.

(** A binding: the dict bound to a port id in [inputs] or [outputs]. *)
Record Binding : Type := mkBinding {
  mode : option string;
  data : option pyval;
  script_data : option pyval
}.

(** [spec.get('target') == 'filepath'] *)
Definition is_filepath (spec : PortSpec) : bool :=
  match target spec with
  | Some t => String.eqb t "filepath"
  | None => false
  end.

(** [inputs[inputId]['script_data']] *)
Definition script_data_of (inputs : gmap string Binding) (inputId : string)
  : outcome pyval :=
  match inputs !! inputId with
  | None => Raise (KeyError inputId)
  | Some b =>
      match script_data b with
      | None => Raise (KeyError "script_data")
      | Some v => Ret v
      end
  end.

(** [os.path.relpath(path, start)] on a Python value: a falsy path is
    rejected, and only a string has the methods the function calls. *)
Definition os_path_relpath (cwd : string) (path : pyval) (start : string)
  : outcome string :=
  if negb (truthy path) then Raise (ValueError "no path specified")
  else match path with
       | PStr s => Ret (PosixPath.relpath cwd s start)
       | _ => Raise (AttributeError "startswith")
       end.

(** [ti['id'] if 'id' in ti else ti['name']] *)
Definition ti_id (ti : PortSpec) : outcome string :=
  match port_id ti with
  | Some i => Ret i
  | None =>
      match port_name ti with
      | Some n => Ret n
      | None => Raise (KeyError "name")
      end
  end.

(** [_transform_path(inputs, taskInputs, inputId, tmpDir)], by recursion
    over [taskInputs.itervalues()]. *)
Fixpoint _transform_path_loop (cwd : string) (inputs : gmap string Binding)
    (tis : list PortSpec) (inputId tmpDir : string) : outcome pyval :=
  match tis with
  | [] => Raise (Exception ("No task input found with id = " ++ inputId))
  | ti :: rest =>
      let! tiId := ti_id ti in
      if String.eqb tiId inputId then
        if is_filepath ti then
          let! sd := script_data_of inputs inputId in
          let! rel := os_path_relpath cwd sd tmpDir in
          Ret (PStr (PosixPath.join DATA_VOLUME rel))
        else script_data_of inputs inputId
      else _transform_path_loop cwd inputs rest inputId tmpDir
  end.

Definition _transform_path (cwd : string) (inputs : gmap string Binding)
    (taskInputs : list (string * PortSpec)) (inputId tmpDir : string)
  : outcome pyval :=
  _transform_path_loop cwd inputs (map snd taskInputs) inputId tmpDir.

(** The body of the first inner loop of [_expand_args]. *)
Definition input_step (cwd : string) (inputs : gmap string Binding)
    (taskInputs : list (string * PortSpec)) (tmpDir : string)
    (arg inputId : string) : outcome string :=
  match inputs !! inputId with
  | Some _ =>
      let! transformed :=
        _transform_path cwd inputs taskInputs inputId tmpDir in
      Ret (Str.replace ("$input{" ++ inputId ++ "}") (py_str transformed)
                       arg)
  | None =>
      if String.eqb inputId "_tempdir"
      then Ret (Str.replace "$input{_tempdir}" DATA_VOLUME arg)
      else Ret arg
  end.

(** The body of the second inner loop of [_expand_args]. *)
Definition flag_step (inputs : gmap string Binding)
    (taskInputs : list (string * PortSpec)) (arg inputId : string)
  : outcome string :=
  let! val :=
    match inputs !! inputId with
    | Some _ =>
        let! sd := script_data_of inputs inputId in
        if truthy sd then
          match dict_get taskInputs inputId with
          | Some ti => Ret (default inputId (Docker.arg ti))
          | None => Raise (KeyError inputId)
          end
        else Ret ""
    | None => Ret ""
    end in
  Ret (Str.replace ("$flag{" ++ inputId ++ "}") val arg).

(** [for inputId in ids: arg = step(arg, inputId)] *)
Fixpoint steps (step : string -> string -> outcome string)
    (ids : list string) (arg : string) : outcome string :=
  match ids with
  | [] => Ret arg
  | inputId :: rest =>
      let! arg := step arg inputId in
      steps step rest arg
  end.

(** The body of the outer loop of [_expand_args], up to the final value
    of [arg]. *)
Definition expand_arg (cwd : string) (inputs : gmap string Binding)
    (taskInputs : list (string * PortSpec)) (tmpDir arg : string)
  : outcome string :=
  let! arg :=
    steps (input_step cwd inputs taskInputs tmpDir)
          (Str.findall "$input{" arg) arg in
  steps (flag_step inputs taskInputs) (Str.findall "$flag{" arg) arg.

Fixpoint expand_loop (cwd : string) (inputs : gmap string Binding)
    (taskInputs : list (string * PortSpec)) (tmpDir : string)
    (args newArgs : list string) : outcome (list string) :=
  match args with
  | [] => Ret newArgs
  | arg :: rest =>
      let! arg := expand_arg cwd inputs taskInputs tmpDir arg in
      expand_loop cwd inputs taskInputs tmpDir rest
        (if String.eqb arg "" then newArgs else newArgs ++ [arg])
  end.

(** [_expand_args(args, inputs, taskInputs, tmpDir)] *)
Definition _expand_args (cwd : string) (args : list string)
    (inputs : gmap string Binding) (taskInputs : list (string * PortSpec))
    (tmpDir : string) : outcome (list string) :=
  expand_loop cwd inputs taskInputs tmpDir args [].

Definition dq : string := String "034"%char EmptyString.

Definition msg_bad_path : string :=
  "Docker filepath output paths must either start with " ++ dq
  ++ DATA_VOLUME ++ "/" ++ dq
  ++ " or be specified relative to that directory.".

Definition msg_bad_output : string :=
  "Docker outputs must be either " ++ dq ++ "_stdout" ++ dq ++ ", "
  ++ dq ++ "_stderr" ++ dq ++ ", or filepath-target outputs.".

(** [validate_task_outputs(task_outputs)] *)
Fixpoint validate_task_outputs (task_outputs : list (string * PortSpec))
  : outcome unit :=
  match task_outputs with
  | [] => Ret tt
  | (name, spec) :: rest =>
      if is_filepath spec then
        let path := default name (path spec) in
        if Str.startswith path "/"
           && negb (Str.startswith path (DATA_VOLUME ++ "/"))
        then Raise (TaskSpecValidationError msg_bad_path)
        else validate_task_outputs rest
      else if negb (String.eqb name "_stdout" || String.eqb name "_stderr")
      then Raise (TaskSpecValidationError msg_bad_output)
      else validate_task_outputs rest
  end.

(** *** Named pipes *)

(** The host's file system as [_setup_pipes] sees it: the path names that
    exist and, among them, the directories; then the calls made so far to
    [os.mkfifo] and [os.open], oldest first, and the next free descriptor.
    A file is known by its name as written: the host is one without links,
    described by its names in normal form. *)
Record host : Type := mkHost {
  paths : gset string;
  dirs : gset string;
  mkfifo_log : list string;
  open_log : list (string * Z * nat);
  next_fd : nat
}.

Definition O_RDONLY : Z := 0.
Definition O_NONBLOCK : Z := 2048.

(** [p[:p.rfind('/') + 1]] *)
Fixpoint upto_last_slash (p : string) : string :=
  match p with
  | EmptyString => EmptyString
  | String c p' =>
      match upto_last_slash p' with
      | EmptyString =>
          if Ascii.eqb c "/"%char then String c EmptyString else EmptyString
      | head => String c head
      end
  end.

(** [p.rstrip('/')] *)
Fixpoint rstrip_slash (p : string) : string :=
  match p with
  | EmptyString => EmptyString
  | String c p' =>
      match rstrip_slash p' with
      | EmptyString =>
          if Ascii.eqb c "/"%char then EmptyString else String c EmptyString
      | r => String c r
      end
  end.

(** The directory in which the last component of [p] is looked up: what
    comes before the last slash, without its trailing slashes unless it is
    made of slashes only. It is empty for a name in the current
    directory. *)
Definition parent_of (p : string) : string :=
  let head := upto_last_slash p in
  match rstrip_slash head with
  | EmptyString => head
  | d => d
  end.

(** [os.mkfifo(path)]. It fails on the empty path; when the directory that
    is to hold the FIFO is missing or is not a directory; and when the
    name is taken, which a name with a trailing slash always is. *)
Definition os_mkfifo (path : string) : M host unit :=
  fun h =>
    let parent := parent_of path in
    if String.eqb path "" then (Raise (OSError "No such file or directory"), h)
    else if negb (String.eqb parent "" || bool_decide (parent ∈ dirs h))
    then (Raise (OSError (if bool_decide (parent ∈ paths h)
                          then "Not a directory"
                          else "No such file or directory")), h)
    else if Str.ends_with_slash path || bool_decide (path ∈ paths h)
    then (Raise (OSError "File exists"), h)
    else (Ret tt, mkHost ({[path]} ∪ paths h) (dirs h)
                         (mkfifo_log h ++ [path]) (open_log h) (next_fd h)).

(** [os.open(path, flags)] on a path; opening a FIFO for reading with
    [O_NONBLOCK] returns at once with a fresh descriptor. *)
Definition os_open (path : string) (flags : Z) : M host nat :=
  fun h =>
    if bool_decide (path ∈ paths h) then
      (Ret (next_fd h),
       mkHost (paths h) (dirs h) (mkfifo_log h)
              (open_log h ++ [(path, flags, next_fd h)]) (S (next_fd h)))
    else (Raise (OSError "No such file or directory"), h).

(** Modelled from the spec: the stream adapters of [girder_worker.core.io]
    and [girder_worker.core.utils] are not part of the sources; an adapter
    is bound to the binding it was made for. *)
Inductive adapter : Type :=
  | StreamFetchAdapter (b : Binding)
  | StreamPushAdapter (b : Binding)
  | MemoryFetchAdapter (b : Binding) (data : pyval)
  | AccumulateDictAdapter (b : Binding) (key : string).

Definition make_stream_fetch_adapter (b : Binding) : adapter :=
  StreamFetchAdapter b.
Definition make_stream_push_adapter (b : Binding) : adapter :=
  StreamPushAdapter b.

(** Keys of the pipe dicts: a file descriptor or a string. *)
Inductive pipe_key : Type :=
  | KFd (fd : nat)
  | KStr (s : string).

#[export] Instance pipe_key_eq_dec : EqDecision pipe_key.
Proof. solve_decision. Defined.

(** [bindings[id]] *)
Definition binding_of (bindings : gmap string Binding) (id : string)
  : outcome Binding :=
  match bindings !! id with
  | Some b => Ret b
  | None => Raise (KeyError id)
  end.

(** The helper [make_pipe(id, spec, bindings)] of [_setup_pipes]; [None]
    is its [False]. *)
Definition make_pipe (tempdir : string) (id : string) (spec : PortSpec)
    (bindings : gmap string Binding) : M host (option string) :=
  if stream spec && bool_decide (is_Some (bindings !! id))
     && is_filepath spec
  then
    let path := default id (path spec) in
    if Str.startswith path "/"
    then raise (Exception "Streaming filepaths must be relative.")
    else
      let path := PosixPath.join tempdir path in
      os_mkfifo path ;;;
      ret (Some path)
  else ret None.

(** [if pipe:] *)
Definition pipe_truthy (pipe : option string) : option string :=
  match pipe with
  | Some p => if String.eqb p "" then None else Some p
  | None => None
  end.

(** The loop over [task_inputs.iteritems()]. *)
Fixpoint input_pipes (tempdir : string)
    (task_inputs : list (string * PortSpec)) (inputs : gmap string Binding)
    (ipipes : list (pipe_key * adapter))
  : M host (list (pipe_key * adapter)) :=
  match task_inputs with
  | [] => ret ipipes
  | (id, spec) :: rest =>
      pipe <- make_pipe tempdir id spec inputs ;;
      match pipe_truthy pipe with
      | Some pipe =>
          b <- lift (binding_of inputs id) ;;
          input_pipes tempdir rest inputs
            (dict_set ipipes (KStr pipe) (make_stream_fetch_adapter b))
      | None => input_pipes tempdir rest inputs ipipes
      end
  end.

(** The loop over [task_outputs.iteritems()]. *)
Fixpoint output_pipes (tempdir : string)
    (task_outputs : list (string * PortSpec))
    (outputs : gmap string Binding) (opipes : list (pipe_key * adapter))
  : M host (list (pipe_key * adapter)) :=
  match task_outputs with
  | [] => ret opipes
  | (id, spec) :: rest =>
      pipe <- make_pipe tempdir id spec outputs ;;
      match pipe_truthy pipe with
      | Some pipe =>
          b <- lift (binding_of outputs id) ;;
          fd <- os_open pipe (Z.lor O_RDONLY O_NONBLOCK) ;;
          output_pipes tempdir rest outputs
            (dict_set opipes (KFd fd) (make_stream_push_adapter b))
      | None => output_pipes tempdir rest outputs opipes
      end
  end.

(** The value of the loop variable [id] once both loops are over: the
    last key iterated, if any. *)
Definition id_after_loops (task_inputs task_outputs : list (string * PortSpec))
  : option string :=
  match last task_outputs with
  | Some (k, _) => Some k
  | None => fst <$> last task_inputs
  end.

(** The special case of [_stdin]. *)
Definition stdin_pipe (task_inputs task_outputs : list (string * PortSpec))
    (inputs : gmap string Binding) (ipipes : list (pipe_key * adapter))
  : outcome (list (pipe_key * adapter)) :=
  match dict_get task_inputs "_stdin", inputs !! "_stdin" with
  | Some spec, Some b_stdin =>
      if stream spec
      then Ret (dict_set ipipes (KStr "_stdin")
                         (make_stream_fetch_adapter b_stdin))
      else
        match id_after_loops task_inputs task_outputs with
        | None => Raise (UnboundLocalError "id")
        | Some id =>
            let! b := binding_of inputs id in
            match data b with
            | None => Raise (KeyError "data")
            | Some d =>
                Ret (dict_set ipipes (KStr "_stdin") (MemoryFetchAdapter b d))
            end
        end
  | _, _ => Ret ipipes
  end.

(** The body of [for id in ('_stdout', '_stderr')]. *)
Definition std_output_pipe (task_outputs : list (string * PortSpec))
    (outputs : gmap string Binding) (opipes : list (pipe_key * adapter))
    (id : string) : list (pipe_key * adapter) :=
  match dict_get task_outputs id, outputs !! id with
  | Some spec, Some b =>
      if stream spec
      then dict_set opipes (KStr id) (make_stream_push_adapter b)
      else dict_set opipes (KStr id) (AccumulateDictAdapter b "script_data")
  | _, _ => opipes
  end.

(** [_setup_pipes(task_inputs, inputs, task_outputs, outputs, tempdir)] *)
Definition _setup_pipes (task_inputs : list (string * PortSpec))
    (inputs : gmap string Binding) (task_outputs : list (string * PortSpec))
    (outputs : gmap string Binding) (tempdir : string)
  : M host (list (pipe_key * adapter) * list (pipe_key * adapter)) :=
  ipipes <- input_pipes tempdir task_inputs inputs [] ;;
  opipes <- output_pipes tempdir task_outputs outputs [] ;;
  ipipes <- lift (stdin_pipe task_inputs task_outputs inputs ipipes) ;;
  let opipes :=
    fold_left (std_output_pipe task_outputs outputs) ["_stdout"; "_stderr"]
              opipes in
  ret (ipipes, opipes).

(** *** Output collection *)

(** The loop of [run] over [task_outputs.iteritems()] that follows the
    start of the garbage collector. The world is the [outputs] dict;
    [exists] is [os.path.exists] on the host. *)
Definition collect_path (tempdir name : string) (spec : PortSpec) : string :=
  let path := default name (path spec) in
  let path :=
    if negb (Str.startswith path "/")
    then PosixPath.join DATA_VOLUME path else path in
  Str.replace_first DATA_VOLUME tempdir path.

(** [b['script_data'] = v] on a binding. *)
Definition with_script_data (v : pyval) (b : Binding) : Binding :=
  mkBinding (mode b) (data b) (Some v).

Definition collect_one (exists_ : string -> bool) (tempdir : string)
    (ns : string * PortSpec) : M (gmap string Binding) unit :=
  let '(name, spec) := ns in
  if is_filepath spec && negb (stream spec) then
    let path := collect_path tempdir name spec in
    if negb (exists_ path)
    then raise (Exception ("Output filepath " ++ path ++ " does not exist."))
    else
      outputs <- gets (fun o => o) ;;
      match outputs !! name with
      | None => raise (KeyError name)
      | Some b =>
          modify (fun o => <[name := with_script_data (PStr path) b]> o)
      end
  else ret tt.

Definition collect_outputs (exists_ : string -> bool) (tempdir : string)
    (task_outputs : list (string * PortSpec))
  : M (gmap string Binding) unit :=
  for_each task_outputs (collect_one exists_ tempdir).

(** *** Notions of the specification, used to state the properties *)

(** A path lies under the mount root when it extends [DATA_VOLUME + "/"]. *)
Definition under_mount_root (p : string) : bool :=
  Str.startswith p (DATA_VOLUME ++ "/").

(** A declared output that the docker mode does not accept. *)
Definition bad_output (name : string) (spec : PortSpec) : Prop :=
  (is_filepath spec = false /\ name <> "_stdout" /\ name <> "_stderr")
  \/ (is_filepath spec = true
      /\ PosixPath.isabs (default name (path spec)) = true
      /\ under_mount_root (default name (path spec)) = false).

(** The test that [validate_task_outputs] applies to one output. *)
Definition rejects (name : string) (spec : PortSpec) : bool :=
  if is_filepath spec
  then PosixPath.isabs (default name (path spec))
       && negb (under_mount_root (default name (path spec)))
  else negb (String.eqb name "_stdout" || String.eqb name "_stderr").

(** An output that [run] collects from the scratch directory. *)
Definition collected (spec : PortSpec) : bool :=
  is_filepath spec && negb (stream spec).

(** The host path of an output by the specification: the declared path,
    taken relative to the mount root unless absolute, with the mount-root
    prefix exchanged for the scratch directory. *)
Definition host_path (tempdir name : string) (spec : PortSpec) : string :=
  let p := default name (path spec) in
  let in_container :=
    if PosixPath.isabs p then p else DATA_VOLUME ++ "/" ++ p in
  tempdir ++ Str.drop (String.length DATA_VOLUME) in_container.

Definition output_missing (path : string) : exn :=
  Exception ("Output filepath " ++ path ++ " does not exist.").

(** *** Templates

    A container argument seen as the specification describes it: literal
    text interleaved with [$input{id}] and [$flag{id}] tokens. *)
Inductive kind : Type := KInput | KFlag.

Definition opener (k : kind) : string :=
  match k with KInput => "$input{" | KFlag => "$flag{" end.

Definition token (k : kind) (id : string) : string := opener k ++ id ++ "}".

Inductive segment : Type :=
  | Lit (s : string)
  | Tok (k : kind) (id : string).

Definition render_seg (seg : segment) : string :=
  match seg with
  | Lit s => s
  | Tok k id => token k id
  end.

Fixpoint render (segs : list segment) : string :=
  match segs with
  | [] => ""
  | seg :: rest => render_seg seg ++ render rest
  end.

(** The character [c] does not occur in [s]. *)
Fixpoint lacks (c : ascii) (s : string) : bool :=
  match s with
  | EmptyString => true
  | String d s' => negb (Ascii.eqb d c) && lacks c s'
  end.

(** Text in which no token can start. *)
Definition plain (s : string) : bool := lacks "$"%char s.

(** An id as a token can carry it: not empty, no closing brace, plain. *)
Definition valid_id (id : string) : bool :=
  negb (String.eqb id "") && lacks "}"%char id && plain id.

Definition wf_segment (seg : segment) : bool :=
  match seg with
  | Lit s => plain s
  | Tok _ id => valid_id id
  end.

Definition wf_template (segs : list segment) : bool := forallb wf_segment segs.

Definition kind_eqb (k k' : kind) : bool :=
  match k, k' with
  | KInput, KInput | KFlag, KFlag => true
  | _, _ => false
  end.

(** The ids of the tokens of one kind, left to right. *)
Fixpoint ids_of (k : kind) (segs : list segment) : list string :=
  match segs with
  | [] => []
  | Tok k' id :: rest =>
      if kind_eqb k k' then id :: ids_of k rest else ids_of k rest
  | Lit _ :: rest => ids_of k rest
  end.

(** One substitution: the tokens [Tok k id] become the text [v]. *)
Definition sub1 (k : kind) (id v : string) (seg : segment) : segment :=
  match seg with
  | Tok k' id' =>
      if kind_eqb k k' && String.eqb id' id then Lit v else seg
  | Lit _ => seg
  end.

(** The substitution of a whole kind of tokens: [r id] is the text that
    replaces the token of [id], or [None] to leave it in place. *)
Definition subst (k : kind) (r : string -> option string) (seg : segment)
  : segment :=
  match seg with
  | Tok k' id =>
      if kind_eqb k k'
      then match r id with Some v => Lit v | None => seg end
      else seg
  | Lit _ => seg
  end.

(** The same, limited to the ids listed in [ids]. *)
Definition subst_ids (k : kind) (r : string -> option string)
    (ids : list string) (seg : segment) : segment :=
  match seg with
  | Tok k' id =>
      if kind_eqb k k' && bool_decide (id ∈ ids)
      then match r id with Some v => Lit v | None => seg end
      else seg
  | Lit _ => seg
  end.

(** One step of a substitution loop on the text, and on the template. *)
Definition text_step (k : kind) (r : string -> option string)
    (arg id : string) : string :=
  match r id with
  | Some v => Str.replace (token k id) v arg
  | None => arg
  end.

Definition template_step (k : kind) (r : string -> option string)
    (segs : list segment) (id : string) : list segment :=
  match r id with
  | Some v => sub1 k id v <$> segs
  | None => segs
  end.

(** The value that [input_step] substitutes for [$input{inputId}];
    [None] when it leaves the token in place. *)
Definition input_value (cwd : string) (inputs : gmap string Binding)
    (taskInputs : list (string * PortSpec)) (tmpDir inputId : string)
  : outcome (option string) :=
  match inputs !! inputId with
  | Some _ =>
      let! transformed :=
        _transform_path cwd inputs taskInputs inputId tmpDir in
      Ret (Some (py_str transformed))
  | None =>
      if String.eqb inputId "_tempdir" then Ret (Some DATA_VOLUME)
      else Ret None
  end.

(** The value that [flag_step] substitutes for [$flag{inputId}]. *)
Definition flag_value (inputs : gmap string Binding)
    (taskInputs : list (string * PortSpec)) (inputId : string)
  : outcome string :=
  match inputs !! inputId with
  | Some _ =>
      let! sd := script_data_of inputs inputId in
      if truthy sd then
        match dict_get taskInputs inputId with
        | Some ti => Ret (default inputId (Docker.arg ti))
        | None => Raise (KeyError inputId)
        end
      else Ret ""
  | None => Ret ""
  end.

(** *** Template expansion, by the specification *)

(** The task-input spec that a port id refers to: the first one whose id
    (its name, for want of an id) is that id. *)
Fixpoint spec_for (tis : list PortSpec) (id : string) : option PortSpec :=
  match tis with
  | [] => None
  | ti :: rest =>
      match ti_id ti with
      | Ret i => if String.eqb i id then Some ti else spec_for rest id
      | _ => None
      end
  end.

(** The text for [$input{id}]: the mount root for the reserved id
    [_tempdir]; for a bound input its resolved value, or, when the input is
    a filepath target, the bound path taken relative to the scratch
    directory and re-rooted under the mount root. *)
Definition spec_input_text (cwd : string) (inputs : gmap string Binding)
    (taskInputs : list (string * PortSpec)) (tmpDir id : string)
  : option string :=
  if String.eqb id "_tempdir" then Some DATA_VOLUME
  else
    match inputs !! id with
    | Some b =>
        match script_data b, spec_for (map snd taskInputs) id with
        | Some v, Some ti =>
            if is_filepath ti then
              match v with
              | PStr p =>
                  if String.eqb p "" then None
                  else Some (PosixPath.join DATA_VOLUME
                               (PosixPath.relpath cwd p tmpDir))
              | _ => None
              end
            else Some (py_str v)
        | _, _ => None
        end
    | None => None
    end.

(** The text for [$flag{id}]: the configured [arg] of the port when the
    input is bound and truthy, the empty string otherwise. *)
Definition spec_flag_text (inputs : gmap string Binding)
    (taskInputs : list (string * PortSpec)) (id : string) : option string :=
  match inputs !! id with
  | Some b =>
      match script_data b with
      | Some v =>
          if truthy v then
            match dict_get taskInputs id with
            | Some ti => arg ti
            | None => None
            end
          else Some ""
      | None => None
      end
  | None => Some ""
  end.

Definition spec_seg_text (cwd : string) (inputs : gmap string Binding)
    (taskInputs : list (string * PortSpec)) (tmpDir : string)
    (seg : segment) : option string :=
  match seg with
  | Lit s => Some s
  | Tok KInput id => spec_input_text cwd inputs taskInputs tmpDir id
  | Tok KFlag id => spec_flag_text inputs taskInputs id
  end.

(** One argument: every token gives way to its text, left to right. *)
Fixpoint spec_expand (cwd : string) (inputs : gmap string Binding)
    (taskInputs : list (string * PortSpec)) (tmpDir : string)
    (segs : list segment) : option string :=
  match segs with
  | [] => Some ""
  | seg :: rest =>
      match spec_seg_text cwd inputs taskInputs tmpDir seg,
            spec_expand cwd inputs taskInputs tmpDir rest with
      | Some t, Some r => Some (t ++ r)
      | _, _ => None
      end
  end.

(** The texts substituted into a template are plain. *)
Definition plain_texts (cwd : string) (inputs : gmap string Binding)
    (taskInputs : list (string * PortSpec)) (tmpDir : string)
    (segs : list segment) : Prop :=
  forall k id v,
    Tok k id ∈ segs ->
    spec_seg_text cwd inputs taskInputs tmpDir (Tok k id) = Some v ->
    plain v = true.

(** Arguments that are empty after substitution are dropped. *)
Definition drop_empty (outs : list string) : list string :=
  List.filter (fun o => negb (String.eqb o "")) outs.

(** The example of the test suite: a filepath input [foo], a boolean
    input [bar] with [arg = "--bar"]. *)
Definition ti_foo : PortSpec :=
  mkPortSpec (Some "foo") (Some "A variable") (Some "filepath") false
             None None.
Definition ti_bar : PortSpec :=
  mkPortSpec (Some "bar") (Some "Bar") None false None (Some "--bar").
Definition example_task_inputs : list (string * PortSpec) :=
  [("foo", ti_foo); ("bar", ti_bar)].
Definition example_inputs (scratch : string) (bar : bool)
  : gmap string Binding :=
  <["foo" := mkBinding (Some "http") None
                       (Some (PStr (scratch ++ "/file.txt")))]>
    (<["bar" := mkBinding (Some "inline") (Some (PBool bar))
                          (Some (PBool bar))]> ∅).
Definition example_args : list string :=
  ["-f"; "$input{foo}"; "--dir=$input{_tempdir}"; "$flag{bar}"].
Definition example_templates : list (list segment) :=
  [[Lit "-f"]; [Tok KInput "foo"]; [Lit "--dir="; Tok KInput "_tempdir"];
   [Tok KFlag "bar"]].

(** A path component that normalisation keeps as it is. *)
Definition simple_comp (c : string) : bool :=
  negb (String.eqb c "") && lacks "/"%char c
  && negb (String.eqb c ".") && negb (String.eqb c "..").

(** The absolute path made of the given components. *)
Definition abs_path_of (comps : list string) : string :=
  "/" ++ Str.join_slash comps.

(** What the tokens of the example stand for. *)
Definition example_rin (id : string) : option string :=
  if String.eqb id "foo" then Some (DATA_VOLUME ++ "/file.txt")
  else if String.eqb id "_tempdir" then Some DATA_VOLUME
  else None.
Definition example_rfl (bar : bool) (id : string) : string :=
  if bar then "--bar" else "".

(** The arguments the example must resolve to. *)
Definition example_result (bar : bool) : list string :=
  app ["-f"; DATA_VOLUME ++ "/file.txt"; "--dir=" ++ DATA_VOLUME]
      (if bar then ["--bar"] else []).

(** A flag port without a configured [arg]. *)
Definition ti_verbose : PortSpec :=
  mkPortSpec (Some "verbose") None None false None None.

(** Inputs whose values are not plain: [a] carries an input token, [c] the
    tail of a flag token; and an input that takes the reserved name. *)
Definition text_port (id : string) (arg : option string) : PortSpec :=
  mkPortSpec (Some id) None None false None arg.
Definition text_binding (v : string) : Binding :=
  mkBinding None None (Some (PStr v)).
Definition rescan_inputs : gmap string Binding :=
  <["a" := text_binding "$input{b}"]>
    (<["b" := text_binding "X"]> (<["c" := text_binding "ag{b}"]> ∅)).
Definition rescan_task_inputs : list (string * PortSpec) :=
  [("a", text_port "a" None); ("b", text_port "b" (Some "--b"));
   ("c", text_port "c" None)].
Definition tempdir_inputs : gmap string Binding :=
  {[ "_tempdir" := text_binding "/elsewhere" ]}.
Definition tempdir_task_inputs : list (string * PortSpec) :=
  [("_tempdir", text_port "_tempdir" None)].

(** A declared port for which [make_pipe] creates a FIFO: it streams, it
    has a binding, and it is a filepath target. *)
Definition streaming (bindings : gmap string Binding)
    (ns : string * PortSpec) : bool :=
  stream ns.2 && bool_decide (is_Some (bindings !! ns.1)) && is_filepath ns.2.

(** The declared path of a port: the [path] field, else the port id. *)
Definition declared_path (ns : string * PortSpec) : string :=
  default ns.1 (path ns.2).

(** Where the FIFO of a port lives inside the scratch directory. *)
Definition fifo_path (tempdir : string) (ns : string * PortSpec) : string :=
  PosixPath.join tempdir (declared_path ns).

(** The FIFOs that a list of declared ports calls for, in order. *)
Definition fifos_of (tempdir : string) (bindings : gmap string Binding)
    (ports : list (string * PortSpec)) : list string :=
  fifo_path tempdir <$> List.filter (streaming bindings) ports.

(** Host-side opens of FIFOs for reading without blocking, with the
    descriptors handed out from [fd0] on. *)
Fixpoint opens_from (fd0 : nat) (fifos : list string)
  : list (string * Z * nat) :=
  match fifos with
  | [] => []
  | p :: rest => (p, Z.lor O_RDONLY O_NONBLOCK, fd0) :: opens_from (S fd0) rest
  end.

Definition streaming_must_be_relative : exn :=
  Exception "Streaming filepaths must be relative.".

(** A FIFO can be made at [p] on the host [h]: the name is not empty, has
    no trailing slash and is free, and the directory that is to hold it is
    there. *)
Definition creatable (h : host) (p : string) : bool :=
  negb (String.eqb p "") && negb (Str.ends_with_slash p)
  && negb (bool_decide (p ∈ paths h))
  && (String.eqb (parent_of p) "" || bool_decide (parent_of p ∈ dirs h)).

(** Concrete ports and bindings for the examples. *)
Definition in_stream : PortSpec :=
  mkPortSpec (Some "feed") None (Some "filepath") true None None.
Definition out_stream : PortSpec :=
  mkPortSpec (Some "named_pipe") None (Some "filepath") true None None.
Definition dummy_binding : Binding :=
  mkBinding (Some "test_dummy") None None.
Definition empty_host : host := mkHost ∅ ∅ [] [] 3.

(** A host with an empty scratch directory. *)
Definition scratch_host : host :=
  mkHost {[ "/tmp/testing" ]} {[ "/tmp/testing" ]} [] [] 3.

(** Concrete output specs for the examples. *)
Definition out_custom : PortSpec :=
  mkPortSpec (Some "custom") None None false None None.
Definition out_stderr : PortSpec :=
  mkPortSpec (Some "_stderr") None None false None None.
Definition out_ok : PortSpec :=
  mkPortSpec (Some "out") None (Some "filepath") false
             (Some (DATA_VOLUME ++ "/ok.txt")) None.
Definition out_passwd : PortSpec :=
  mkPortSpec (Some "out") None (Some "filepath") false
             (Some "/etc/passwd") None.
Definition out_default : PortSpec :=
  mkPortSpec (Some "result.txt") None (Some "filepath") false None None.

End Docker.


(** * The container run and the garbage collector *)
Module DockerRun.
Import Docker.

(** *** String methods used by the garbage collector *)

(** [c.isspace()] for a byte string in the C locale. *)
Definition isspace (c : ascii) : bool :=
  let n := nat_of_ascii c in
  (Nat.leb 9 n && Nat.leb n 13) || Nat.eqb n 32.

(** [s.lstrip()] *)
Fixpoint lstrip (s : string) : string :=
  match s with
  | EmptyString => EmptyString
  | String c s' => if isspace c then lstrip s' else s
  end.

(** [s.rstrip()] *)
Fixpoint rstrip (s : string) : string :=
  match s with
  | EmptyString => EmptyString
  | String c s' =>
      match rstrip s' with
      | EmptyString => if isspace c then EmptyString else String c EmptyString
      | r => String c r
      end
  end.

(** [s.strip()] *)
Definition strip (s : string) : string := rstrip (lstrip s).

(** [s.split(sep)] for a one-character separator. *)
Fixpoint split_char (sep : ascii) (s : string) : list string :=
  match s with
  | EmptyString => [EmptyString]
  | String c s' =>
      if Ascii.eqb c sep then EmptyString :: split_char sep s'
      else match split_char sep s' with
           | h :: t => String c h :: t
           | [] => [String c EmptyString]
           end
  end.

(** [sep.join(items)] *)
Fixpoint str_join (sep : string) (items : list string) : string :=
  match items with
  | [] => EmptyString
  | [x] => x
  | x :: rest => x ++ sep ++ str_join sep rest
  end.

Definition newline : string := String "010"%char EmptyString.

(** *** The task and what lies outside the module *)

(** [task['entrypoint']]: a list or tuple, or any other value. *)
Inductive entrypoint : Type :=
  | EpSeq (items : list pyval)
  | EpOther (v : pyval).

(** The keys of [task] that [run] reads. *)
Record DockerTask : Type := mkDockerTask {
  docker_image : option string;
  pull_image : option pyval;
  container_args : option (list string);
  task_entrypoint : option entrypoint
}.

(** The [config] dict handed to [client.containers.run]. *)
Record run_config : Type := mkRunConfig {
  cfg_tty : bool;
  cfg_volumes : list (string * (string * string));
  cfg_detach : bool;
  cfg_entrypoint : option (list pyval)
}.

Inductive std : Type := Stdout | Stderr.

(** What [run] registers for an output descriptor: an adapter made by
    [_setup_pipes], or [utils.WritePipeAdapter({}, sys.stdout)] and its
    [sys.stderr] twin. *)
Inductive sink : Type :=
  | Piped (a : adapter)
  | WritePipeAdapter (s : std).

(** The trace of what [run] does outside the process. A call that hands
    back something is recorded when it returns, with what it returned; the
    select loop, [close()] and [wait()] are recorded when they are
    entered. *)
Inductive call : Type :=
  | EvPull (image : string) (returncode : Z)
  | EvContainerStarted (image : string) (args : list string)
                       (config : run_config)
  | EvAttached (s : std) (fileno : nat)
  | EvSelectLoop (ipipes : list (pipe_key * adapter))
                 (opipes : list (pipe_key * sink))
  | EvClose (s : std)
  | EvMkdir (path : string)
  | EvWriteFile (path contents : string)
  | EvGcStarted (script : string) (env : gmap string string)
  | EvWait.

(** What a call outside the module answers: a result or an exception. *)
Inductive answer (A : Type) : Type :=
  | Returns (a : A)
  | Raises (e : exn).
Arguments Returns {A} a.
Arguments Raises {A} e.

Definition outcome_of {A} (a : answer A) : outcome A :=
  match a with
  | Returns v => Ret v
  | Raises e => Raise e
  end.

Definition ask {W A} (a : answer A) : M W A := lift (outcome_of a).

(** Modelled from the spec: the Docker client, the sockets, the select loop
    of [girder_worker.core.utils], the worker configuration, the file
    system and the subprocesses are not part of the sources. Each is given
    by what it answers. [pull_result] and [wait_returncode] are the return
    codes of the two subprocesses, [attach_result] the descriptor of the
    socket, and [select_loop_result] comes with the [outputs] dict as the
    adapters leave it. *)
Record externals : Type := mkExternals {
  cwd : string;
  pull_result : string -> answer Z;
  from_env_result : answer unit;
  containers_run_result : string -> list string -> run_config -> answer unit;
  attach_result : std -> answer nat;
  select_loop_result :
    list (pipe_key * adapter) -> list (pipe_key * sink) ->
    gmap string Binding -> answer unit * gmap string Binding;
  close_result : std -> answer unit;
  mkdir_result : string -> answer unit;
  path_exists : string -> bool;
  module_dir : string;
  script_isfile : bool;
  script_executable : bool;
  environ : gmap string string;
  config : gmap string string;
  write_result : string -> string -> answer unit;
  popen_result : string -> gmap string string -> answer unit;
  wait_returncode : Z
}.

(** The state [run] works on: the host's FIFOs and descriptors, the
    [outputs] dict it shares with its caller, the trace, and the locals
    [stdout] and [stderr] that the [finally] block reads. *)
Record run_state : Type := mkRunState {
  w_host : host;
  w_outputs : gmap string Binding;
  w_trace : list call;
  stdout : option nat;
  stderr : option nat
}.

Definition on_host {A} (m : M host A) : M run_state A :=
  fun w =>
    let '(r, h) := m (w_host w) in
    (r, mkRunState h (w_outputs w) (w_trace w) (stdout w) (stderr w)).

Definition on_outputs {A} (m : M (gmap string Binding) A) : M run_state A :=
  fun w =>
    let '(r, o) := m (w_outputs w) in
    (r, mkRunState (w_host w) o (w_trace w) (stdout w) (stderr w)).

Definition log (e : call) : M run_state unit :=
  modify (fun w => mkRunState (w_host w) (w_outputs w) (w_trace w ++ [e])
                              (stdout w) (stderr w)).

Definition set_stdout (v : option nat) : M run_state unit :=
  modify (fun w => mkRunState (w_host w) (w_outputs w) (w_trace w)
                              v (stderr w)).

Definition set_stderr (v : option nat) : M run_state unit :=
  modify (fun w => mkRunState (w_host w) (w_outputs w) (w_trace w)
                              (stdout w) v).

(** [try: body finally: handler]; an exception of the handler replaces
    the outcome of the body. *)
Definition try_finally {A} (body : M run_state A) (handler : M run_state unit)
  : M run_state A :=
  fun w =>
    let '(r, w1) := body w in
    match handler w1 with
    | (Ret _, w2) => (r, w2)
    | (Raise e, w2) => (Raise e, w2)
    | (OutOfFuel, w2) => (OutOfFuel, w2)
    end.

(** *** The functions *)

(** [_pull_image(image)]; the prints are left out. *)
Definition _pull_image (X : externals) (image : string) : M run_state unit :=
  returncode <- ask (pull_result X image) ;;
  log (EvPull image returncode) ;;;
  if negb (Z.eqb returncode 0)
  then raise (Exception ("Docker pull returned code "
                         ++ py_str (PInt returncode) ++ "."))
  else ret tt.

(** [_read_from_config(key, default)] *)
Definition _read_from_config (X : externals) (key : string) (default : pyval)
  : pyval :=
  match config X !! key with
  | Some v => PStr v
  | None => default
  end.

(** [v.split(',')] on a Python value. *)
Definition py_split (v : pyval) (sep : ascii) : outcome (list string) :=
  match v with
  | PStr s => Ret (split_char sep s)
  | _ => Raise (AttributeError "split")
  end.

(** [[img for img in excluded if img.strip()]] *)
Definition keep_images (excluded : list string) : list string :=
  List.filter (fun img => truthy (PStr (strip img))) excluded.

(** [_docker_gc(tempdir)]; the process object it returns is [tt]. *)
Definition _docker_gc (X : externals) (tempdir : string) : M run_state unit :=
  let script := PosixPath.join (module_dir X) "docker-gc" in
  if negb (script_isfile X)
  then raise (Exception ("Docker GC script " ++ script ++ " not found."))
  else if negb (script_executable X)
  then raise (Exception ("Docker GC script " ++ script
                         ++ " is not executable."))
  else
    let env := environ X in
    let env := <["FORCE_CONTAINER_REMOVAL" := "1"]> env in
    let env := <["STATE_DIR" := tempdir]> env in
    let env := <["PID_DIR" := tempdir]> env in
    let env :=
      <["GRACE_PERIOD_SECONDS" :=
          py_str (_read_from_config X "cache_timeout" (PInt 3600))]> env in
    excluded <-
      lift (py_split (_read_from_config X "exclude_images" (PStr "")) ","%char) ;;
    let excluded := keep_images excluded in
    env <-
      match excluded with
      | [] => ret env
      | _ =>
          let exclude_file := PosixPath.join tempdir ".docker-gc-exclude" in
          let contents := str_join newline excluded ++ newline in
          ask (write_result X exclude_file contents) ;;;
          log (EvWriteFile exclude_file contents) ;;;
          ret (<["EXCLUDE_FROM_GC" := exclude_file]> env)
      end ;;
    ask (popen_result X script env) ;;;
    log (EvGcStarted script env).

(** [ep_args] as [run] computes it. *)
Definition ep_args_of (task : DockerTask) : list pyval :=
  match task_entrypoint task with
  | Some (EpSeq items) => items
  | Some (EpOther v) => [v]
  | None => []
  end.

(** The [config] dict of [run]. *)
Definition container_config (tempdir : string) (ep_args : list pyval)
  : run_config :=
  mkRunConfig true [(tempdir, (DATA_VOLUME, "rw"))] true
              (match ep_args with
               | [] => None
               | _ => Some ep_args
               end).

(** [opipes.get(name, utils.WritePipeAdapter({}, stream))] *)
Definition sink_for (opipes : list (pipe_key * sink)) (name : string)
    (s : std) : sink :=
  default (WritePipeAdapter s) (dict_get opipes (KStr name)).

(** The body of the [try] of [run]. *)
Definition attach_and_loop (X : externals)
    (ipipes opipes : list (pipe_key * adapter)) : M run_state unit :=
  out <- ask (attach_result X Stdout) ;;
  log (EvAttached Stdout out) ;;;
  set_stdout (Some out) ;;;
  err <- ask (attach_result X Stderr) ;;
  log (EvAttached Stderr err) ;;;
  set_stderr (Some err) ;;;
  let opipes := prod_map id Piped <$> opipes in
  let opipes := dict_set opipes (KFd out) (sink_for opipes "_stdout" Stdout) in
  let opipes := dict_set opipes (KFd err) (sink_for opipes "_stderr" Stderr) in
  log (EvSelectLoop ipipes opipes) ;;;
  on_outputs (fun o =>
                let '(a, o') := select_loop_result X ipipes opipes o in
                (outcome_of a, o')).

(** [if sock: sock.close()]; a socket object is truthy. *)
Definition close_socket (X : externals) (s : std) (sock : option nat)
  : M run_state unit :=
  match sock with
  | Some _ => log (EvClose s) ;;; ask (close_result X s)
  | None => ret tt
  end.

(** The [finally] block of [run]. *)
Definition close_sockets (X : externals) : M run_state unit :=
  out <- gets stdout ;;
  close_socket X Stdout out ;;;
  err <- gets stderr ;;
  close_socket X Stderr err.

(** Lines 215 to 252 of [run]: from the image to the started container.
    The result is the pair of pipe dicts; the prints are left out. *)
Definition start_container (X : externals) (task : DockerTask)
    (inputs : gmap string Binding)
    (task_inputs task_outputs : list (string * PortSpec)) (tempdir : string)
  : M run_state (list (pipe_key * adapter) * list (pipe_key * adapter)) :=
  image <- lift (match docker_image task with
                 | Some image => Ret image
                 | None => Raise (KeyError "docker_image")
                 end) ;;
  (if truthy (default (PBool true) (pull_image task))
   then _pull_image X image else ret tt) ;;;
  args <- lift (_expand_args (cwd X) (default [] (container_args task))
                             inputs task_inputs tempdir) ;;
  outputs <- gets w_outputs ;;
  pipes <- on_host (_setup_pipes task_inputs inputs task_outputs outputs
                                 tempdir) ;;
  let ep_args := ep_args_of task in
  ask (from_env_result X) ;;;
  let config := container_config tempdir ep_args in
  ask (containers_run_result X image args config) ;;;
  log (EvContainerStarted image args config) ;;;
  ret pipes.

(** Lines 254 to 290 of [run]: the two locals and the [try] statement. *)
Definition stream_container (X : externals)
    (ipipes opipes : list (pipe_key * adapter)) : M run_state unit :=
  set_stdout None ;;;
  set_stderr None ;;;
  try_finally (attach_and_loop X ipipes opipes) (close_sockets X).

(** Lines 292 to 313 of [run]: the garbage collector and the outputs. *)
Definition collect_after_gc (X : externals)
    (task_outputs : list (string * PortSpec)) (tempdir : string)
  : M run_state unit :=
  let gc_dir := PosixPath.join tempdir "docker_gc_scratch" in
  ask (mkdir_result X gc_dir) ;;;
  log (EvMkdir gc_dir) ;;;
  _docker_gc X gc_dir ;;;
  on_outputs (collect_outputs (path_exists X) tempdir task_outputs) ;;;
  log EvWait ;;;
  if negb (Z.eqb (wait_returncode X) 0)
  then raise (Exception ("Docker GC returned code "
                         ++ py_str (PInt (wait_returncode X)) ++ "."))
  else ret tt.

(** [run(task, inputs, outputs, task_inputs, task_outputs, **kwargs)] for a
    caller that passes [_tempdir]; [outputs] is the dict of the state. *)
Definition run (X : externals) (task : DockerTask)
    (inputs : gmap string Binding)
    (task_inputs task_outputs : list (string * PortSpec)) (tempdir : string)
  : M run_state unit :=
  pipes <- start_container X task inputs task_inputs task_outputs tempdir ;;
  stream_container X pipes.1 pipes.2 ;;;
  collect_after_gc X task_outputs tempdir.

(** *** Notions used to state the properties *)

(** The calls recorded between two states. *)
Definition new_calls (w w' : run_state) : list call :=
  List.skipn (length (w_trace w)) (w_trace w').

(** The three stages of [run] a call belongs to. *)
Inductive stage : Type := Starting | Streaming | Finishing.

Definition stage_of (c : call) : stage :=
  match c with
  | EvPull _ _ | EvContainerStarted _ _ _ => Starting
  | EvAttached _ _ | EvSelectLoop _ _ | EvClose _ => Streaming
  | EvMkdir _ | EvWriteFile _ _ | EvGcStarted _ _ | EvWait => Finishing
  end.

(** [s] holds a character that is not white space. *)
Fixpoint has_text (s : string) : bool :=
  match s with
  | EmptyString => false
  | String c s' => negb (isspace c) || has_text s'
  end.

(** The value of [exclude_images] holds an image name: some character is
    neither a comma nor white space. *)
Fixpoint names_an_image (s : string) : bool :=
  match s with
  | EmptyString => false
  | String c s' =>
      negb (isspace c || Ascii.eqb c ","%char) || names_an_image s'
  end.

(** The four variables that [_docker_gc] always sets, and the fifth. *)
Definition gc_variables : list string :=
  ["FORCE_CONTAINER_REMOVAL"; "STATE_DIR"; "PID_DIR"; "GRACE_PERIOD_SECONDS";
   "EXCLUDE_FROM_GC"].

(** A host on which everything outside the module succeeds. *)
Definition quiet : externals :=
  mkExternals "/" (fun _ => Returns 0%Z) (Returns tt)
              (fun _ _ _ => Returns tt)
              (fun s => Returns (match s with Stdout => 7 | Stderr => 8 end))
              (fun _ _ o => (Returns tt, o)) (fun _ => Returns tt)
              (fun _ => Returns tt) (fun _ => true) "/opt/worker/docker"
              true true {[ "PATH" := "/usr/bin" ]}
              {[ "exclude_images" := "busybox, ,alpine" ]}
              (fun _ _ => Returns tt) (fun _ _ => Returns tt) 0.

Definition fresh_state (outputs : gmap string Binding) : run_state :=
  mkRunState empty_host outputs [] None None.

Definition example_task : DockerTask :=
  mkDockerTask (Some "busybox") None (Some ["echo"; "hi"]) None.

End DockerRun.


(** * Properties of the task model *)
Module TaskFacts.
Import Task.

Lemma setattr_dirty_eq v w :
  setattr_dirty v w = (Ret tt, mkWorld (with_dirty v (self w)) (trace w)).
Proof. reflexivity. Qed.

Lemma dirty_with_dirty v t : dirty (with_dirty v t) = v.
Proof. reflexivity. Qed.

(** The handler returns at once unless the new value is true and the task
    is clean. *)
Lemma _reset_downstream_skip sd old isdirty w :
  isdirty && negb (dirty (self w)) = false ->
  _reset_downstream sd old isdirty w = (Ret tt, w).
Proof.
  intros H. unfold _reset_downstream, bind, gets. simpl. rewrite H.
  reflexivity.
Qed.

(** One unit of fuel is enough for the setter: when the handler runs, the
    value is already stored, so its guard is false. *)
Lemma set_dirty_S n v w :
  set_dirty (S n) v w =
  (Ret tt, mkWorld (with_dirty v (self w))
                   (EvOnChange (dirty (self w)) v :: trace w)).
Proof.
  simpl. unfold bind at 1. unfold gets at 1. simpl.
  unfold bind at 1. rewrite setattr_dirty_eq.
  unfold bind at 1. unfold tick, modify. simpl.
  rewrite _reset_downstream_skip; [reflexivity|].
  simpl. destruct v; reflexivity.
Qed.

Lemma count_reset_on_change old new tr :
  count_reset (EvOnChange old new :: tr) = count_reset tr.
Proof. reflexivity. Qed.

Lemma count_run_on_change old new tr :
  count_run (EvOnChange old new :: tr) = count_run tr.
Proof. reflexivity. Qed.

(** A declared name passes the check of [set_input] and marks the task. *)
Lemma set_input_one_declared name v w :
  dict_mem (_inputs (self w)) name = true ->
  set_input_one (name, v) w =
  (Ret tt, mkWorld (with_dirty true (self w)) (trace w)).
Proof.
  unfold dict_mem, set_input_one, bind, gets. simpl.
  destruct (dict_get (_inputs (self w)) name); [|discriminate].
  intros _. reflexivity.
Qed.

Lemma set_input_one_undeclared name v w :
  dict_mem (_inputs (self w)) name = false ->
  set_input_one (name, v) w = (Raise (InvalidPortError name), w).
Proof.
  unfold dict_mem, set_input_one, bind, gets. simpl.
  destruct (dict_get (_inputs (self w)) name); [discriminate|].
  intros _. reflexivity.
Qed.

Lemma marked_cons nv pre w :
  marked pre (mkWorld (with_dirty true (self w)) (trace w)) =
  marked (nv :: pre) w.
Proof. destruct pre; reflexivity. Qed.

Lemma for_each_declared pre (k : list (string * value)) w :
  Forall (fun nv => dict_mem (_inputs (self w)) nv.1 = true) pre ->
  for_each (pre ++ k) set_input_one w =
  for_each k set_input_one (marked pre w).
Proof.
  revert w. induction pre as [|[name v] pre IH]; intros w Hall.
  - reflexivity.
  - inversion Hall as [|? ? Hhd Htl]; subst. simpl in Hhd.
    change (((name, v) :: pre) ++ k)%list with ((name, v) :: (pre ++ k))%list.
    cbn [for_each]. unfold bind at 1.
    rewrite (set_input_one_declared _ _ _ Hhd).
    rewrite IH by exact Htl. rewrite (marked_cons (name, v)). reflexivity.
Qed.

Lemma marked_input_data pre w :
  _input_data (self (marked pre w)) = _input_data (self w).
Proof. destruct pre; reflexivity. Qed.

Lemma marked_inputs pre w :
  _inputs (self (marked pre w)) = _inputs (self w).
Proof. destruct pre; reflexivity. Qed.

(** Whatever its outcome, [set_input] leaves the input cache alone. *)
Lemma for_each_input_data items w :
  _input_data (self (for_each items set_input_one w).2) =
  _input_data (self w).
Proof.
  revert w. induction items as [|[name v] items IH]; intros w.
  - reflexivity.
  - cbn [for_each]. unfold bind at 1.
    destruct (dict_mem (_inputs (self w)) name) eqn:E.
    + rewrite (set_input_one_declared _ _ _ E). rewrite IH. reflexivity.
    + rewrite (set_input_one_undeclared _ _ _ E). reflexivity.
Qed.

Lemma get_output_undeclared fuel name w :
  dict_mem (_outputs (self w)) name = false ->
  get_output fuel name w = (Raise (InvalidPortError name), w).
Proof.
  intros H. unfold get_output, bind, gets. rewrite H. reflexivity.
Qed.

Lemma get_output_clean fuel name w :
  dict_mem (_outputs (self w)) name = true ->
  dirty (self w) = false ->
  get_output fuel name w = (Ret (_output_data (self w) !! name), w).
Proof.
  intros H Hd. unfold get_output, bind, gets. rewrite H. simpl.
  rewrite Hd. reflexivity.
Qed.

Lemma get_output_dirty n name w :
  dict_mem (_outputs (self w)) name = true ->
  dirty (self w) = true ->
  get_output (S n) name w =
  (Ret (_output_data (self w) !! name),
   mkWorld (with_dirty false (self w))
           (EvOnChange true false :: EvRun :: trace w)).
Proof.
  intros H Hd. unfold get_output, bind, gets. rewrite H. cbn [negb].
  cbv beta. rewrite Hd. unfold run, bind, tick, modify.
  rewrite set_dirty_S. cbn [self trace]. rewrite Hd. reflexivity.
Qed.

(** C1 (the code departs from the claim): [set_input] computes the value to
    bind and then drops it. Whatever the arguments, the input cache after
    the call is the one before it; on a fresh task with input port "0" the
    call [set_input('x')] succeeds and marks the task dirty, yet
    [get_input('0')] still answers [None] instead of the bound value. *)
Theorem C1_set_input_drops_the_bound_value :
  (forall arg kw w,
     _input_data (self (set_input arg kw w).2) = _input_data (self w))
  /\ (exists w',
        set_input [Data (PStr "x")] [] (mkWorld task0 []) = (Ret tt, w')
        /\ dirty (self w') = true
        /\ get_input "0" (self w') = None).
Proof.
  split.
  - intros arg kw w. unfold set_input. apply for_each_input_data.
  - eexists. split; [vm_compute; reflexivity|]. split; reflexivity.
Qed.

(** C2: on a declared output name two consecutive [get_output] calls both
    return the cached value for that name, the first one leaves the task
    clean, the second one does not invoke [run], and [run] is invoked at
    most once over the two calls; on an undeclared name the call raises the
    invalid-port error and changes nothing. *)
Theorem C2_get_output_memoizes fuel name w :
  1 <= fuel ->
  (dict_mem (_outputs (self w)) name = true ->
   exists w1 w2,
     get_output fuel name w = (Ret (_output_data (self w) !! name), w1)
     /\ get_output fuel name w1 = (Ret (_output_data (self w) !! name), w2)
     /\ dirty (self w1) = false
     /\ count_run (trace w2) = count_run (trace w1)
     /\ count_run (trace w2) <= S (count_run (trace w)))
  /\ (dict_mem (_outputs (self w)) name = false ->
      get_output fuel name w = (Raise (InvalidPortError name), w)).
Proof.
  intros Hfuel. split; [|apply get_output_undeclared].
  intros Hin. destruct fuel as [|n]; [lia|].
  destruct (dirty (self w)) eqn:Hd.
  - rewrite (get_output_dirty n name w Hin Hd).
    eexists. eexists. split; [reflexivity|].
    rewrite get_output_clean by (simpl; done).
    simpl. repeat split; reflexivity.
  - rewrite (get_output_clean _ name w Hin Hd).
    exists w, w. rewrite (get_output_clean _ name w Hin Hd).
    repeat split; try done. lia.
Qed.

Lemma C2_get_output_memoizes_witness :
  1 <= 1
  /\ (exists w1 w2,
        get_output 1 "out" (mkWorld task0 []) = (Ret None, w1)
        /\ get_output 1 "out" w1 = (Ret None, w2)
        /\ dirty (self w1) = false
        /\ count_run (trace w2) = count_run (trace w1)
        /\ count_run (trace w2) <= 1).
Proof.
  split; [lia|].
  exact (proj1 (C2_get_output_memoizes 1 "out" (mkWorld task0 [])
                  (le_n 1)) eq_refl).
Defined.

(** C3, as the code has it: when the first undeclared name of a
    [set_input] call is reached, the call raises the invalid-port error
    for that name; the input cache, the output cache and the ports are as
    before the call; the dirty flag is as before the call when no declared
    name was processed before the undeclared one, and is true otherwise. *)
Theorem C3_set_input_unknown_port w arg kw pre name v post :
  kw_of_args arg kw = (pre ++ (name, v) :: post)%list ->
  Forall (fun nv => dict_mem (_inputs (self w)) nv.1 = true) pre ->
  dict_mem (_inputs (self w)) name = false ->
  exists w',
    set_input arg kw w = (Raise (InvalidPortError name), w')
    /\ _input_data (self w') = _input_data (self w)
    /\ _output_data (self w') = _output_data (self w)
    /\ _inputs (self w') = _inputs (self w)
    /\ _outputs (self w') = _outputs (self w)
    /\ (pre = [] -> w' = w)
    /\ (pre <> [] -> _dirty (self w') = Some true).
Proof.
  intros Hkw Hpre Hname. exists (marked pre w).
  unfold set_input. rewrite Hkw. rewrite for_each_declared by exact Hpre.
  cbn [for_each]. unfold bind at 1.
  rewrite set_input_one_undeclared by (rewrite marked_inputs; exact Hname).
  split; [reflexivity|].
  destruct pre; simpl; repeat split; try reflexivity; try congruence.
Qed.

Lemma C3_set_input_unknown_port_witness :
  exists w',
    set_input [] [("a", Data (PInt 1)); ("zz", Data (PInt 2))]
              (mkWorld clean_task [])
    = (Raise (InvalidPortError "zz"), w')
    /\ _input_data (self w') = _input_data clean_task
    /\ _output_data (self w') = _output_data clean_task
    /\ _inputs (self w') = _inputs clean_task
    /\ _outputs (self w') = _outputs clean_task
    /\ ([("a", Data (PInt 1))] = [] -> w' = mkWorld clean_task [])
    /\ ([("a", Data (PInt 1))] <> [] -> _dirty (self w') = Some true).
Proof.
  apply (C3_set_input_unknown_port (mkWorld clean_task []) []
           [("a", Data (PInt 1)); ("zz", Data (PInt 2))]
           [("a", Data (PInt 1))] "zz" (Data (PInt 2)) []).
  - reflexivity.
  - constructor; [reflexivity|constructor].
  - reflexivity.
Defined.

(** C3 as stated fails: with a clean task that declares input "a", the call
    [set_input(a=1, zz=2)] raises for "zz" after the valid name "a" has
    already turned the dirty flag from false to true. *)
Lemma C3_counterexample :
  (set_input [] [("a", Data (PInt 1)); ("zz", Data (PInt 2))]
             (mkWorld clean_task [])).1 = Raise (InvalidPortError "zz")
  /\ dirty clean_task = false
  /\ dirty (self (set_input [] [("a", Data (PInt 1)); ("zz", Data (PInt 2))]
                            (mkWorld clean_task [])).2) = true.
Proof. vm_compute. repeat split; reflexivity. Qed.

(** C9: the handler [_reset_downstream] does nothing, whatever the setter
    it would go through, unless the notified value is true and the task is
    clean; in that one case it resets the task exactly once and the task
    ends dirty. Assigning true to the dirty property of a task that is
    already dirty therefore leaves it dirty and triggers no reset at all. *)
Theorem C9_redundant_dirty_does_not_propagate fuel w :
  1 <= fuel ->
  (forall sd old isdirty,
     isdirty && negb (dirty (self w)) = false ->
     _reset_downstream sd old isdirty w = (Ret tt, w))
  /\ (forall old,
        dirty (self w) = false ->
        exists w',
          _reset_downstream (set_dirty fuel) old true w = (Ret tt, w')
          /\ dirty (self w') = true
          /\ count_reset (trace w') = S (count_reset (trace w)))
  /\ (dirty (self w) = true ->
      exists w',
        set_dirty fuel true w = (Ret tt, w')
        /\ dirty (self w') = true
        /\ count_reset (trace w') = count_reset (trace w)).
Proof.
  intros Hfuel. destruct fuel as [|n]; [lia|]. split; [|split].
  - intros sd old isdirty H. apply _reset_downstream_skip. exact H.
  - intros old Hd. eexists.
    unfold _reset_downstream, bind, gets. rewrite Hd. cbn [andb negb].
    unfold _reset, bind, tick, modify. rewrite set_dirty_S.
    split; [reflexivity|]. split; reflexivity.
  - intros Hd. eexists. rewrite set_dirty_S. simpl.
    split; [reflexivity|]. split; reflexivity.
Qed.

Lemma C9_redundant_dirty_does_not_propagate_witness :
  1 <= 1
  /\ dirty (self (mkWorld task0 [])) = true
  /\ exists w',
       set_dirty 1 true (mkWorld task0 []) = (Ret tt, w')
       /\ dirty (self w') = true
       /\ count_reset (trace w') = count_reset (trace (mkWorld task0 [])).
Proof.
  split; [lia|]. split; [reflexivity|].
  exact (proj2 (proj2 (C9_redundant_dirty_does_not_propagate 1
                         (mkWorld task0 []) (le_n 1))) eq_refl).
Defined.

End TaskFacts.


(** * Properties of strings and paths *)
Module StrFacts.

Lemma append_nil_r (s : string) : s ++ "" = s.
Proof. induction s as [|c s IH]; simpl; [reflexivity|]. by rewrite IH. Qed.

Lemma append_assoc (a b c : string) : (a ++ b) ++ c = a ++ (b ++ c).
Proof. induction a as [|x a IH]; simpl; [reflexivity|]. by rewrite IH. Qed.

Lemma length_append (a b : string) :
  String.length (a ++ b) = String.length a + String.length b.
Proof. induction a as [|x a IH]; simpl; [reflexivity|]. by rewrite IH. Qed.

Lemma prefix_cons_ne a p c s :
  a <> c -> String.prefix (String a p) (String c s) = false.
Proof.
  intros Hne. cbn [String.prefix].
  destruct (ascii_dec a c); [contradiction|reflexivity].
Qed.

Lemma prefix_cons_eq a p s :
  String.prefix (String a p) (String a s) = String.prefix p s.
Proof.
  cbn [String.prefix]. destruct (ascii_dec a a); [reflexivity|contradiction].
Qed.

Lemma prefix_empty (s : string) : String.prefix "" s = true.
Proof. by destruct s. Qed.

Lemma prefix_append (p s : string) : String.prefix p (p ++ s) = true.
Proof.
  induction p as [|c p IH]; simpl; [by destruct s|].
  destruct (ascii_dec c c); [exact IH|congruence].
Qed.

Lemma drop_append (p s : string) : Str.drop (String.length p) (p ++ s) = s.
Proof. induction p as [|c p IH]; simpl; [reflexivity|exact IH]. Qed.

(** A string with prefix [p] is [p] followed by what is left. *)
Lemma prefix_split (p s : string) :
  String.prefix p s = true -> s = p ++ Str.drop (String.length p) s.
Proof.
  revert s. induction p as [|c p IH]; intros s H; simpl; [reflexivity|].
  destruct s as [|d s]; simpl in H; [discriminate|].
  destruct (ascii_dec c d) as [->|]; [|discriminate].
  simpl. f_equal. apply IH. exact H.
Qed.

Lemma replace_first_prefix (old new s : string) :
  String.prefix old s = true ->
  Str.replace_first old new s = new ++ Str.drop (String.length old) s.
Proof.
  intros H. destruct s; unfold Str.replace_first; fold Str.replace_first;
    rewrite H; reflexivity.
Qed.

End StrFacts.

(** * Properties of the docker executor: validation and collection *)
Module OutputFacts.
Import Docker.

Lemma for_each_app {W A} (xs ys : list A) (body : A -> M W unit) w :
  for_each (xs ++ ys) body w =
  match for_each xs body w with
  | (Ret _, w') => for_each ys body w'
  | (Raise e, w') => (Raise e, w')
  | (OutOfFuel, w') => (OutOfFuel, w')
  end.
Proof.
  revert w. induction xs as [|x xs IH]; intros w; simpl; [reflexivity|].
  unfold bind. destruct (body x w) as [[u|e|] w1]; try reflexivity.
  apply IH.
Qed.

Lemma rejects_bad_output name spec :
  rejects name spec = true <-> bad_output name spec.
Proof.
  unfold rejects, bad_output.
  destruct (is_filepath spec).
  - rewrite andb_true_iff, negb_true_iff. split.
    + intros [H1 H2]. right. done.
    + intros [[H _]|(_ & H1 & H2)]; [discriminate|done].
  - rewrite negb_true_iff, orb_false_iff, !String.eqb_neq. split.
    + intros [H1 H2]. left. done.
    + intros [(_ & H1 & H2)|[H _]]; [done|discriminate].
Qed.

Lemma validate_cons name spec rest :
  validate_task_outputs ((name, spec) :: rest) =
  if rejects name spec
  then Raise (TaskSpecValidationError
                (if is_filepath spec then msg_bad_path else msg_bad_output))
  else validate_task_outputs rest.
Proof.
  unfold rejects, under_mount_root, PosixPath.isabs.
  cbn [validate_task_outputs]. destruct (is_filepath spec); [|reflexivity].
  cbv zeta. match goal with |- (if ?c then _ else _) = _ => destruct c end;
    reflexivity.
Qed.

Lemma validate_raises outs :
  (exists msg, validate_task_outputs outs = Raise (TaskSpecValidationError msg))
  <-> Exists (fun ns => bad_output ns.1 ns.2) outs.
Proof.
  induction outs as [|[name spec] rest IH].
  - simpl. split; [intros [msg H]; discriminate|intros H; inversion H].
  - rewrite validate_cons, Exists_cons. simpl.
    rewrite <- rejects_bad_output, <- IH.
    destruct (rejects name spec); split.
    + intros _. left. reflexivity.
    + intros _. eexists. reflexivity.
    + intros H. right. exact H.
    + intros [H|H]; [discriminate|exact H].
Qed.

Lemma validate_returns outs :
  validate_task_outputs outs = Ret tt
  <-> Forall (fun ns => ~ bad_output ns.1 ns.2) outs.
Proof.
  induction outs as [|[name spec] rest IH].
  - simpl. split; [constructor|reflexivity].
  - rewrite validate_cons, Forall_cons. simpl.
    rewrite <- rejects_bad_output, <- IH.
    destruct (rejects name spec); split.
    + discriminate.
    + intros [H _]. exfalso. apply H. reflexivity.
    + intros H. split; [discriminate|exact H].
    + intros [_ H]. exact H.
Qed.

(** *** Output collection *)

Lemma prefix_weaken (a b s : string) :
  String.prefix (a ++ b) s = true -> String.prefix a s = true.
Proof.
  revert s. induction a as [|c a IH]; intros s H.
  - by destruct s.
  - destruct s as [|d s]; simpl in *; [discriminate|].
    destruct (ascii_dec c d); [eauto|discriminate].
Qed.

(** On a path that passed validation the translation of [run] is the
    exchange of the mount-root prefix for the scratch directory. *)
Lemma collect_path_host_path tempdir name spec :
  (PosixPath.isabs (default name (path spec)) = true ->
   under_mount_root (default name (path spec)) = true) ->
  collect_path tempdir name spec = host_path tempdir name spec.
Proof.
  unfold collect_path, host_path, PosixPath.isabs, under_mount_root.
  cbv zeta. set (p := default name (path spec)).
  destruct (Str.startswith p "/") eqn:Habs; intros Hunder; cbn [negb].
  - apply StrFacts.replace_first_prefix.
    apply (prefix_weaken DATA_VOLUME "/"). apply Hunder. reflexivity.
  - unfold PosixPath.join. rewrite Habs.
    change (String.eqb DATA_VOLUME "" || Str.ends_with_slash DATA_VOLUME)
      with false. cbv iota.
    apply StrFacts.replace_first_prefix. apply StrFacts.prefix_append.
Qed.

Lemma collect_one_skip ex tempdir name spec o :
  collected spec = false ->
  collect_one ex tempdir (name, spec) o = (Ret tt, o).
Proof.
  unfold collected, collect_one. intros ->. reflexivity.
Qed.

Lemma collect_one_missing ex tempdir name spec o :
  collected spec = true ->
  ex (collect_path tempdir name spec) = false ->
  collect_one ex tempdir (name, spec) o =
  (Raise (output_missing (collect_path tempdir name spec)), o).
Proof.
  unfold collected, collect_one. intros -> H. cbv zeta. rewrite H.
  reflexivity.
Qed.

Lemma collect_one_found ex tempdir name spec o b :
  collected spec = true ->
  ex (collect_path tempdir name spec) = true ->
  o !! name = Some b ->
  collect_one ex tempdir (name, spec) o =
  (Ret tt,
   <[name := with_script_data (PStr (collect_path tempdir name spec)) b]> o).
Proof.
  unfold collected, collect_one. intros -> H Hb. cbv zeta. rewrite H.
  cbn [negb]. unfold bind, gets. rewrite Hb. reflexivity.
Qed.

(** When every collected output is present on the host, the loop ends
    normally with the host path recorded for each of them. *)
Lemma collect_outputs_found ex tempdir outs (o : gmap string Binding) :
  NoDup outs.*1 ->
  (forall n s, (n, s) ∈ outs -> is_Some (o !! n)) ->
  (forall n s, (n, s) ∈ outs -> collected s = true ->
     ex (collect_path tempdir n s) = true) ->
  exists o',
    collect_outputs ex tempdir outs o = (Ret tt, o')
    /\ (forall n s, (n, s) ∈ outs -> collected s = true ->
          exists b,
            o !! n = Some b
            /\ o' !! n
               = Some (with_script_data (PStr (collect_path tempdir n s)) b))
    /\ (forall n, (forall s, (n, s) ∈ outs -> collected s = false) ->
          o' !! n = o !! n).
Proof.
  unfold collect_outputs. revert o.
  induction outs as [|[n0 s0] rest IH]; intros o Hnd Hdom Hex.
  - exists o. split; [reflexivity|]. split; [|reflexivity].
    intros n s Hin. by apply elem_of_nil in Hin.
  - rewrite fmap_cons, NoDup_cons in Hnd. destruct Hnd as [Hn0 Hnd].
    cbn [fst] in Hn0.
    assert (Hfresh : forall s, (n0, s) ∈ rest -> False).
    { intros s Hin. apply Hn0. apply list_elem_of_fmap. by exists (n0, s). }
    cbn [for_each]. unfold bind at 1.
    destruct (collected s0) eqn:Hc.
    + destruct (Hdom n0 s0) as [b0 Hb0]; [left|].
      rewrite (collect_one_found ex tempdir n0 s0 o b0 Hc
                 (Hex n0 s0 ltac:(left) Hc) Hb0).
      set (o1 := <[n0 := _]> o).
      destruct (IH o1 Hnd) as (o' & Hrun & Hrec & Hkeep).
      { intros n s Hin. unfold o1. rewrite lookup_insert_is_Some.
        destruct (decide (n0 = n)); [by left|right].
        split; [done|]. apply (Hdom n s). by right. }
      { intros n s Hin. apply Hex. by right. }
      exists o'. split; [exact Hrun|]. split.
      * intros n s Hin Hcs. apply elem_of_cons in Hin as [Heq|Hin].
        -- inversion Heq; subst n s. exists b0. split; [exact Hb0|].
           rewrite Hkeep.
           ++ unfold o1. apply lookup_insert_eq.
           ++ intros s Hin. destruct (Hfresh s Hin).
        -- destruct (Hrec n s Hin Hcs) as (b & Hb & Hb').
           exists b. split; [|exact Hb'].
           unfold o1 in Hb. rewrite lookup_insert_ne in Hb; [exact Hb|].
           intros ->. destruct (Hfresh s Hin).
      * intros n Hn. rewrite Hkeep.
        -- unfold o1. apply lookup_insert_ne. intros ->.
           specialize (Hn s0 ltac:(left)). congruence.
        -- intros s Hin. apply Hn. by right.
    + rewrite (collect_one_skip ex tempdir n0 s0 o Hc).
      destruct (IH o Hnd) as (o' & Hrun & Hrec & Hkeep).
      { intros n s Hin. apply (Hdom n s). by right. }
      { intros n s Hin. apply Hex. by right. }
      exists o'. split; [exact Hrun|]. split.
      * intros n s Hin Hcs. apply elem_of_cons in Hin as [Heq|Hin].
        -- inversion Heq; subst n s. congruence.
        -- apply (Hrec n s Hin Hcs).
      * intros n Hn. apply Hkeep. intros s Hin. apply Hn. by right.
Qed.

(** The loop stops at the first collected output that is absent. *)
Lemma collect_outputs_missing ex tempdir (pre : list (string * PortSpec))
    name spec post (o : gmap string Binding) :
  NoDup ((pre ++ (name, spec) :: post)%list).*1 ->
  (forall n s, (n, s) ∈ pre -> is_Some (o !! n)) ->
  (forall n s, (n, s) ∈ pre -> collected s = true ->
     ex (collect_path tempdir n s) = true) ->
  collected spec = true ->
  ex (collect_path tempdir name spec) = false ->
  exists o',
    collect_outputs ex tempdir (pre ++ (name, spec) :: post)%list o =
    (Raise (output_missing (collect_path tempdir name spec)), o').
Proof.
  intros Hnd Hdom Hex Hc Hmiss. unfold collect_outputs.
  rewrite OutputFacts.for_each_app.
  rewrite fmap_app, NoDup_app in Hnd. destruct Hnd as (Hnd & _ & _).
  destruct (collect_outputs_found ex tempdir pre o Hnd Hdom Hex)
    as (o1 & Hrun & _).
  unfold collect_outputs in Hrun. rewrite Hrun.
  cbn [for_each]. unfold bind at 1.
  rewrite (collect_one_missing ex tempdir name spec o1 Hc Hmiss).
  exists o1. reflexivity.
Qed.

Lemma validated_path outs name spec :
  validate_task_outputs outs = Ret tt ->
  (name, spec) ∈ outs ->
  collected spec = true ->
  PosixPath.isabs (default name (path spec)) = true ->
  under_mount_root (default name (path spec)) = true.
Proof.
  rewrite validate_returns, Forall_forall. intros Hall Hin Hc Habs.
  specialize (Hall (name, spec) Hin). cbn [fst snd] in Hall.
  destruct (under_mount_root (default name (path spec))) eqn:E;
    [reflexivity|].
  exfalso. apply Hall. right. unfold collected in Hc.
  apply andb_true_iff in Hc as [Hf _]. done.
Qed.

(** C8: for outputs that passed validation, every collected output (a
    filepath target that does not stream) is resolved to its host path: the
    [path] field or else the port id, taken relative to the mount root
    unless absolute, with the mount-root prefix exchanged for the scratch
    directory. The loop raises the missing-output error naming the resolved
    path of the first collected output that has no file there; when every
    collected output has its file, the loop ends normally, the binding of
    each collected output has its resolved host path as [script_data] with
    its [mode] and [data] as before, and the other entries of [outputs]
    are unchanged. *)
Theorem C8_collect_outputs ex tempdir outs (o : gmap string Binding) :
  validate_task_outputs outs = Ret tt ->
  NoDup outs.*1 ->
  (forall n s, (n, s) ∈ outs -> is_Some (o !! n)) ->
  (forall n s, (n, s) ∈ outs -> collected s = true ->
     collect_path tempdir n s = host_path tempdir n s)
  /\ (forall pre n s post,
        outs = (pre ++ (n, s) :: post)%list ->
        collected s = true ->
        ex (host_path tempdir n s) = false ->
        (forall n' s', (n', s') ∈ pre -> collected s' = true ->
           ex (host_path tempdir n' s') = true) ->
        exists o',
          collect_outputs ex tempdir outs o =
          (Raise (output_missing (host_path tempdir n s)), o'))
  /\ ((forall n s, (n, s) ∈ outs -> collected s = true ->
         ex (host_path tempdir n s) = true) ->
      exists o',
        collect_outputs ex tempdir outs o = (Ret tt, o')
        /\ (forall n s, (n, s) ∈ outs -> collected s = true ->
              exists b b',
                o !! n = Some b
                /\ o' !! n = Some b'
                /\ script_data b' = Some (PStr (host_path tempdir n s))
                /\ mode b' = mode b
                /\ data b' = data b)
        /\ (forall n, (forall s, (n, s) ∈ outs -> collected s = false) ->
              o' !! n = o !! n)).
Proof.
  intros Hval Hnd Hdom.
  assert (Hpath : forall n s, (n, s) ∈ outs -> collected s = true ->
            collect_path tempdir n s = host_path tempdir n s).
  { intros n s Hin Hc. apply collect_path_host_path.
    apply (validated_path outs n s Hval Hin Hc). }
  split; [exact Hpath|]. split.
  - intros pre n s post -> Hc Hmiss Hpre.
    assert (Hn : collect_path tempdir n s = host_path tempdir n s).
    { apply Hpath; [|exact Hc]. apply elem_of_app. right. left. }
    rewrite <- Hn in Hmiss |- *.
    apply collect_outputs_missing; try done.
    + intros n' s' Hin. apply (Hdom n' s'). apply elem_of_app. by left.
    + intros n' s' Hin Hc'. rewrite Hpath; [by apply Hpre| |exact Hc'].
      apply elem_of_app. by left.
  - intros Hex.
    destruct (collect_outputs_found ex tempdir outs o Hnd Hdom)
      as (o' & Hrun & Hrec & Hkeep).
    { intros n s Hin Hc. rewrite Hpath by done. by apply Hex. }
    exists o'. split; [exact Hrun|]. split; [|exact Hkeep].
    intros n s Hin Hc. destruct (Hrec n s Hin Hc) as (b & Hb & Hb').
    exists b, (with_script_data (PStr (collect_path tempdir n s)) b).
    rewrite <- Hpath by done. done.
Qed.

Lemma C8_collect_outputs_witness :
  (exists o',
     collect_outputs (fun _ => false) "/tmp/scratch"
       [("result.txt", out_default)]
       {[ "result.txt" := dummy_binding ]}
     = (Raise (output_missing "/tmp/scratch/result.txt"), o'))
  /\ (exists o',
        collect_outputs (fun p => String.eqb p "/tmp/scratch/result.txt")
          "/tmp/scratch" [("result.txt", out_default)]
          {[ "result.txt" := dummy_binding ]}
        = (Ret tt, o')
        /\ exists b',
             o' !! "result.txt" = Some b'
             /\ script_data b' = Some (PStr "/tmp/scratch/result.txt")
             /\ mode b' = Some "test_dummy"
             /\ data b' = None).
Proof.
  assert (Hnd : NoDup [("result.txt", out_default)].*1)
    by apply NoDup_singleton.
  assert (Hdom : forall n s,
            (n, s) ∈ [("result.txt", out_default)] ->
            is_Some (({[ "result.txt" := dummy_binding ]}
                      : gmap string Binding) !! n)).
  { intros n s Hin. apply list_elem_of_singleton in Hin.
    inversion Hin; subst. rewrite lookup_singleton_eq. by eexists. }
  split.
  - refine (proj1 (proj2 (C8_collect_outputs (fun _ => false) "/tmp/scratch"
                     [("result.txt", out_default)]
                     {[ "result.txt" := dummy_binding ]}
                     eq_refl Hnd Hdom))
              [] "result.txt" out_default [] eq_refl eq_refl eq_refl _).
    intros n' s' Hin. by apply elem_of_nil in Hin.
  - destruct (proj2 (proj2 (C8_collect_outputs
                       (fun p => String.eqb p "/tmp/scratch/result.txt")
                       "/tmp/scratch" [("result.txt", out_default)]
                       {[ "result.txt" := dummy_binding ]}
                       eq_refl Hnd Hdom)))
      as (o' & Hrun & Hrec & _).
    + intros n s Hin _. apply list_elem_of_singleton in Hin.
      by inversion Hin; subst.
    + exists o'. split; [exact Hrun|].
      destruct (Hrec "result.txt" out_default) as (b & b' & Hb & Hb' & Hsd);
        [by apply list_elem_of_singleton|reflexivity|].
      rewrite lookup_singleton_eq in Hb. injection Hb as <-.
      exists b'. split; [exact Hb'|exact Hsd].
Defined.

(** C6: [validate_task_outputs] raises [TaskSpecValidationError] exactly
    when some declared output is neither "_stdout", "_stderr" nor a
    filepath target, or is a filepath target whose path (the [path] field,
    else the name) is absolute and not under the mount root; it returns
    normally exactly when there is no such output. It rejects "custom"
    without target and a filepath output at "/etc/passwd"; it accepts
    "_stderr" and a filepath output at the mount root's "ok.txt". *)
Theorem C6_validate_task_outputs :
  (forall outs,
     (exists msg,
        validate_task_outputs outs = Raise (TaskSpecValidationError msg))
     <-> Exists (fun ns => bad_output ns.1 ns.2) outs)
  /\ (forall outs,
        validate_task_outputs outs = Ret tt
        <-> Forall (fun ns => ~ bad_output ns.1 ns.2) outs)
  /\ validate_task_outputs [("custom", out_custom)]
     = Raise (TaskSpecValidationError msg_bad_output)
  /\ validate_task_outputs [("_stderr", out_stderr)] = Ret tt
  /\ validate_task_outputs [("out", out_ok)] = Ret tt
  /\ validate_task_outputs [("out", out_passwd)]
     = Raise (TaskSpecValidationError msg_bad_path).
Proof.
  split; [exact validate_raises|]. split; [exact validate_returns|].
  repeat split; reflexivity.
Qed.

End OutputFacts.


(** * Properties of the docker executor: named pipes *)
Module PipeFacts.
Import Docker.

Section DictFacts.
Context {K V : Type} `{EqDecision K}.

Lemma dict_get_set_eq (d : list (K * V)) k v :
  dict_get (dict_set d k v) k = Some v.
Proof.
  induction d as [|[k' v'] d IH]; simpl.
  - by rewrite decide_True.
  - destruct (decide (k' = k)) as [->|Hne]; simpl.
    + by rewrite decide_True.
    + by rewrite decide_False.
Qed.

Lemma dict_get_set_ne (d : list (K * V)) k k' v :
  k <> k' -> dict_get (dict_set d k v) k' = dict_get d k'.
Proof.
  intros Hne. induction d as [|[k0 v0] d IH]; simpl.
  - by rewrite decide_False.
  - destruct (decide (k0 = k)) as [->|Hne0]; simpl.
    + by rewrite !decide_False.
    + by rewrite IH.
Qed.
End DictFacts.

Lemma os_mkfifo_cases p h :
  (exists e, os_mkfifo p h = (Raise e, h))
  \/ ((p ∉ paths h) /\ String.eqb p "" = false
      /\ os_mkfifo p h =
         (Ret tt, mkHost ({[p]} ∪ paths h) (dirs h) (mkfifo_log h ++ [p])
                         (open_log h) (next_fd h))).
Proof.
  unfold os_mkfifo. cbv zeta.
  destruct (String.eqb p ""); [left; by eexists|].
  destruct (negb _); [left; by eexists|].
  destruct (Str.ends_with_slash p); [left; by eexists|]. cbn [orb].
  case_bool_decide; [left; by eexists|right; done].
Qed.


(** Whether a FIFO can be made depends on the names and directories of
    the host only. *)
Lemma creatable_ext h h' q :
  paths h' = paths h -> dirs h' = dirs h -> creatable h' q = creatable h q.
Proof. unfold creatable. by intros -> ->. Qed.



(** The three ways [make_pipe] can go. *)
Lemma make_pipe_cases tempdir id spec bindings h :
  (streaming bindings (id, spec) = false
   /\ make_pipe tempdir id spec bindings h = (Ret None, h))
  \/ (streaming bindings (id, spec) = true
      /\ exists e, make_pipe tempdir id spec bindings h = (Raise e, h)
         /\ (PosixPath.isabs (declared_path (id, spec)) = true ->
             e = streaming_must_be_relative))
  \/ (streaming bindings (id, spec) = true
      /\ PosixPath.isabs (declared_path (id, spec)) = false
      /\ (fifo_path tempdir (id, spec) ∉ paths h)
      /\ pipe_truthy (Some (fifo_path tempdir (id, spec)))
         = Some (fifo_path tempdir (id, spec))
      /\ make_pipe tempdir id spec bindings h =
         (Ret (Some (fifo_path tempdir (id, spec))),
          mkHost ({[fifo_path tempdir (id, spec)]} ∪ paths h) (dirs h)
                 (mkfifo_log h ++ [fifo_path tempdir (id, spec)])
                 (open_log h) (next_fd h))).
Proof.
  unfold make_pipe, streaming, fifo_path, declared_path, PosixPath.isabs.
  cbn [fst snd].
  destruct (stream spec && bool_decide (is_Some (bindings !! id))
            && is_filepath spec); [|left; done].
  right. cbv zeta.
  destruct (Str.startswith (default id (path spec)) "/") eqn:Habs.
  - left. split; [done|]. eexists. split; [reflexivity|done].
  - unfold bind.
    destruct (os_mkfifo_cases
                (PosixPath.join tempdir (default id (path spec))) h)
      as [[e He]|(Hfresh & Hne & Hok)].
    + left. split; [done|]. exists e. rewrite He. split; [done|].
      intros; discriminate.
    + right. rewrite Hok. unfold pipe_truthy. rewrite Hne. done.
Qed.

Lemma fifos_of_cons tempdir bindings ns rest :
  fifos_of tempdir bindings (ns :: rest) =
  if streaming bindings ns
  then fifo_path tempdir ns :: fifos_of tempdir bindings rest
  else fifos_of tempdir bindings rest.
Proof.
  unfold fifos_of. cbn [List.filter]. by destruct (streaming bindings ns).
Qed.

Lemma streaming_bound bindings id spec :
  streaming bindings (id, spec) = true ->
  exists b, bindings !! id = Some b /\ binding_of bindings id = Ret b.
Proof.
  unfold streaming, binding_of. cbn [fst snd].
  rewrite !andb_true_iff, bool_decide_eq_true.
  intros [[_ [b Hb]] _]. exists b. by rewrite Hb.
Qed.


Lemma os_open_present p flags h :
  p ∈ paths h ->
  os_open p flags h =
  (Ret (next_fd h),
   mkHost (paths h) (dirs h) (mkfifo_log h)
          (open_log h ++ [(p, flags, next_fd h)]) (S (next_fd h))).
Proof. intros Hin. unfold os_open. by rewrite bool_decide_eq_true_2. Qed.

(** What the loop over the declared outputs does to the host and to
    [opipes], by outcome. *)
Lemma output_pipes_inv tempdir outputs to :
  forall op h,
    match output_pipes tempdir to outputs op h with
    | (Ret op', h') =>
        mkfifo_log h' = (mkfifo_log h ++ fifos_of tempdir outputs to)%list
        /\ open_log h'
           = (open_log h
              ++ opens_from (next_fd h) (fifos_of tempdir outputs to))%list
        /\ (forall ns, ns ∈ to -> streaming outputs ns = true ->
              (fifo_path tempdir ns ∉ paths h)
              /\ PosixPath.isabs (declared_path ns) = false
              /\ exists b fd,
                   outputs !! ns.1 = Some b
                   /\ next_fd h <= fd
                   /\ (fifo_path tempdir ns, Z.lor O_RDONLY O_NONBLOCK, fd)
                      ∈ opens_from (next_fd h) (fifos_of tempdir outputs to)
                   /\ dict_get op' (KFd fd)
                      = Some (make_stream_push_adapter b))
        /\ (forall k, (forall fd, next_fd h <= fd -> k <> KFd fd) ->
              dict_get op' k = dict_get op k)
    | (Raise e, h') =>
        (exists l,
           l `prefix_of` fifos_of tempdir outputs to
           /\ mkfifo_log h' = (mkfifo_log h ++ l)%list)
        /\ (exists l,
              l `prefix_of` opens_from (next_fd h)
                                       (fifos_of tempdir outputs to)
              /\ open_log h' = (open_log h ++ l)%list)
    | (OutOfFuel, _) => False
    end.
Proof.
  induction to as [|[id spec] rest IH]; intros op h.
  - cbn. rewrite !app_nil_r. split; [done|]. split; [done|].
    split; [|done]. intros ns Hin. by apply elem_of_nil in Hin.
  - cbn [output_pipes]. unfold bind at 1. rewrite fifos_of_cons.
    destruct (make_pipe_cases tempdir id spec outputs h)
      as [[Hs Hmk]|[(Hs & e & Hmk & _)|(Hs & Habs & Hfresh & Htr & Hmk)]];
      rewrite Hmk, Hs.
    + cbn [pipe_truthy]. specialize (IH op h).
      destruct (output_pipes tempdir rest outputs op h) as [[op'|e|] h'];
        [|exact IH|exact IH].
      destruct IH as (Hlog & Hop & Hreg & Hkeep).
      split; [done|]. split; [done|]. split; [|done].
      intros ns Hin Hns. apply elem_of_cons in Hin as [->|Hin];
        [congruence|]. by apply Hreg.
    + split; exists []; (split; [apply prefix_nil|by rewrite app_nil_r]).
    + rewrite Htr. destruct (streaming_bound outputs id spec Hs)
        as (b & Hb & Hbo).
      unfold bind at 1. unfold lift at 1. rewrite Hbo.
      set (p := fifo_path tempdir (id, spec)) in *.
      unfold bind at 1. rewrite os_open_present
        by (cbn [paths]; apply elem_of_union_l; by apply elem_of_singleton).
      cbn [paths mkfifo_log open_log next_fd].
      set (h2 := mkHost _ _ _ _ _).
      set (op1 := dict_set op (KFd (next_fd h)) (make_stream_push_adapter b)).
      specialize (IH op1 h2).
      destruct (output_pipes tempdir rest outputs op1 h2) as [[op'|e|] h'];
        [| |exact IH].
      * destruct IH as (Hlog & Hop & Hreg & Hkeep).
        cbn [mkfifo_log open_log next_fd paths h2] in *.
        split; [by rewrite Hlog, <- app_assoc|].
        split; [by rewrite Hop, <- app_assoc|]. split.
        -- intros ns Hin Hns. apply elem_of_cons in Hin as [->|Hin].
           ++ split; [done|]. split; [done|]. exists b, (next_fd h).
              split; [done|]. split; [done|]. split; [by left|].
              rewrite Hkeep; [apply dict_get_set_eq|].
              intros fd Hfd Heq. inversion Heq. lia.
           ++ destruct (Hreg ns Hin Hns)
                as (Hnotin & Habs' & b' & fd & Hb' & Hfd & Hopen & Hget).
              split; [intros Hc; apply Hnotin; by apply elem_of_union_r|].
              split; [done|]. exists b', fd. split; [done|].
              split; [lia|]. split; [by right|done].
        -- intros k Hk. rewrite Hkeep.
           ++ apply dict_get_set_ne. intros <-. by apply (Hk (next_fd h)).
           ++ intros fd Hfd. apply Hk. lia.
      * destruct IH as ((l & Hpre & Hlog) & (l' & Hpre' & Hop)).
        cbn [mkfifo_log open_log next_fd h2] in *. split.
        -- exists (p :: l). split; [by apply prefix_cons|].
           by rewrite Hlog, <- app_assoc.
        -- exists ((p, Z.lor O_RDONLY O_NONBLOCK, next_fd h) :: l').
           split; [by apply prefix_cons|]. by rewrite Hop, <- app_assoc.
Qed.













(** The named-pipe run of the test suite, with one streaming input added:
    two FIFOs, only the output one opened. *)
Example setup_pipes_named_pipe :
  exists h',
    _setup_pipes [("feed", in_stream)] {[ "feed" := dummy_binding ]}
                 [("named_pipe", out_stream)]
                 {[ "named_pipe" := dummy_binding ]} "/tmp/testing"
                 scratch_host
    = (Ret ([(KStr "/tmp/testing/feed", StreamFetchAdapter dummy_binding)],
            [(KFd 3, StreamPushAdapter dummy_binding)]), h')
    /\ mkfifo_log h' = ["/tmp/testing/feed"; "/tmp/testing/named_pipe"]
    /\ open_log h' = [("/tmp/testing/named_pipe", 2048%Z, 3)].
Proof. eexists. split; [vm_compute; reflexivity|]. split; reflexivity. Qed.

End PipeFacts.


(** * Properties of posixpath on normalised paths *)
Module PathFacts.
Import Docker StrFacts.

Lemma simple_comp_inv c :
  simple_comp c = true ->
  c <> "" /\ lacks "/"%char c = true /\ c <> "." /\ c <> "..".
Proof.
  unfold simple_comp.
  rewrite !andb_true_iff, !negb_true_iff, !String.eqb_neq. tauto.
Qed.

Lemma split_slash_app c rest :
  lacks "/"%char c = true ->
  Str.split_slash (c ++ String "/"%char rest) = c :: Str.split_slash rest.
Proof.
  induction c as [|x c IH]; intros H.
  - reflexivity.
  - simpl in H. apply andb_true_iff in H as [Hx H].
    apply negb_true_iff in Hx.
    change (String x c ++ String "/"%char rest)
      with (String x (c ++ String "/"%char rest)).
    cbn [Str.split_slash]. rewrite Hx, (IH H). reflexivity.
Qed.

Lemma split_slash_plain c :
  lacks "/"%char c = true -> Str.split_slash c = [c].
Proof.
  induction c as [|x c IH]; intros H; [reflexivity|].
  simpl in H. apply andb_true_iff in H as [Hx H].
  apply negb_true_iff in Hx.
  cbn [Str.split_slash]. rewrite Hx, (IH H). reflexivity.
Qed.

Lemma join_slash_cons c d rest :
  Str.join_slash (c :: d :: rest)
  = c ++ String "/"%char (Str.join_slash (d :: rest)).
Proof. reflexivity. Qed.

Lemma split_join comps :
  comps <> [] ->
  forallb simple_comp comps = true ->
  Str.split_slash (Str.join_slash comps) = comps.
Proof.
  induction comps as [|c rest IH]; intros Hne H; [done|].
  cbn [forallb] in H. apply andb_true_iff in H as [Hc H].
  apply simple_comp_inv in Hc as (_ & Hc & _).
  destruct rest as [|d rest].
  - by apply split_slash_plain.
  - rewrite join_slash_cons, split_slash_app by done.
    f_equal. by apply IH.
Qed.

Lemma join_slash_snoc comps f :
  comps <> [] ->
  Str.join_slash (comps ++ [f])
  = Str.join_slash comps ++ String "/"%char f.
Proof.
  induction comps as [|c rest IH]; intros Hne; [done|].
  destruct rest as [|d rest]; [reflexivity|].
  change ((c :: d :: rest) ++ [f])%list with (c :: (d :: rest) ++ [f])%list.
  change ((d :: rest) ++ [f])%list with (d :: (rest ++ [f]))%list.
  rewrite !join_slash_cons.
  change (d :: (rest ++ [f]))%list with ((d :: rest) ++ [f])%list.
  rewrite IH by done. by rewrite append_assoc.
Qed.

Lemma norm_comps_simple n comps acc :
  forallb simple_comp comps = true ->
  PosixPath.norm_comps n comps acc = (acc ++ comps)%list.
Proof.
  revert acc. induction comps as [|c rest IH]; intros acc H.
  - by rewrite app_nil_r.
  - cbn [forallb] in H. apply andb_true_iff in H as [Hc H].
    apply simple_comp_inv in Hc as (H1 & _ & H2 & H3).
    apply String.eqb_neq in H1, H2, H3.
    cbn [PosixPath.norm_comps]. rewrite H1, H2, H3. cbn [orb negb].
    rewrite (IH _ H). by rewrite <- app_assoc.
Qed.

Lemma join_slash_head comps :
  comps <> [] ->
  forallb simple_comp comps = true ->
  exists x t, Str.join_slash comps = String x t /\ x <> "/"%char.
Proof.
  destruct comps as [|c rest]; intros Hne H; [done|].
  cbn [forallb] in H. apply andb_true_iff in H as [Hc _].
  apply simple_comp_inv in Hc as (H1 & H2 & _).
  destruct c as [|x c]; [done|]. simpl in H2.
  apply andb_true_iff in H2 as [Hx _]. apply negb_true_iff in Hx.
  exists x. destruct rest as [|d rest].
  - exists c. split; [reflexivity|]. intros ->. discriminate.
  - eexists. rewrite join_slash_cons. split; [reflexivity|].
    intros ->. discriminate.
Qed.

(** Normalisation leaves an absolute path of simple components alone, and
    its components are the given ones. *)
Lemma split_slash_abs_path_of comps :
  comps <> [] ->
  forallb simple_comp comps = true ->
  Str.split_slash (abs_path_of comps) = "" :: comps.
Proof.
  intros Hne H. unfold abs_path_of.
  change ("/" ++ Str.join_slash comps)
    with (String "/"%char (Str.join_slash comps)).
  cbn [Str.split_slash]. change (Ascii.eqb "/" "/") with true. cbv iota.
  by rewrite split_join.
Qed.

Lemma normpath_abs_path_of comps :
  comps <> [] ->
  forallb simple_comp comps = true ->
  PosixPath.normpath (abs_path_of comps) = abs_path_of comps.
Proof.
  intros Hne H. destruct (join_slash_head comps Hne H) as (x & t & Hj & Hx).
  assert (Heq : String.eqb (abs_path_of comps) "" = false) by reflexivity.
  assert (Hs1 : Str.startswith (abs_path_of comps) "/" = true).
  { unfold Str.startswith, abs_path_of.
    change ("/" ++ Str.join_slash comps)
      with (String "/"%char (Str.join_slash comps)).
    by rewrite prefix_cons_eq, prefix_empty. }
  assert (Hs2 : Str.startswith (abs_path_of comps) "//" = false).
  { unfold Str.startswith, abs_path_of.
    change ("/" ++ Str.join_slash comps)
      with (String "/"%char (Str.join_slash comps)).
    change "//" with (String "/"%char "/").
    rewrite prefix_cons_eq, Hj.
    apply prefix_cons_ne. congruence. }
  unfold PosixPath.normpath.
  rewrite Heq, Hs1, Hs2, split_slash_abs_path_of by done.
  cbn [andb]. cbv zeta.
  cbn [PosixPath.norm_comps]. change (String.eqb "" "") with true.
  cbn [orb]. rewrite norm_comps_simple by done. cbn [app].
  fold (abs_path_of comps). by rewrite Heq.
Qed.

Lemma nonempty_comps_abs_path_of comps :
  comps <> [] ->
  forallb simple_comp comps = true ->
  PosixPath.nonempty_comps (abs_path_of comps) = comps.
Proof.
  intros Hne H. unfold PosixPath.nonempty_comps.
  rewrite split_slash_abs_path_of by done.
  cbn [List.filter]. change (String.eqb "" "") with true. cbn [negb].
  clear Hne. induction comps as [|c rest IH]; [done|].
  cbn [forallb] in H. apply andb_true_iff in H as [Hc H].
  apply simple_comp_inv in Hc as (H1 & _). apply String.eqb_neq in H1.
  cbn [List.filter]. rewrite H1. cbn [negb]. f_equal. by apply IH.
Qed.

Lemma common_len_app l k :
  PosixPath.common_len l (l ++ k) = length l.
Proof.
  induction l as [|a l IH]; [by destruct k|].
  cbn [PosixPath.common_len app length]. rewrite String.eqb_refl.
  by rewrite IH.
Qed.

(** The path of a file directly inside a normalised directory, taken
    relative to that directory, is the file name. *)
Lemma relpath_child cwd comps f :
  comps <> [] ->
  forallb simple_comp comps = true ->
  simple_comp f = true ->
  PosixPath.relpath cwd (abs_path_of comps ++ "/" ++ f) (abs_path_of comps)
  = f.
Proof.
  intros Hne H Hf.
  assert (Hchild : abs_path_of comps ++ "/" ++ f = abs_path_of (comps ++ [f])).
  { unfold abs_path_of. rewrite join_slash_snoc by done.
    by rewrite append_assoc. }
  assert (Hne' : (comps ++ [f])%list <> []) by (by destruct comps).
  assert (H' : forallb simple_comp (comps ++ [f]) = true).
  { rewrite forallb_app, H. cbn. by rewrite Hf. }
  rewrite Hchild. unfold PosixPath.relpath, PosixPath.abspath.
  assert (Habs : forall l, PosixPath.isabs (abs_path_of l) = true).
  { intros l. unfold PosixPath.isabs, Str.startswith, abs_path_of.
    change ("/" ++ Str.join_slash l)
      with (String "/"%char (Str.join_slash l)).
    by rewrite prefix_cons_eq, prefix_empty. }
  rewrite !Habs, !normpath_abs_path_of, !nonempty_comps_abs_path_of by done.
  cbv zeta. rewrite common_len_app, Nat.sub_diag.
  rewrite drop_app_length. reflexivity.
Qed.

End PathFacts.

(** * Properties of the docker executor: argument templates *)
Module TemplateFacts.
Import Docker StrFacts.

(** Discharges [plain_texts] on a concrete template by enumeration. *)
Ltac plain_texts_by_cases :=
  intros k id v Hin Hv;
  repeat (apply elem_of_cons in Hin as [Hin|Hin];
          [try discriminate; injection Hin as -> ->;
           vm_compute in Hv; injection Hv as <-; reflexivity|]);
  by apply elem_of_nil in Hin.

Lemma lacks_append c a b :
  lacks c (a ++ b) = lacks c a && lacks c b.
Proof.
  induction a as [|d a IH]; simpl; [reflexivity|].
  by rewrite IH, andb_assoc.
Qed.

Lemma valid_id_inv id :
  valid_id id = true ->
  id <> "" /\ lacks "}"%char id = true /\ plain id = true.
Proof.
  unfold valid_id. rewrite !andb_true_iff, negb_true_iff, String.eqb_neq.
  tauto.
Qed.

(** *** The regular expression *)

Lemma group_id id s :
  lacks "}"%char id = true ->
  Str.group (id ++ String "}"%char s) = Some (id, S (String.length id)).
Proof.
  induction id as [|c id IH]; intros H.
  - reflexivity.
  - simpl in H. apply andb_true_iff in H as [Hc H].
    apply negb_true_iff in Hc. simpl. rewrite Hc, (IH H). reflexivity.
Qed.

Lemma token_append k id s :
  token k id ++ s = opener k ++ id ++ String "}"%char s.
Proof. unfold token. by rewrite !append_assoc. Qed.

Lemma length_token k id :
  String.length (token k id) = String.length (opener k) + S (String.length id).
Proof.
  unfold token. rewrite !length_append. simpl. lia.
Qed.

Lemma match_here_token k id s :
  valid_id id = true ->
  Str.match_here (opener k) (token k id ++ s)
  = Some (id, String.length (token k id)).
Proof.
  intros Hid. apply valid_id_inv in Hid as (Hne & Hbrace & _).
  unfold Str.match_here. rewrite token_append, prefix_append, drop_append.
  rewrite (group_id id s Hbrace), length_token.
  destruct id; [done|reflexivity].
Qed.

Lemma prefix_opener_char k c s :
  Ascii.eqb c "$"%char = false -> String.prefix (opener k) (String c s) = false.
Proof.
  intros Hc. destruct k; unfold opener; apply prefix_cons_ne;
    intros <-; discriminate.
Qed.

Lemma findall_plain op k lit s :
  op = opener k ->
  plain lit = true ->
  Str.findall_from op 0 (lit ++ s) = Str.findall_from op 0 s.
Proof.
  intros -> H. induction lit as [|c lit IH]; [reflexivity|].
  simpl in H. apply andb_true_iff in H as [Hc H].
  apply negb_true_iff in Hc.
  change (String c lit ++ s) with (String c (lit ++ s)).
  cbn [Str.findall_from]. unfold Str.match_here.
  rewrite (prefix_opener_char k c _ Hc). exact (IH H).
Qed.

Lemma findall_skip op m s :
  Str.findall_from op (String.length m) (m ++ s) = Str.findall_from op 0 s.
Proof. induction m as [|c m IH]; [reflexivity|exact IH]. Qed.

Lemma token_cons k id :
  exists t, token k id = String "$"%char t
            /\ (plain id = true -> plain t = true).
Proof.
  destruct k; eexists; (split; [reflexivity|]); intros H; unfold plain in *;
    simpl; rewrite lacks_append, H; reflexivity.
Qed.

Lemma findall_token_same k id s :
  valid_id id = true ->
  Str.findall_from (opener k) 0 (token k id ++ s)
  = id :: Str.findall_from (opener k) 0 s.
Proof.
  intros Hid. pose proof (match_here_token k id s Hid) as Hm.
  destruct (token_cons k id) as (t & Ht & _). rewrite Ht in *.
  change (String "$"%char t ++ s) with (String "$"%char (t ++ s)) in *.
  cbn [Str.findall_from]. rewrite Hm. f_equal.
  cbn [String.length]. rewrite Nat.sub_1_r. cbn [Nat.pred].
  apply findall_skip.
Qed.

Lemma prefix_opener_other k k' s :
  k <> k' -> String.prefix (opener k) (opener k' ++ s) = false.
Proof. destruct k, k'; intros H; try congruence; reflexivity. Qed.

Lemma findall_token_other k k' id s :
  k <> k' ->
  valid_id id = true ->
  Str.findall_from (opener k) 0 (token k' id ++ s)
  = Str.findall_from (opener k) 0 s.
Proof.
  intros Hk Hid. apply valid_id_inv in Hid as (_ & _ & Hplain).
  assert (Hp : String.prefix (opener k) (token k' id ++ s) = false).
  { rewrite token_append. by apply prefix_opener_other. }
  destruct (token_cons k' id) as (t & Ht & Hpt). rewrite Ht in *.
  change (String "$"%char t ++ s) with (String "$"%char (t ++ s)) in *.
  cbn [Str.findall_from]. unfold Str.match_here. rewrite Hp.
  apply (findall_plain _ k); [reflexivity|by apply Hpt].
Qed.

Lemma kind_eq_dec (k k' : kind) : {k = k'} + {k <> k'}.
Proof. decide equality. Qed.

Lemma kind_eqb_spec k k' : reflect (k = k') (kind_eqb k k').
Proof. destruct k, k'; constructor; congruence. Qed.

(** On a well-formed template [re.findall] returns the ids of the tokens of
    its kind. *)
Lemma findall_render k segs :
  wf_template segs = true ->
  Str.findall (opener k) (render segs) = ids_of k segs.
Proof.
  unfold Str.findall. induction segs as [|seg rest IH]; intros Hwf.
  - reflexivity.
  - cbn in Hwf. apply andb_true_iff in Hwf as [Hseg Hwf].
    cbn [render]. destruct seg as [lit|k' id]; cbn [render_seg ids_of].
    + rewrite (findall_plain _ k) by done. by apply IH.
    + destruct (kind_eqb_spec k k') as [<-|Hne].
      * rewrite findall_token_same by done. by rewrite IH.
      * rewrite findall_token_other by done. by rewrite IH.
Qed.

(** *** [str.replace] *)

Lemma replace_plain old' new lit s :
  plain lit = true ->
  Str.replace_from (String "$"%char old') new 0 (lit ++ s)
  = lit ++ Str.replace_from (String "$"%char old') new 0 s.
Proof.
  intros H. induction lit as [|c lit IH]; [reflexivity|].
  simpl in H. apply andb_true_iff in H as [Hc H].
  apply negb_true_iff in Hc.
  change (String c lit ++ s) with (String c (lit ++ s)).
  cbn [Str.replace_from]. rewrite prefix_cons_ne by (intros <-; discriminate).
  rewrite (IH H). reflexivity.
Qed.

Lemma replace_skip old new m s :
  Str.replace_from old new (String.length m) (m ++ s)
  = Str.replace_from old new 0 s.
Proof. induction m as [|c m IH]; [reflexivity|exact IH]. Qed.

Lemma replace_hit c old' new s :
  Str.replace_from (String c old') new 0 (String c old' ++ s)
  = new ++ Str.replace_from (String c old') new 0 s.
Proof.
  pose proof (prefix_append (String c old') s) as Hp.
  change (String c old' ++ s) with (String c (old' ++ s)) in *.
  cbn [Str.replace_from]. rewrite Hp. f_equal.
  cbn [String.length]. rewrite Nat.sub_1_r. cbn [Nat.pred].
  apply replace_skip.
Qed.

Lemma prefix_append_cancel p a b :
  String.prefix (p ++ a) (p ++ b) = String.prefix a b.
Proof.
  induction p as [|c p IH]; [reflexivity|].
  change (String c p ++ a) with (String c (p ++ a)).
  change (String c p ++ b) with (String c (p ++ b)).
  by rewrite prefix_cons_eq.
Qed.

Lemma prefix_id_ne id id' s s' :
  lacks "}"%char id = true ->
  lacks "}"%char id' = true ->
  id <> id' ->
  String.prefix (id ++ String "}"%char s') (id' ++ String "}"%char s) = false.
Proof.
  revert id'. induction id as [|c id IH]; intros id' H H' Hne.
  - destruct id' as [|c' id']; [done|]. simpl in H'.
    apply andb_true_iff in H' as [Hc' _]. apply negb_true_iff in Hc'.
    apply prefix_cons_ne. intros <-. discriminate.
  - simpl in H. apply andb_true_iff in H as [Hc H].
    apply negb_true_iff in Hc.
    destruct id' as [|c' id'].
    + apply prefix_cons_ne. intros ->. discriminate.
    + simpl in H'. apply andb_true_iff in H' as [_ H'].
      change (String c id ++ String "}"%char s')
        with (String c (id ++ String "}"%char s')).
      change (String c' id' ++ String "}"%char s)
        with (String c' (id' ++ String "}"%char s)).
      destruct (ascii_dec c c') as [<-|Hcc].
      * rewrite prefix_cons_eq. apply IH; [done|done|congruence].
      * by apply prefix_cons_ne.
Qed.

Lemma prefix_token_other k id k' id' s :
  valid_id id = true ->
  valid_id id' = true ->
  (k, id) <> (k', id') ->
  String.prefix (token k id) (token k' id' ++ s) = false.
Proof.
  intros Hid Hid' Hne.
  apply valid_id_inv in Hid as (_ & Hb & _).
  apply valid_id_inv in Hid' as (_ & Hb' & _).
  rewrite token_append. unfold token.
  destruct (kind_eq_dec k k') as [<-|Hk].
  - rewrite prefix_append_cancel. apply prefix_id_ne; [done|done|congruence].
  - destruct k, k'; try congruence; reflexivity.
Qed.

Lemma replace_token_other k id new k' id' s :
  valid_id id = true ->
  valid_id id' = true ->
  (k, id) <> (k', id') ->
  Str.replace_from (token k id) new 0 (token k' id' ++ s)
  = token k' id' ++ Str.replace_from (token k id) new 0 s.
Proof.
  intros Hid Hid' Hne.
  pose proof (prefix_token_other k id k' id' s Hid Hid' Hne) as Hp.
  apply valid_id_inv in Hid' as (_ & _ & Hplain).
  destruct (token_cons k id) as (t & Ht & _).
  destruct (token_cons k' id') as (t' & Ht' & Hpt').
  rewrite Ht, Ht' in *.
  change (String "$"%char t' ++ s) with (String "$"%char (t' ++ s)) in *.
  cbn [Str.replace_from]. rewrite Hp.
  rewrite replace_plain by (by apply Hpt'). reflexivity.
Qed.

Lemma replace_token k id new s :
  Str.replace (token k id) new s = Str.replace_from (token k id) new 0 s.
Proof. destruct (token_cons k id) as (t & -> & _). reflexivity. Qed.


(** On a well-formed template [str.replace] of a token rewrites exactly the
    segments that are this token. *)
Lemma replace_render k id new segs :
  valid_id id = true ->
  wf_template segs = true ->
  Str.replace (token k id) new (render segs)
  = render (sub1 k id new <$> segs).
Proof.
  intros Hid. rewrite replace_token.
  induction segs as [|seg rest IH]; intros Hwf.
  - reflexivity.
  - cbn in Hwf. apply andb_true_iff in Hwf as [Hseg Hwf].
    rewrite fmap_cons. cbn [render]. rewrite <- (IH Hwf).
    destruct seg as [lit|k' id']; cbn [render_seg sub1].
    + destruct (token_cons k id) as (t & -> & _). by apply replace_plain.
    + destruct (kind_eqb_spec k k') as [<-|Hk]; cbn [andb].
      * destruct (String.eqb_spec id' id) as [->|Hne].
        -- cbn [render_seg]. destruct (token_cons k id) as (t & -> & _).
           apply replace_hit.
        -- apply replace_token_other; [done|done|congruence].
      * apply replace_token_other; [done|done|congruence].
Qed.

(** *** The substitution loops *)

Lemma wf_template_cons seg rest :
  wf_template (seg :: rest) = true
  <-> wf_segment seg = true /\ wf_template rest = true.
Proof. unfold wf_template. cbn [forallb]. apply andb_true_iff. Qed.

Lemma ids_of_valid k segs id :
  wf_template segs = true -> id ∈ ids_of k segs -> valid_id id = true.
Proof.
  induction segs as [|seg rest IH]; intros Hwf Hin.
  - by apply elem_of_nil in Hin.
  - apply wf_template_cons in Hwf as [Hseg Hwf].
    destruct seg as [lit|k' id']; cbn [ids_of] in Hin; [by apply IH|].
    destruct (kind_eqb k k'); [|by apply IH].
    apply elem_of_cons in Hin as [->|Hin]; [exact Hseg|by apply IH].
Qed.

Lemma elem_of_ids_of k segs id :
  Tok k id ∈ segs -> id ∈ ids_of k segs.
Proof.
  induction segs as [|seg rest IH]; intros Hin.
  - by apply elem_of_nil in Hin.
  - apply elem_of_cons in Hin as [<-|Hin].
    + cbn [ids_of]. destruct (kind_eqb_spec k k); [by left|done].
    + destruct seg as [lit|k' id']; cbn [ids_of]; [by apply IH|].
      destruct (kind_eqb k k'); [right|]; by apply IH.
Qed.

Lemma wf_sub1 k id v segs :
  plain v = true ->
  wf_template segs = true ->
  wf_template (sub1 k id v <$> segs) = true.
Proof.
  intros Hv. induction segs as [|seg rest IH]; intros Hwf; [done|].
  apply wf_template_cons in Hwf as [Hseg Hwf]. rewrite fmap_cons.
  apply wf_template_cons. split; [|by apply IH].
  destruct seg as [lit|k' id']; cbn [sub1]; [done|].
  by destruct (_ && _).
Qed.

Lemma wf_template_step k r segs id :
  (forall v, r id = Some v -> plain v = true) ->
  wf_template segs = true ->
  wf_template (template_step k r segs id) = true.
Proof.
  intros Hv Hwf. unfold template_step.
  destruct (r id) as [v|]; [|done]. apply wf_sub1; [by apply Hv|done].
Qed.

(** A loop of replacements on the text is the same loop on the template. *)
Lemma text_steps_render k r ids :
  forall segs,
    wf_template segs = true ->
    (forall id, id ∈ ids -> valid_id id = true) ->
    (forall id v, id ∈ ids -> r id = Some v -> plain v = true) ->
    fold_left (text_step k r) ids (render segs)
    = render (fold_left (template_step k r) ids segs).
Proof.
  induction ids as [|id ids IH]; intros segs Hwf Hids Hv; [reflexivity|].
  cbn [fold_left].
  assert (Hstep : text_step k r (render segs) id
                  = render (template_step k r segs id)).
  { unfold text_step, template_step. destruct (r id) as [v|]; [|done].
    apply replace_render; [|done]. apply Hids. by left. }
  rewrite Hstep. apply IH.
  - apply wf_template_step; [|done]. intros v. apply Hv. by left.
  - intros id' Hin. apply Hids. by right.
  - intros id' v Hin. apply Hv. by right.
Qed.

Lemma subst_ids_step k r id ids seg :
  subst_ids k r ids
    (match r id with Some v => sub1 k id v seg | None => seg end)
  = subst_ids k r (id :: ids) seg.
Proof.
  destruct seg as [lit|k' id']; [by destruct (r id)|].
  unfold subst_ids, sub1.
  destruct (kind_eqb k k') eqn:Hk; cbn [andb].
  2:{ destruct (r id); rewrite ?Hk; done. }
  destruct (String.eqb_spec id' id) as [->|Hne].
  - rewrite (bool_decide_eq_true_2 (id ∈ id :: ids)) by (by left).
    destruct (r id) as [v|] eqn:Hr; [done|].
    rewrite Hk. cbn [andb]. rewrite Hr. by destruct (bool_decide _).
  - assert (Hiff : bool_decide (id' ∈ id :: ids) = bool_decide (id' ∈ ids)).
    { apply bool_decide_ext. rewrite elem_of_cons. split; [|by right].
      intros [?|?]; [congruence|done]. }
    rewrite Hiff. destruct (r id); rewrite ?Hk; done.
Qed.

Lemma template_steps_subst_ids k r ids :
  forall segs,
    fold_left (template_step k r) ids segs = subst_ids k r ids <$> segs.
Proof.
  induction ids as [|id ids IH]; intros segs.
  - cbn [fold_left]. rewrite <- (list_fmap_id segs) at 1.
    apply list_fmap_ext. intros i seg _. destruct seg as [lit|k' id']; [done|].
    unfold subst_ids. rewrite bool_decide_eq_false_2, andb_false_r; [done|].
    apply not_elem_of_nil.
  - cbn [fold_left]. rewrite IH. unfold template_step.
    destruct (r id) as [v|] eqn:Hr.
    + rewrite <- list_fmap_compose. apply list_fmap_ext. intros i seg _.
      cbn [compose]. rewrite <- subst_ids_step, Hr. done.
    + apply list_fmap_ext. intros i seg _.
      rewrite <- subst_ids_step, Hr. done.
Qed.

Lemma subst_ids_all k r segs :
  subst_ids k r (ids_of k segs) <$> segs = subst k r <$> segs.
Proof.
  apply list_fmap_ext. intros i seg Hi. destruct seg as [lit|k' id]; [done|].
  unfold subst_ids, subst. destruct (kind_eqb_spec k k') as [<-|]; [|done].
  rewrite bool_decide_eq_true_2; [done|].
  apply elem_of_ids_of. by eapply list_elem_of_lookup_2.
Qed.

(** Running the code's loop when every step returns. *)
Lemma steps_ret step f ids :
  forall arg,
    (forall a id, id ∈ ids -> step a id = Ret (f a id)) ->
    steps step ids arg = Ret (fold_left f ids arg).
Proof.
  induction ids as [|id ids IH]; intros arg H; [reflexivity|].
  cbn [steps fold_left]. rewrite H by (by left). cbn [obind].
  apply IH. intros a id' Hin. apply H. by right.
Qed.

Lemma input_step_value cwd inputs tis tmpDir arg id :
  input_step cwd inputs tis tmpDir arg id =
  let! r := input_value cwd inputs tis tmpDir id in
  Ret (text_step KInput (fun _ => r) arg id).
Proof.
  unfold input_step, input_value, text_step.
  destruct (inputs !! id).
  - by destruct (_transform_path cwd inputs tis id tmpDir).
  - destruct (String.eqb_spec id "_tempdir") as [->|]; reflexivity.
Qed.

Lemma flag_step_value inputs tis arg id :
  flag_step inputs tis arg id =
  let! v := flag_value inputs tis id in
  Ret (text_step KFlag (fun _ => Some v) arg id).
Proof. reflexivity. Qed.

Lemma ids_of_subst_other k k' r segs :
  k <> k' -> ids_of k (subst k' r <$> segs) = ids_of k segs.
Proof.
  intros Hne. induction segs as [|seg rest IH]; [done|].
  rewrite fmap_cons. destruct seg as [lit|k0 id]; cbn [subst ids_of]; [done|].
  destruct (kind_eqb_spec k' k0) as [<-|].
  - assert (Hf : kind_eqb k k' = false)
      by (destruct (kind_eqb_spec k k'); congruence).
    rewrite Hf. destruct (r id); cbn [ids_of]; rewrite ?Hf; exact IH.
  - cbn [ids_of]. by rewrite IH.
Qed.

Lemma wf_subst k r segs :
  (forall id v, id ∈ ids_of k segs -> r id = Some v -> plain v = true) ->
  wf_template segs = true ->
  wf_template (subst k r <$> segs) = true.
Proof.
  induction segs as [|seg rest IH]; intros Hv Hwf; [done|].
  apply wf_template_cons in Hwf as [Hseg Hwf]. rewrite fmap_cons.
  apply wf_template_cons.
  destruct seg as [lit|k' id]; cbn [ids_of] in Hv.
  - split; [done|]. by apply IH.
  - cbn [subst]. destruct (kind_eqb_spec k k') as [<-|].
    + split; [|apply IH; [|done]; intros id' v Hin; apply Hv; by right].
      destruct (r id) as [v|] eqn:Hr; [|done].
      apply (Hv id v); [by left|done].
    + split; [done|]. by apply IH.
Qed.

(** The expansion of one well-formed argument: when the code resolves the
    input tokens to [rin] and the flag tokens to [rfl], and the resolved
    texts are plain, the result is the template with every resolved token
    replaced by its text. *)
Lemma expand_arg_template cwd inputs tis tmpDir segs rin rfl :
  wf_template segs = true ->
  (forall id, id ∈ ids_of KInput segs ->
     input_value cwd inputs tis tmpDir id = Ret (rin id)) ->
  (forall id v, id ∈ ids_of KInput segs -> rin id = Some v ->
     plain v = true) ->
  (forall id, id ∈ ids_of KFlag segs ->
     flag_value inputs tis id = Ret (rfl id)) ->
  (forall id, id ∈ ids_of KFlag segs -> plain (rfl id) = true) ->
  expand_arg cwd inputs tis tmpDir (render segs)
  = Ret (render (subst KFlag (fun id => Some (rfl id))
                   <$> (subst KInput rin <$> segs))).
Proof.
  intros Hwf Hin Hinp Hfl Hflp. unfold expand_arg.
  change (Str.findall "$input{" (render segs))
    with (Str.findall (opener KInput) (render segs)).
  rewrite (findall_render KInput segs Hwf).
  rewrite (steps_ret _ (text_step KInput rin)).
  2:{ intros a id Hid. rewrite input_step_value, (Hin id Hid). cbn [obind].
      unfold text_step. reflexivity. }
  cbn [obind].
  rewrite text_steps_render;
    [|done|intros id; by apply ids_of_valid|done].
  rewrite template_steps_subst_ids, subst_ids_all.
  set (segs1 := subst KInput rin <$> segs).
  assert (Hwf1 : wf_template segs1 = true) by (by apply wf_subst).
  assert (Hids : ids_of KFlag segs1 = ids_of KFlag segs)
    by (by apply ids_of_subst_other).
  change (Str.findall "$flag{" (render segs1))
    with (Str.findall (opener KFlag) (render segs1)).
  rewrite (findall_render KFlag segs1 Hwf1), Hids.
  rewrite (steps_ret _ (text_step KFlag (fun id => Some (rfl id)))).
  2:{ intros a id Hid. rewrite flag_step_value, (Hfl id Hid). reflexivity. }
  f_equal. rewrite <- Hids.
  rewrite text_steps_render;
    [|done|intros id; by apply ids_of_valid|].
  - by rewrite template_steps_subst_ids, subst_ids_all.
  - intros id v Hid [= <-]. apply Hflp. by rewrite <- Hids.
Qed.

(** *** The code against the specification's substitution *)

Lemma transform_path_spec_for cwd inputs tis id tmpDir ti :
  spec_for tis id = Some ti ->
  _transform_path_loop cwd inputs tis id tmpDir =
  if is_filepath ti then
    let! sd := script_data_of inputs id in
    let! rel := os_path_relpath cwd sd tmpDir in
    Ret (PStr (PosixPath.join DATA_VOLUME rel))
  else script_data_of inputs id.
Proof.
  induction tis as [|t rest IH]; intros H; [discriminate|].
  cbn [spec_for] in H. cbn [_transform_path_loop].
  destruct (ti_id t) as [i|e|]; [|discriminate|discriminate]. cbn [obind].
  destruct (String.eqb i id); [|by apply IH].
  by injection H as ->.
Qed.

Lemma transform_path_no_spec cwd inputs tis id tmpDir :
  Forall (fun ti => exists i, ti_id ti = Ret i /\ i <> id) tis ->
  _transform_path_loop cwd inputs tis id tmpDir
  = Raise (Exception ("No task input found with id = " ++ id)).
Proof.
  induction 1 as [|t rest (i & Hi & Hne) _ IH]; [reflexivity|].
  cbn [_transform_path_loop]. rewrite Hi. cbn [obind].
  apply String.eqb_neq in Hne. by rewrite Hne.
Qed.

Lemma input_value_spec cwd inputs tis tmpDir id v :
  inputs !! "_tempdir" = None ->
  spec_input_text cwd inputs tis tmpDir id = Some v ->
  input_value cwd inputs tis tmpDir id = Ret (Some v).
Proof.
  intros Htmp. unfold spec_input_text, input_value.
  destruct (String.eqb_spec id "_tempdir") as [->|Hne].
  - intros [= <-]. by rewrite Htmp.
  - destruct (inputs !! id) as [b|] eqn:Hb; [|discriminate].
    destruct (script_data b) as [sd|] eqn:Hsd; [|discriminate].
    destruct (spec_for (map snd tis) id) as [ti|] eqn:Hti; [|discriminate].
    unfold _transform_path.
    rewrite (transform_path_spec_for _ _ _ _ _ ti Hti).
    unfold script_data_of. rewrite Hb, Hsd.
    destruct (is_filepath ti); [|by intros [= <-]].
    destruct sd as [| | |p]; try discriminate.
    destruct (String.eqb p "") eqn:Hp; [discriminate|].
    intros [= <-]. cbn [obind]. unfold os_path_relpath. cbn [truthy].
    rewrite Hp. reflexivity.
Qed.

Lemma flag_value_spec inputs tis id a :
  spec_flag_text inputs tis id = Some a ->
  flag_value inputs tis id = Ret a.
Proof.
  unfold spec_flag_text, flag_value, script_data_of.
  destruct (inputs !! id) as [b|]; [|by intros [= <-]].
  destruct (script_data b) as [sd|]; [|discriminate]. cbn [obind].
  destruct (truthy sd); [|by intros [= <-]].
  destruct (dict_get tis id) as [ti|]; [|discriminate].
  by intros ->.
Qed.

Lemma ids_of_elem k segs id : id ∈ ids_of k segs -> Tok k id ∈ segs.
Proof.
  induction segs as [|seg rest IH]; intros Hin.
  - by apply elem_of_nil in Hin.
  - destruct seg as [lit|k' id']; cbn [ids_of] in Hin; [right; by apply IH|].
    destruct (kind_eqb_spec k k') as [<-|]; [|right; by apply IH].
    apply elem_of_cons in Hin as [->|Hin]; [by left|right; by apply IH].
Qed.

Lemma spec_expand_elem cwd inputs tis tmpDir segs out seg :
  spec_expand cwd inputs tis tmpDir segs = Some out ->
  seg ∈ segs ->
  is_Some (spec_seg_text cwd inputs tis tmpDir seg).
Proof.
  revert out. induction segs as [|s0 rest IH]; intros out H Hin.
  - by apply elem_of_nil in Hin.
  - cbn [spec_expand] in H.
    destruct (spec_seg_text cwd inputs tis tmpDir s0) as [t|] eqn:Ht;
      [|discriminate].
    destruct (spec_expand cwd inputs tis tmpDir rest) as [r|]; [|discriminate].
    apply elem_of_cons in Hin as [->|Hin]; [by rewrite Ht|by eapply IH].
Qed.

Lemma spec_expand_render cwd inputs tis tmpDir segs out :
  spec_expand cwd inputs tis tmpDir segs = Some out ->
  render (subst KFlag
            (fun id => Some (default "" (spec_flag_text inputs tis id)))
          <$> (subst KInput (spec_input_text cwd inputs tis tmpDir)
               <$> segs))
  = out.
Proof.
  revert out. induction segs as [|seg rest IH]; intros out H.
  - by injection H.
  - cbn [spec_expand] in H.
    destruct (spec_seg_text cwd inputs tis tmpDir seg) as [t|] eqn:Ht;
      [|discriminate].
    destruct (spec_expand cwd inputs tis tmpDir rest) as [r|]; [|discriminate].
    injection H as <-. rewrite !fmap_cons. cbn [render].
    rewrite (IH r eq_refl). f_equal.
    destruct seg as [lit|[] id]; cbn in Ht |- *.
    + by injection Ht.
    + by rewrite Ht.
    + by rewrite Ht.
Qed.

(** One well-formed argument expands to what the specification says. *)
Lemma expand_arg_spec cwd inputs tis tmpDir segs out :
  inputs !! "_tempdir" = None ->
  wf_template segs = true ->
  spec_expand cwd inputs tis tmpDir segs = Some out ->
  plain_texts cwd inputs tis tmpDir segs ->
  expand_arg cwd inputs tis tmpDir (render segs) = Ret out.
Proof.
  intros Htmp Hwf Hspec Hplain.
  rewrite (expand_arg_template cwd inputs tis tmpDir segs
             (spec_input_text cwd inputs tis tmpDir)
             (fun id => default "" (spec_flag_text inputs tis id)) Hwf).
  - f_equal. by apply spec_expand_render.
  - intros id Hid. apply ids_of_elem in Hid.
    destruct (spec_expand_elem _ _ _ _ _ _ _ Hspec Hid) as [v Hv].
    cbn in Hv. rewrite Hv. by apply input_value_spec.
  - intros id v Hid Hv. apply ids_of_elem in Hid.
    by apply (Hplain KInput id v).
  - intros id Hid. apply ids_of_elem in Hid.
    destruct (spec_expand_elem _ _ _ _ _ _ _ Hspec Hid) as [v Hv].
    cbn in Hv. rewrite Hv. by apply flag_value_spec.
  - intros id Hid. apply ids_of_elem in Hid.
    destruct (spec_expand_elem _ _ _ _ _ _ _ Hspec Hid) as [v Hv].
    cbn in Hv. rewrite Hv. by apply (Hplain KFlag id v).
Qed.

Lemma expand_loop_ret cwd inputs tis tmpDir args outs :
  Forall2 (fun a o => expand_arg cwd inputs tis tmpDir a = Ret o) args outs ->
  forall newArgs,
    expand_loop cwd inputs tis tmpDir args newArgs
    = Ret (newArgs ++ drop_empty outs)%list.
Proof.
  induction 1 as [|a o args outs Ha _ IH]; intros newArgs.
  - cbn. by rewrite app_nil_r.
  - cbn [expand_loop]. rewrite Ha. cbn [obind]. rewrite IH.
    unfold drop_empty. cbn [List.filter].
    destruct (String.eqb o ""); cbn [negb]; [done|].
    by rewrite <- app_assoc.
Qed.

(** No argument of a successful expansion is the empty string. *)
Lemma expand_loop_nonempty cwd inputs tis tmpDir args :
  forall newArgs out,
    expand_loop cwd inputs tis tmpDir args newArgs = Ret out ->
    Forall (fun a => a <> "") newArgs ->
    Forall (fun a => a <> "") out.
Proof.
  induction args as [|a args IH]; intros newArgs out H Hacc.
  - cbn in H. by injection H as <-.
  - cbn [expand_loop] in H.
    destruct (expand_arg cwd inputs tis tmpDir a) as [o|e|];
      [|discriminate|discriminate].
    cbn [obind] in H. apply (IH _ _ H).
    destruct (String.eqb_spec o ""); [done|].
    apply Forall_app. split; [done|]. by constructor.
Qed.

(** *** The example of the test suite, for any normalised scratch directory *)

Lemma example_input_foo cwd comps bar :
  comps <> [] ->
  forallb simple_comp comps = true ->
  input_value cwd (example_inputs (abs_path_of comps) bar)
              example_task_inputs (abs_path_of comps) "foo"
  = Ret (example_rin "foo").
Proof.
  intros Hne H. unfold input_value, example_inputs.
  rewrite lookup_insert_eq. unfold _transform_path.
  cbn [map snd example_task_inputs _transform_path_loop ti_id ti_foo port_id
       obind]. change (String.eqb "foo" "foo") with true. cbv iota.
  change (is_filepath ti_foo) with true. cbv iota.
  unfold script_data_of. rewrite lookup_insert_eq.
  cbn [script_data obind]. unfold os_path_relpath.
  assert (Ht : truthy (PStr (abs_path_of comps ++ "/file.txt")) = true)
    by reflexivity.
  rewrite Ht. cbn [negb].
  change "/file.txt" with ("/" ++ "file.txt").
  rewrite (PathFacts.relpath_child cwd comps "file.txt" Hne H eq_refl).
  reflexivity.
Qed.

Lemma example_input_tempdir cwd scratch bar :
  input_value cwd (example_inputs scratch bar) example_task_inputs scratch
              "_tempdir"
  = Ret (example_rin "_tempdir").
Proof.
  unfold input_value, example_inputs.
  rewrite !lookup_insert_ne, lookup_empty by done. reflexivity.
Qed.

Lemma example_flag_bar scratch bar :
  flag_value (example_inputs scratch bar) example_task_inputs "bar"
  = Ret (example_rfl bar "bar").
Proof.
  unfold flag_value, script_data_of, example_inputs.
  rewrite lookup_insert_ne, lookup_insert_eq by done.
  cbn [script_data obind truthy]. by destruct bar.
Qed.

Lemma example_expand_arg cwd comps bar segs :
  comps <> [] ->
  forallb simple_comp comps = true ->
  segs ∈ example_templates ->
  expand_arg cwd (example_inputs (abs_path_of comps) bar)
             example_task_inputs (abs_path_of comps) (render segs)
  = Ret (render (subst KFlag (fun id => Some (example_rfl bar id))
                   <$> (subst KInput example_rin <$> segs))).
Proof.
  intros Hne H Hin. apply expand_arg_template.
  - unfold example_templates in Hin.
    repeat (apply elem_of_cons in Hin as [->|Hin]; [reflexivity|]).
    by apply elem_of_nil in Hin.
  - intros id Hid. unfold example_templates in Hin.
    repeat (apply elem_of_cons in Hin as [->|Hin];
            [cbn in Hid;
             repeat (apply elem_of_cons in Hid as [->|Hid];
                     [first [by apply example_input_foo
                            |apply example_input_tempdir]|]);
             by apply elem_of_nil in Hid|]).
    by apply elem_of_nil in Hin.
  - intros id v _. unfold example_rin.
    destruct (String.eqb id "foo"); [by intros [= <-]|].
    destruct (String.eqb id "_tempdir"); [by intros [= <-]|done].
  - intros id Hid. unfold example_templates in Hin.
    repeat (apply elem_of_cons in Hin as [->|Hin];
            [cbn in Hid;
             repeat (apply elem_of_cons in Hid as [->|Hid];
                     [apply example_flag_bar|]);
             by apply elem_of_nil in Hid|]).
    by apply elem_of_nil in Hin.
  - intros id _. by destruct bar.
Qed.

Lemma example_expansion cwd comps bar :
  comps <> [] ->
  forallb simple_comp comps = true ->
  _expand_args cwd example_args (example_inputs (abs_path_of comps) bar)
               example_task_inputs (abs_path_of comps)
  = Ret (example_result bar).
Proof.
  intros Hne H. unfold _expand_args.
  change example_args with (render <$> example_templates).
  rewrite (expand_loop_ret _ _ _ _ _
             ((fun segs =>
                 render (subst KFlag (fun id => Some (example_rfl bar id))
                           <$> (subst KInput example_rin <$> segs)))
              <$> example_templates)).
  - by destruct bar.
  - apply Forall2_fmap, Forall_Forall2_diag, Forall_forall.
    intros segs Hin. by apply example_expand_arg.
Qed.

Lemma subst_none k (segs : list segment) :
  subst k (fun _ => None) <$> segs = segs.
Proof.
  rewrite <- (list_fmap_id segs) at 2. apply list_fmap_ext.
  intros i seg _. destruct seg as [lit|k' id]; [done|].
  cbn [subst]. by destruct (kind_eqb k k').
Qed.

Lemma append_nonempty a b c : b <> "" -> a ++ b ++ c <> "".
Proof.
  intros Hb H. apply (f_equal String.length) in H.
  rewrite !length_append in H. destruct b; [done|]. simpl in H. lia.
Qed.

(** C4 as stated fails: a template that names an input absent from the
    resolved input map expands without error, the token left as written. *)
Lemma C4_counterexample :
  _expand_args "/" ["$input{zzz}"] ∅ [] "/tmp/scratch"
  = Ret ["$input{zzz}"].
Proof. vm_compute. reflexivity. Qed.

(** C4, as the code has it: the input pass leaves alone a token
    [$input{id}] whose id is absent from the resolved input map and is not
    [_tempdir]; a well-formed argument whose tokens all name absent inputs
    expands without error to itself with its flag tokens erased. The
    construction error is raised instead for an id that is present in the
    resolved input map while no task-input spec carries it. *)
Theorem C4_unresolved_input_left_in_place cwd inputs tis tmpDir :
  (forall arg id,
     inputs !! id = None -> id <> "_tempdir" ->
     input_step cwd inputs tis tmpDir arg id = Ret arg)
  /\ (forall segs,
        wf_template segs = true ->
        (forall id, id ∈ ids_of KInput segs ->
           inputs !! id = None /\ id <> "_tempdir") ->
        (forall id, id ∈ ids_of KFlag segs -> inputs !! id = None) ->
        expand_arg cwd inputs tis tmpDir (render segs)
        = Ret (render (subst KFlag (fun _ => Some "") <$> segs)))
  /\ (forall arg id b,
        inputs !! id = Some b ->
        Forall (fun ti => exists i, ti_id ti = Ret i /\ i <> id)
               (map snd tis) ->
        input_step cwd inputs tis tmpDir arg id
        = Raise (Exception ("No task input found with id = " ++ id))).
Proof.
  split; [|split].
  - intros arg id Hid Hne. unfold input_step. rewrite Hid.
    apply String.eqb_neq in Hne. by rewrite Hne.
  - intros segs Hwf Hin Hfl.
    rewrite (expand_arg_template cwd inputs tis tmpDir segs
               (fun _ => None) (fun _ => "") Hwf).
    + by rewrite subst_none.
    + intros id Hid. destruct (Hin id Hid) as [Hnone Hne].
      unfold input_value. rewrite Hnone.
      apply String.eqb_neq in Hne. by rewrite Hne.
    + intros id v _ [=].
    + intros id Hid. unfold flag_value. by rewrite (Hfl id Hid).
    + done.
  - intros arg id b Hb Hall. unfold input_step, _transform_path.
    rewrite Hb. by rewrite transform_path_no_spec.
Qed.

(** C5 as stated fails. The specification's reading gives each token the
    text of its own input; the code replaces in the whole argument, one id
    after the other, and looks an id up among the inputs first. So a value
    that carries a token is expanded again; literal text with a [$] joins
    with a value into a token; and a bound input named [_tempdir] takes the
    place of the mount root. *)
Lemma C5_counterexample :
  (spec_expand "/" rescan_inputs rescan_task_inputs "/tmp/scratch"
               [Tok KInput "a"; Lit " "; Tok KInput "b"]
   = Some "$input{b} X"
   /\ _expand_args "/" ["$input{a} $input{b}"] rescan_inputs
                   rescan_task_inputs "/tmp/scratch"
      = Ret ["X X"])
  /\ (spec_expand "/" rescan_inputs rescan_task_inputs "/tmp/scratch"
                  [Lit "$fl"; Tok KInput "c"]
      = Some "$flag{b}"
      /\ _expand_args "/" ["$fl$input{c}"] rescan_inputs rescan_task_inputs
                      "/tmp/scratch"
         = Ret ["--b"])
  /\ (spec_expand "/" tempdir_inputs tempdir_task_inputs "/tmp/scratch"
                  [Tok KInput "_tempdir"]
      = Some DATA_VOLUME
      /\ _expand_args "/" ["$input{_tempdir}"] tempdir_inputs
                      tempdir_task_inputs "/tmp/scratch"
         = Ret ["/elsewhere"]).
Proof. vm_compute. repeat split. Qed.

(** C5: for well-formed arguments whose substituted texts are plain, and
    with [_tempdir] not the id of a bound input, [_expand_args] returns the
    arguments of the specification: each [$input{id}] replaced by the
    resolved value of the input, re-rooted under the mount root for a
    filepath target, [$input{_tempdir}] by the mount root, each [$flag{id}]
    by the configured [arg] when the input is bound and truthy and by the
    empty string otherwise; empty results are dropped, so no returned
    argument is empty. For the arguments of the example, with [foo] bound
    to [file.txt] in a scratch directory given by an absolute normalised
    path, the result is the four expected arguments when [bar] is true and
    the first three when it is false. *)
Theorem C5_expand_args cwd inputs tis tmpDir templates outs :
  inputs !! "_tempdir" = None ->
  Forall2 (fun segs out =>
             wf_template segs = true
             /\ spec_expand cwd inputs tis tmpDir segs = Some out
             /\ plain_texts cwd inputs tis tmpDir segs)
          templates outs ->
  _expand_args cwd (render <$> templates) inputs tis tmpDir
  = Ret (drop_empty outs)
  /\ Forall (fun a => a <> "") (drop_empty outs)
  /\ (forall cwd' comps bar,
        comps <> [] -> forallb simple_comp comps = true ->
        _expand_args cwd' example_args
                     (example_inputs (abs_path_of comps) bar)
                     example_task_inputs (abs_path_of comps)
        = Ret (example_result bar))
  /\ example_result true
     = ["-f"; "/mnt/girder_worker/data/file.txt";
        "--dir=/mnt/girder_worker/data"; "--bar"]
  /\ example_result false
     = ["-f"; "/mnt/girder_worker/data/file.txt";
        "--dir=/mnt/girder_worker/data"].
Proof.
  intros Htmp Hall.
  assert (Hrun : _expand_args cwd (render <$> templates) inputs tis tmpDir
                 = Ret (drop_empty outs)).
  { unfold _expand_args. rewrite (expand_loop_ret _ _ _ _ _ outs); [done|].
    induction Hall as [|segs out templates outs (Hwf & Hspec & Hplain) _ IH].
    - constructor.
    - rewrite fmap_cons. constructor; [|exact IH].
      by apply expand_arg_spec. }
  split; [exact Hrun|]. split.
  - apply (expand_loop_nonempty _ _ _ _ _ [] _ Hrun). constructor.
  - split; [|split; reflexivity].
    intros cwd' comps bar. apply example_expansion.
Qed.

Lemma C5_expand_args_witness :
  example_inputs "/tmp/scratch" true !! "_tempdir" = None
  /\ _expand_args "/" (render <$> example_templates)
                  (example_inputs "/tmp/scratch" true) example_task_inputs
                  "/tmp/scratch"
     = Ret (drop_empty ["-f"; DATA_VOLUME ++ "/file.txt";
                        "--dir=" ++ DATA_VOLUME; "--bar"]).
Proof.
  split; [reflexivity|].
  refine (proj1 (C5_expand_args "/" (example_inputs "/tmp/scratch" true)
                   example_task_inputs "/tmp/scratch" example_templates
                   ["-f"; DATA_VOLUME ++ "/file.txt";
                    "--dir=" ++ DATA_VOLUME; "--bar"] eq_refl _)).
  repeat (constructor;
          [split; [reflexivity|split; [reflexivity|plain_texts_by_cases]]|]).
  constructor.
Defined.

(** C10: when input [id] is bound with a truthy value and its task-input
    spec has no [arg], the flag pass replaces every [$flag{id}] of an
    argument by the id itself; an argument made of plain text around one
    such token therefore reaches the container with the bare id in the
    token's place. *)
Theorem C10_flag_without_arg cwd inputs tis tmpDir id b v ti :
  inputs !! id = Some b ->
  script_data b = Some v ->
  truthy v = true ->
  dict_get tis id = Some ti ->
  arg ti = None ->
  (forall a,
     flag_step inputs tis a id
     = Ret (Str.replace ("$flag{" ++ id ++ "}") id a))
  /\ (forall pre post,
        valid_id id = true -> plain pre = true -> plain post = true ->
        _expand_args cwd [pre ++ "$flag{" ++ id ++ "}" ++ post]
                     inputs tis tmpDir
        = Ret [pre ++ id ++ post]).
Proof.
  intros Hb Hsd Htruthy Hti Harg.
  assert (Hval : flag_value inputs tis id = Ret id).
  { unfold flag_value, script_data_of. rewrite Hb, Hsd. cbn [obind].
    by rewrite Htruthy, Hti, Harg. }
  split.
  - intros a. rewrite flag_step_value, Hval. reflexivity.
  - intros pre post Hid Hpre Hpost.
    assert (Hwf : wf_template [Lit pre; Tok KFlag id; Lit post] = true).
    { cbn. by rewrite Hpre, Hid, Hpost. }
    assert (Hrender : pre ++ "$flag{" ++ id ++ "}" ++ post
                      = render [Lit pre; Tok KFlag id; Lit post]).
    { cbn [render render_seg]. unfold token, opener.
      by rewrite append_nil_r, !append_assoc. }
    unfold _expand_args. cbn [expand_loop]. rewrite Hrender.
    rewrite (expand_arg_template cwd inputs tis tmpDir
               [Lit pre; Tok KFlag id; Lit post]
               (fun _ => None) (fun _ => id) Hwf).
    + cbn. rewrite append_nil_r.
      destruct (String.eqb_spec (pre ++ id ++ post) "") as [He|_];
        [|reflexivity].
      apply valid_id_inv in Hid as (Hne & _).
      by apply append_nonempty in He.
    + intros i Hi. by apply elem_of_nil in Hi.
    + intros i w _ [=].
    + intros i Hi. apply list_elem_of_singleton in Hi as ->. exact Hval.
    + intros i Hi. by apply valid_id_inv in Hid as (_ & _ & Hp).
Qed.

Lemma C10_flag_without_arg_witness :
  _expand_args "/" ["--level=$flag{verbose}"]
    {[ "verbose" := mkBinding None None (Some (PBool true)) ]}
    [("verbose", ti_verbose)] "/tmp/scratch"
  = Ret ["--level=verbose"].
Proof.
  exact (proj2 (C10_flag_without_arg "/"
                  {[ "verbose" := mkBinding None None (Some (PBool true)) ]}
                  [("verbose", ti_verbose)] "/tmp/scratch" "verbose"
                  (mkBinding None None (Some (PBool true))) (PBool true)
                  ti_verbose eq_refl eq_refl eq_refl eq_refl eq_refl)
               "--level=" "" eq_refl eq_refl eq_refl).
Defined.

End TemplateFacts.


(** * Further properties of the task model *)
Module TaskMore.
Import Task TaskFacts.

Section DictKeys.
Context {K V : Type} `{EqDecision K}.

Lemma dict_set_keys (d : list (K * V)) k v k' :
  k' ∈ (dict_set d k v).*1 <-> k' = k \/ k' ∈ d.*1.
Proof.
  induction d as [|[k0 v0] d IH]; simpl.
  - rewrite list_elem_of_singleton, elem_of_nil. tauto.
  - destruct (decide (k0 = k)) as [->|Hne]; simpl.
    + rewrite !elem_of_cons. tauto.
    + rewrite !elem_of_cons, IH. tauto.
Qed.

Lemma dict_set_NoDup (d : list (K * V)) k v :
  NoDup d.*1 -> NoDup (dict_set d k v).*1.
Proof.
  induction d as [|[k0 v0] d IH]; simpl; intros Hnd.
  - apply NoDup_singleton.
  - apply NoDup_cons in Hnd as [Hk0 Hnd].
    destruct (decide (k0 = k)) as [->|Hne]; simpl.
    + by apply NoDup_cons.
    + apply NoDup_cons. split; [|by apply IH].
      rewrite dict_set_keys. intros [->|Hin]; [done|by apply Hk0].
Qed.

Lemma dict_get_None (d : list (K * V)) k :
  dict_get d k = None <-> k ∉ d.*1.
Proof.
  induction d as [|[k0 v0] d IH]; simpl.
  - split; [intros _; apply not_elem_of_nil|done].
  - destruct (decide (k0 = k)) as [->|Hne].
    + split; [done|]. intros Hn. exfalso. apply Hn. by left.
    + rewrite IH, not_elem_of_cons. split; [by split|by intros [_ ?]].
Qed.
End DictKeys.

Lemma port_dict_fold ports :
  forall acc : list (string * Port),
    NoDup acc.*1 ->
    NoDup (fold_left (fun o port => dict_set o (name port) port) ports acc).*1
    /\ forall n,
         dict_get (fold_left (fun o port => dict_set o (name port) port)
                             ports acc) n
         = match last (List.filter (fun p => bool_decide (name p = n)) ports)
           with
           | Some p => Some p
           | None => dict_get acc n
           end.
Proof.
  induction ports as [|p ports IH]; intros acc Hnd; [by split|].
  cbn [fold_left]. destruct (IH (dict_set acc (name p) p)) as [Hnd' Hget].
  { by apply dict_set_NoDup. }
  split; [exact Hnd'|]. intros n. rewrite Hget. cbn [List.filter].
  case_bool_decide as Hn.
  - subst n. destruct (List.filter _ ports) as [|q l] eqn:Hf.
    + cbn. apply PipeFacts.dict_get_set_eq.
    + change (last (p :: q :: l)) with (last (q :: l)).
      destruct (last (q :: l)) eqn:Hl; [done|]. by apply last_None in Hl.
  - destruct (last _); [done|]. by apply PipeFacts.dict_get_set_ne.
Qed.

(** The port dictionary has one entry per name, and a name looks up the
    last port spec that carries it: a duplicate name overrides silently. *)
Theorem port_dict_last_wins ports :
  NoDup (_port_dict ports).*1
  /\ (forall n,
        dict_get (_port_dict ports) n
        = last (List.filter (fun p => bool_decide (name p = n)) ports))
  /\ (forall n,
        dict_mem (_port_dict ports) n = true
        <-> exists p, p ∈ ports /\ name p = n).
Proof.
  destruct (port_dict_fold ports []) as [Hnd Hget]; [constructor|].
  assert (Hlast : forall n,
            dict_get (_port_dict ports) n
            = last (List.filter (fun p => bool_decide (name p = n)) ports)).
  { intros n. unfold _port_dict. rewrite Hget. by destruct (last _). }
  split; [exact Hnd|]. split; [exact Hlast|].
  intros n. unfold dict_mem. rewrite Hlast. split.
  - destruct (last _) as [p|] eqn:Hl; [|discriminate]. intros _.
    apply last_Some in Hl as [l' Hl].
    assert (Hin : In p (List.filter (fun p => bool_decide (name p = n)) ports)).
    { rewrite Hl. apply in_or_app. right. by left. }
    apply filter_In in Hin as [Hin Hn]. apply bool_decide_eq_true in Hn.
    exists p. by rewrite list_elem_of_In.
  - intros (p & Hin & Hn).
    assert (Hf : In p (List.filter (fun p => bool_decide (name p = n)) ports)).
    { apply filter_In. rewrite <- list_elem_of_In.
      by rewrite bool_decide_eq_true. }
    destruct (List.filter _ ports) as [|q l]; [done|].
    destruct (last (q :: l)) eqn:Hl; [done|].
    by apply last_None in Hl.
Qed.

Lemma str_nat_inj n m : str_nat n = str_nat m -> n = m.
Proof.
  unfold str_nat. intros H. apply Unsigned.to_uint_inj.
  apply (f_equal NilEmpty.uint_of_string) in H.
  rewrite !NilEmpty.usu in H. by injection H.
Qed.

Lemma kw_of_args_from (arg : list value) :
  forall k (kw : list (string * value)),
    let kw' :=
      fold_left (fun kw ia => dict_set kw (str_nat (fst ia)) (snd ia))
                (imap (fun i a => (k + i, a)) arg) kw in
    (forall i a, arg !! i = Some a ->
       dict_get kw' (str_nat (k + i)) = Some a)
    /\ (forall n, (forall i, i < length arg -> n <> str_nat (k + i)) ->
          dict_get kw' n = dict_get kw n).
Proof.
  induction arg as [|a0 arg IH]; intros k kw; cbn zeta.
  - split; [intros i a Hi; by rewrite lookup_nil in Hi|done].
  - rewrite imap_cons. cbn [fold_left fst snd].
    assert (Hext : imap ((fun i a => (k + i, a)) ∘ S) arg
                   = imap (fun i a => (S k + i, a)) arg).
    { apply imap_ext. intros i x _. cbn. f_equal. lia. }
    rewrite Hext. rewrite Nat.add_0_r.
    destruct (IH (S k) (dict_set kw (str_nat k) a0)) as [Hpos Hkeep].
    split.
    + intros [|i] a Hi.
      * cbn in Hi. injection Hi as <-. rewrite Nat.add_0_r, Hkeep.
        -- apply PipeFacts.dict_get_set_eq.
        -- intros i _ Heq. apply str_nat_inj in Heq. lia.
      * cbn in Hi. replace (k + S i) with (S k + i) by lia. by apply Hpos.
    + intros n Hn. rewrite Hkeep.
      * apply PipeFacts.dict_get_set_ne. intros <-.
        apply (Hn 0); [cbn; lia|]. by rewrite Nat.add_0_r.
      * intros i Hi Heq. apply (Hn (S i)); [cbn; lia|].
        by replace (k + S i) with (S k + i) by lia.
Qed.

(** Positional argument [i] is bound under the name [str(i)], taking the
    place of a keyword argument of that name; every other keyword argument
    keeps its value. *)
Theorem kw_of_args_binding arg kw :
  (forall i a, arg !! i = Some a ->
     dict_get (kw_of_args arg kw) (str_nat i) = Some a)
  /\ (forall n, (forall i, i < length arg -> n <> str_nat i) ->
        dict_get (kw_of_args arg kw) n = dict_get kw n).
Proof. exact (kw_of_args_from arg 0 kw). Qed.

(** When every name is declared [set_input] returns; it writes the private
    slot directly, so neither cache, no port and no handler notification
    changes; the task is dirty afterwards if there was an argument and is
    left as it was if there was none. *)
Theorem set_input_declared arg kw w :
  Forall (fun nv => dict_mem (_inputs (self w)) nv.1 = true)
         (kw_of_args arg kw) ->
  exists w',
    set_input arg kw w = (Ret tt, w')
    /\ trace w' = trace w
    /\ _inputs (self w') = _inputs (self w)
    /\ _outputs (self w') = _outputs (self w)
    /\ _input_data (self w') = _input_data (self w)
    /\ _output_data (self w') = _output_data (self w)
    /\ (kw_of_args arg kw = [] -> w' = w)
    /\ (kw_of_args arg kw <> [] -> dirty (self w') = true).
Proof.
  intros Hall. exists (marked (kw_of_args arg kw) w).
  unfold set_input.
  rewrite <- (app_nil_r (kw_of_args arg kw)) at 1.
  rewrite for_each_declared by exact Hall.
  split; [reflexivity|].
  destruct (kw_of_args arg kw); cbn; repeat split; try done.
Qed.

Lemma set_input_declared_witness :
  exists w',
    set_input [Data (PInt 1)] [] (mkWorld task0 []) = (Ret tt, w')
    /\ trace w' = []
    /\ dirty (self w') = true.
Proof.
  destruct (set_input_declared [Data (PInt 1)] [] (mkWorld task0 []))
    as (w' & Hrun & Htr & _ & _ & _ & _ & _ & Hd).
  - constructor; [reflexivity|constructor].
  - exists w'. split; [exact Hrun|]. split; [exact Htr|].
    apply Hd. discriminate.
Defined.

(** A bind followed by a read runs the task exactly once and leaves it
    clean: after a successful [set_input] with at least one argument,
    [get_output] on a declared name invokes [run] once, returns the cached
    value and clears the dirty flag. *)
Theorem bind_then_get_runs_once fuel arg kw name w :
  1 <= fuel ->
  kw_of_args arg kw <> [] ->
  Forall (fun nv => dict_mem (_inputs (self w)) nv.1 = true)
         (kw_of_args arg kw) ->
  dict_mem (_outputs (self w)) name = true ->
  exists w1 w2,
    set_input arg kw w = (Ret tt, w1)
    /\ get_output fuel name w1 = (Ret (_output_data (self w) !! name), w2)
    /\ count_run (trace w2) = S (count_run (trace w))
    /\ dirty (self w2) = false.
Proof.
  intros Hfuel Hne Hall Hout.
  destruct (set_input_declared arg kw w Hall)
    as (w1 & Hrun & Htr & _ & Houts & _ & Hod & _ & Hd).
  specialize (Hd Hne). destruct fuel as [|n]; [lia|].
  exists w1. eexists. split; [exact Hrun|].
  rewrite get_output_dirty by (by rewrite ?Houts).
  rewrite Hod. split; [reflexivity|]. cbn [trace self].
  rewrite count_run_on_change. unfold count_run. cbn. rewrite Htr.
  split; reflexivity.
Qed.

Lemma bind_then_get_runs_once_witness :
  exists w1 w2,
    set_input [] [("a", Data (PInt 1))] (mkWorld clean_task []) = (Ret tt, w1)
    /\ get_output 1 "out" w1 = (Ret (Some (Data (PInt 7))), w2)
    /\ count_run (trace w2) = 1
    /\ dirty (self w2) = false.
Proof.
  apply (bind_then_get_runs_once 1 [] [("a", Data (PInt 1))] "out"
           (mkWorld clean_task [])).
  - lia.
  - discriminate.
  - constructor; [reflexivity|constructor].
  - reflexivity.
Defined.

(** A task is born dirty with empty caches: every input reads as [None],
    and the first read of a declared output runs the task once, finds
    nothing cached and leaves the task clean. *)
Theorem fresh_task_is_dirty inputs outputs :
  dirty (__init__ inputs outputs) = true
  /\ (forall n, get_input n (__init__ inputs outputs) = None)
  /\ (forall fuel name,
        1 <= fuel ->
        dict_mem (_port_dict outputs) name = true ->
        exists w',
          get_output fuel name (mkWorld (__init__ inputs outputs) [])
          = (Ret None, w')
          /\ count_run (trace w') = 1
          /\ dirty (self w') = false).
Proof.
  split; [reflexivity|]. split; [intros n; apply lookup_empty|].
  intros fuel name Hfuel Hout. destruct fuel as [|n]; [lia|].
  assert (He : _output_data (self (mkWorld (__init__ inputs outputs) []))
               !! name = None) by apply lookup_empty.
  eexists. rewrite get_output_dirty by done. rewrite He.
  split; [reflexivity|]. split; reflexivity.
Qed.

(** [get_output] never touches the ports or the caches and never runs out
    of fuel; on a declared name it leaves the task clean, on an undeclared
    one it leaves the task as it was. *)
Theorem get_output_frame fuel name w :
  1 <= fuel ->
  let r := get_output fuel name w in
  r.1 <> OutOfFuel
  /\ _inputs (self r.2) = _inputs (self w)
  /\ _outputs (self r.2) = _outputs (self w)
  /\ _input_data (self r.2) = _input_data (self w)
  /\ _output_data (self r.2) = _output_data (self w)
  /\ (dict_mem (_outputs (self w)) name = true -> dirty (self r.2) = false)
  /\ (dict_mem (_outputs (self w)) name = false -> r.2 = w).
Proof.
  intros Hfuel. destruct fuel as [|n]; [lia|]. cbv zeta.
  destruct (dict_mem (_outputs (self w)) name) eqn:Hout.
  - destruct (dirty (self w)) eqn:Hd.
    + rewrite get_output_dirty by done. cbn. repeat split; done.
    + rewrite get_output_clean by done. cbn. repeat split; done.
  - rewrite get_output_undeclared by done. cbn. repeat split; done.
Qed.

Lemma get_output_frame_witness :
  (get_output 1 "out" (mkWorld clean_task [])).1 <> OutOfFuel
  /\ _output_data (self (get_output 1 "out" (mkWorld clean_task [])).2)
     = _output_data clean_task.
Proof.
  pose proof (get_output_frame 1 "out" (mkWorld clean_task []) (le_n 1))
    as (H1 & _ & _ & _ & H2 & _).
  split; [exact H1|exact H2].
Defined.

End TaskMore.


(** * Further properties of argument expansion *)
Module ExpandMore.
Import Docker StrFacts TemplateFacts.

Lemma lacks_slash_not_abs c :
  lacks "/"%char c = true -> PosixPath.isabs c = false.
Proof.
  destruct c as [|x c]; [done|]. simpl. intros H.
  apply andb_true_iff in H as [Hx _]. apply negb_true_iff in Hx.
  unfold PosixPath.isabs, Str.startswith. change "/" with (String "/"%char "").
  apply prefix_cons_ne. intros <-. discriminate.
Qed.

Lemma split_slash_lacks s :
  Forall (fun c => lacks "/"%char c = true) (Str.split_slash s).
Proof.
  induction s as [|x s IH]; [by repeat constructor|].
  cbn [Str.split_slash]. destruct (Ascii.eqb x "/"%char) eqn:Hx.
  - by constructor.
  - destruct (Str.split_slash s) as [|h t].
    + constructor; [|constructor]. simpl. by rewrite Hx.
    + apply Forall_cons in IH as [Hh Ht]. constructor; [|done].
      simpl. by rewrite Hx, Hh.
Qed.

Lemma join_not_abs a b :
  PosixPath.isabs a = false ->
  PosixPath.isabs b = false ->
  PosixPath.isabs (PosixPath.join a b) = false.
Proof.
  unfold PosixPath.isabs, PosixPath.join, Str.startswith. intros Ha Hb.
  rewrite Hb. destruct a as [|x a]; [exact Hb|].
  change "/" with (String "/"%char "") in *.
  destruct (ascii_dec "/"%char x) as [<-|Hne].
  - by rewrite prefix_cons_eq, prefix_empty in Ha.
  - destruct (_ || _); by apply prefix_cons_ne.
Qed.

Lemma fold_join_not_abs p :
  forall a,
    PosixPath.isabs a = false ->
    Forall (fun c => PosixPath.isabs c = false) p ->
    PosixPath.isabs (fold_left PosixPath.join p a) = false.
Proof.
  induction p as [|b p IH]; intros a Ha Hp; [done|].
  apply Forall_cons in Hp as [Hb Hp]. cbn [fold_left].
  apply IH; [by apply join_not_abs|done].
Qed.

(** [os.path.relpath] never returns an absolute path. *)
Lemma relpath_not_abs cwd path start :
  PosixPath.isabs (PosixPath.relpath cwd path start) = false.
Proof.
  unfold PosixPath.relpath. cbv zeta.
  set (sl := PosixPath.nonempty_comps (PosixPath.abspath cwd start)).
  set (pl := PosixPath.nonempty_comps (PosixPath.abspath cwd path)).
  assert (Hall : Forall (fun c => PosixPath.isabs c = false)
                   (repeat ".." (length sl - PosixPath.common_len sl pl)
                    ++ List.skipn (PosixPath.common_len sl pl) pl)).
  { apply Forall_app. split.
    - apply Forall_forall. intros c Hc. apply list_elem_of_In in Hc.
      by apply repeat_spec in Hc as ->.
    - apply Forall_drop. unfold pl, PosixPath.nonempty_comps.
      apply Forall_forall. intros c Hc.
      apply list_elem_of_In, filter_In in Hc as [Hc _].
      apply lacks_slash_not_abs.
      pose proof (split_slash_lacks (PosixPath.abspath cwd path)) as Hl.
      rewrite Forall_forall in Hl. apply Hl. by apply list_elem_of_In. }
  destruct (_ ++ _)%list as [|a p]; [done|].
  apply Forall_cons in Hall as [Ha Hp]. by apply fold_join_not_abs.
Qed.

(** Whenever [_transform_path] returns for an input whose task-input spec
    is a filepath target, the result is a string that extends the mount
    root; for any other input it is the bound value as it is. *)
Theorem transform_path_under_mount_root cwd inputs tis id tmpDir ti v :
  spec_for (map snd tis) id = Some ti ->
  _transform_path cwd inputs tis id tmpDir = Ret v ->
  (is_filepath ti = true ->
   exists p, v = PStr p /\ under_mount_root p = true)
  /\ (is_filepath ti = false ->
      exists b, inputs !! id = Some b /\ script_data b = Some v).
Proof.
  intros Hti. unfold _transform_path.
  rewrite (transform_path_spec_for _ _ _ _ _ ti Hti).
  unfold script_data_of.
  destruct (inputs !! id) as [b|] eqn:Hb;
    [|destruct (is_filepath ti); discriminate].
  destruct (script_data b) as [sd|] eqn:Hsd;
    [|destruct (is_filepath ti); discriminate].
  destruct (is_filepath ti); cbn [obind]; intros Hv.
  - split; [intros _|discriminate].
    unfold os_path_relpath in Hv.
    destruct (negb (truthy sd)); [discriminate|].
    destruct sd as [| | |p]; try discriminate. cbn [obind] in Hv.
    injection Hv as <-. eexists. split; [reflexivity|].
    pose proof (relpath_not_abs cwd p tmpDir) as Hrel.
    unfold PosixPath.isabs, Str.startswith in Hrel.
    unfold under_mount_root, PosixPath.join, Str.startswith. rewrite Hrel.
    change (String.eqb DATA_VOLUME "" || Str.ends_with_slash DATA_VOLUME)
      with false. cbv iota.
    rewrite <- append_assoc. apply prefix_append.
  - split; [discriminate|intros _]. injection Hv as <-. by exists b.
Qed.

Lemma transform_path_under_mount_root_witness :
  exists p,
    _transform_path "/" (example_inputs "/tmp/scratch" true)
                    example_task_inputs "foo" "/tmp/scratch" = Ret (PStr p)
    /\ under_mount_root p = true.
Proof.
  destruct (transform_path_under_mount_root "/"
              (example_inputs "/tmp/scratch" true) example_task_inputs
              "foo" "/tmp/scratch" ti_foo
              (PStr (DATA_VOLUME ++ "/file.txt")) eq_refl eq_refl)
    as [H _].
  destruct (H eq_refl) as (p & Hp & Hu). exists p.
  split; [by rewrite <- Hp|exact Hu].
Defined.

(** A filepath input whose bound value is falsy (an empty path, [None])
    makes [_transform_path] raise [ValueError]; a bound input without
    [script_data] makes it raise [KeyError], whatever its target. *)
Theorem transform_path_bad_value cwd inputs tis id tmpDir ti b :
  spec_for (map snd tis) id = Some ti ->
  inputs !! id = Some b ->
  (forall v, script_data b = Some v -> is_filepath ti = true ->
     truthy v = false ->
     _transform_path cwd inputs tis id tmpDir
     = Raise (ValueError "no path specified"))
  /\ (script_data b = None ->
      _transform_path cwd inputs tis id tmpDir
      = Raise (KeyError "script_data")).
Proof.
  intros Hti Hb. unfold _transform_path.
  rewrite (transform_path_spec_for _ _ _ _ _ ti Hti).
  unfold script_data_of. rewrite Hb. split.
  - intros v Hv Hfp Hfalsy. rewrite Hv, Hfp. cbn [obind].
    unfold os_path_relpath. by rewrite Hfalsy.
  - intros Hv. rewrite Hv. by destruct (is_filepath ti).
Qed.

Lemma transform_path_bad_value_witness :
  _transform_path "/" {[ "foo" := mkBinding None None (Some (PStr "")) ]}
                  example_task_inputs "foo" "/tmp/scratch"
  = Raise (ValueError "no path specified").
Proof.
  exact (proj1 (transform_path_bad_value "/"
                  {[ "foo" := mkBinding None None (Some (PStr "")) ]}
                  example_task_inputs "foo" "/tmp/scratch" ti_foo
                  (mkBinding None None (Some (PStr ""))) eq_refl eq_refl)
               (PStr "") eq_refl eq_refl eq_refl).
Defined.

Lemma expand_loop_length cwd inputs tis tmpDir args :
  forall newArgs out,
    expand_loop cwd inputs tis tmpDir args newArgs = Ret out ->
    length out <= length newArgs + length args.
Proof.
  induction args as [|a args IH]; intros newArgs out H.
  - cbn in H. injection H as <-. lia.
  - cbn [expand_loop] in H.
    destruct (expand_arg cwd inputs tis tmpDir a) as [o|e|];
      [|discriminate|discriminate].
    cbn [obind] in H. apply IH in H. cbn [length].
    destruct (String.eqb o ""); [lia|]. rewrite length_app in H. cbn in H.
    lia.
Qed.

(** Whatever the templates and the inputs, a list returned by
    [_expand_args] holds no empty argument and is no longer than the list
    of templates. *)
Theorem expand_args_no_empty cwd args inputs tis tmpDir out :
  _expand_args cwd args inputs tis tmpDir = Ret out ->
  Forall (fun a => a <> "") out /\ length out <= length args.
Proof.
  unfold _expand_args. intros H. split.
  - apply (expand_loop_nonempty _ _ _ _ _ [] _ H). constructor.
  - by apply expand_loop_length in H.
Qed.

Lemma expand_args_no_empty_witness :
  Forall (fun a => a <> "") ["-f"] /\ length ["-f"] <= length ["-f"; ""].
Proof.
  exact (expand_args_no_empty "/" ["-f"; ""] ∅ [] "/tmp/scratch" ["-f"]
           eq_refl).
Defined.

Lemma expand_arg_plain cwd inputs tis tmpDir a :
  plain a = true -> expand_arg cwd inputs tis tmpDir a = Ret a.
Proof.
  intros Ha.
  pose proof (expand_arg_template cwd inputs tis tmpDir [Lit a]
                (fun _ => None) (fun _ => "")) as H.
  cbn in H. rewrite !append_nil_r in H. apply H.
  - by rewrite Ha.
  - intros id Hid. by apply elem_of_nil in Hid.
  - intros id v _ [=].
  - intros id Hid. by apply elem_of_nil in Hid.
  - done.
Qed.

(** Arguments without a [$] pass through unchanged, whatever the inputs:
    only the empty ones are dropped. *)
Theorem expand_args_plain cwd args inputs tis tmpDir :
  Forall (fun a => plain a = true) args ->
  _expand_args cwd args inputs tis tmpDir = Ret (drop_empty args).
Proof.
  intros Hall. unfold _expand_args.
  rewrite (expand_loop_ret _ _ _ _ _ args); [done|].
  apply Forall_Forall2_diag. eapply Forall_impl; [exact Hall|].
  intros a Ha. by apply expand_arg_plain.
Qed.

Lemma expand_args_plain_witness :
  _expand_args "/" ["run"; ""; "--fast"] ∅ [] "/tmp/scratch"
  = Ret ["run"; "--fast"].
Proof.
  apply (expand_args_plain "/" ["run"; ""; "--fast"] ∅ [] "/tmp/scratch").
  repeat constructor.
Defined.

Lemma token_as_render k id : token k id = render [Tok k id].
Proof. cbn. by rewrite append_nil_r. Qed.

(** A bound input named [_tempdir] takes precedence over the mount root:
    [$input{_tempdir}] then expands to the value of that input. *)
Theorem expand_args_tempdir_bound cwd inputs tis tmpDir b v ti :
  inputs !! "_tempdir" = Some b ->
  script_data b = Some v ->
  spec_for (map snd tis) "_tempdir" = Some ti ->
  is_filepath ti = false ->
  plain (py_str v) = true ->
  _expand_args cwd ["$input{_tempdir}"] inputs tis tmpDir
  = Ret (drop_empty [py_str v]).
Proof.
  intros Hb Hv Hti Hfp Hplain. unfold _expand_args.
  rewrite (expand_loop_ret _ _ _ _ _ [py_str v]); [done|].
  constructor; [|constructor].
  change "$input{_tempdir}" with (token KInput "_tempdir").
  rewrite token_as_render.
  rewrite (expand_arg_template cwd inputs tis tmpDir [Tok KInput "_tempdir"]
             (fun _ => Some (py_str v)) (fun _ => "") eq_refl).
  - cbn. by rewrite append_nil_r.
  - intros id Hid. apply list_elem_of_singleton in Hid as ->.
    unfold input_value, _transform_path. rewrite Hb.
    rewrite (transform_path_spec_for _ _ _ _ _ ti Hti), Hfp.
    unfold script_data_of. by rewrite Hb, Hv.
  - intros id w _ [= <-]. exact Hplain.
  - intros id Hid. by apply elem_of_nil in Hid.
  - done.
Qed.

Lemma expand_args_tempdir_bound_witness :
  _expand_args "/" ["$input{_tempdir}"]
    {[ "_tempdir" := mkBinding None None (Some (PStr "/elsewhere")) ]}
    [("_tempdir", mkPortSpec (Some "_tempdir") None None false None None)]
    "/tmp/scratch"
  = Ret ["/elsewhere"].
Proof.
  exact (expand_args_tempdir_bound "/"
           {[ "_tempdir" := mkBinding None None (Some (PStr "/elsewhere")) ]}
           [("_tempdir", mkPortSpec (Some "_tempdir") None None false None
                                    None)]
           "/tmp/scratch" (mkBinding None None (Some (PStr "/elsewhere")))
           (PStr "/elsewhere")
           (mkPortSpec (Some "_tempdir") None None false None None)
           eq_refl eq_refl eq_refl eq_refl eq_refl).
Defined.

Lemma flag_template_render pre id post :
  pre ++ "$flag{" ++ id ++ "}" ++ post
  = render [Lit pre; Tok KFlag id; Lit post].
Proof.
  cbn [render render_seg]. unfold token, opener.
  by rewrite append_nil_r, !append_assoc.
Qed.

(** A flag on an input that is bound and truthy looks its spec up by key:
    when no task input is keyed by the id, the expansion raises
    [KeyError]. *)
Theorem expand_args_flag_without_spec cwd inputs tis tmpDir id b v pre post :
  inputs !! id = Some b ->
  script_data b = Some v ->
  truthy v = true ->
  dict_get tis id = None ->
  valid_id id = true -> plain pre = true -> plain post = true ->
  _expand_args cwd [pre ++ "$flag{" ++ id ++ "}" ++ post] inputs tis tmpDir
  = Raise (KeyError id).
Proof.
  intros Hb Hv Ht Htis Hid Hpre Hpost.
  assert (Hwf : wf_template [Lit pre; Tok KFlag id; Lit post] = true).
  { cbn. by rewrite Hpre, Hid, Hpost. }
  unfold _expand_args. cbn [expand_loop]. rewrite flag_template_render.
  unfold expand_arg.
  change (Str.findall "$input{" (render [Lit pre; Tok KFlag id; Lit post]))
    with (Str.findall (opener KInput)
                      (render [Lit pre; Tok KFlag id; Lit post])).
  rewrite (findall_render KInput _ Hwf). cbn [ids_of kind_eqb steps obind].
  change (Str.findall "$flag{" (render [Lit pre; Tok KFlag id; Lit post]))
    with (Str.findall (opener KFlag)
                      (render [Lit pre; Tok KFlag id; Lit post])).
  rewrite (findall_render KFlag _ Hwf). cbn [ids_of kind_eqb steps].
  unfold flag_step, script_data_of. rewrite Hb, Hv. cbn [obind].
  by rewrite Ht, Htis.
Qed.

Lemma expand_args_flag_without_spec_witness :
  _expand_args "/" ["$flag{v}"]
    {[ "v" := mkBinding None None (Some (PBool true)) ]} [] "/tmp/scratch"
  = Raise (KeyError "v").
Proof.
  exact (expand_args_flag_without_spec "/"
           {[ "v" := mkBinding None None (Some (PBool true)) ]} []
           "/tmp/scratch" "v" (mkBinding None None (Some (PBool true)))
           (PBool true) "" "" eq_refl eq_refl eq_refl eq_refl eq_refl
           eq_refl eq_refl).
Defined.

(** The two passes run one after the other on the same text: a flag token
    brought in by the value of an input is expanded by the flag pass. *)
Theorem expand_args_value_rescanned
    cwd inputs tis tmpDir id b ti id2 b2 v2 ti2 a :
  inputs !! id = Some b ->
  script_data b = Some (PStr ("$flag{" ++ id2 ++ "}")) ->
  spec_for (map snd tis) id = Some ti ->
  is_filepath ti = false ->
  inputs !! id2 = Some b2 ->
  script_data b2 = Some v2 ->
  truthy v2 = true ->
  dict_get tis id2 = Some ti2 ->
  arg ti2 = Some a ->
  valid_id id = true -> valid_id id2 = true ->
  _expand_args cwd ["$input{" ++ id ++ "}"] inputs tis tmpDir
  = Ret (drop_empty [a]).
Proof.
  intros Hb Hv Hti Hfp Hb2 Hv2 Ht2 Hti2 Ha Hid Hid2. unfold _expand_args.
  rewrite (expand_loop_ret _ _ _ _ _ [a]); [done|].
  constructor; [|constructor].
  change ("$input{" ++ id ++ "}") with (token KInput id).
  rewrite (token_as_render KInput id). unfold expand_arg.
  change (Str.findall "$input{" (render [Tok KInput id]))
    with (Str.findall (opener KInput) (render [Tok KInput id])).
  rewrite (findall_render KInput [Tok KInput id])
    by (cbn; by rewrite Hid).
  cbn [ids_of kind_eqb steps]. unfold input_step, _transform_path.
  rewrite Hb, (transform_path_spec_for _ _ _ _ _ ti Hti), Hfp.
  unfold script_data_of. rewrite Hb, Hv. cbn [obind py_str].
  change ("$input{" ++ id ++ "}") with (token KInput id).
  rewrite (replace_render KInput id _ [Tok KInput id] Hid)
    by (cbn; by rewrite Hid).
  cbn [fmap list_fmap sub1 kind_eqb andb]. rewrite String.eqb_refl.
  change (render [Lit ("$flag{" ++ id2 ++ "}")])
    with (render [Tok KFlag id2]).
  change (Str.findall "$flag{" (render [Tok KFlag id2]))
    with (Str.findall (opener KFlag) (render [Tok KFlag id2])).
  rewrite (findall_render KFlag [Tok KFlag id2])
    by (cbn; by rewrite Hid2).
  cbn [ids_of kind_eqb steps]. unfold flag_step, script_data_of.
  rewrite Hb2, Hv2. cbn [obind]. rewrite Ht2, Hti2, Ha. cbn [default obind].
  change ("$flag{" ++ id2 ++ "}") with (token KFlag id2).
  rewrite (replace_render KFlag id2 _ [Tok KFlag id2] Hid2)
    by (cbn; by rewrite Hid2).
  cbn [fmap list_fmap sub1 kind_eqb andb]. rewrite String.eqb_refl.
  cbn. by rewrite append_nil_r.
Qed.

Lemma expand_args_value_rescanned_witness :
  _expand_args "/" ["$input{foo}"]
    (<["foo" := mkBinding None None (Some (PStr "$flag{bar}"))]>
       (<["bar" := mkBinding None None (Some (PBool true))]> ∅))
    [("foo", mkPortSpec (Some "foo") None None false None None);
     ("bar", ti_bar)] "/tmp/scratch"
  = Ret ["--bar"].
Proof.
  exact (expand_args_value_rescanned "/"
           (<["foo" := mkBinding None None (Some (PStr "$flag{bar}"))]>
              (<["bar" := mkBinding None None (Some (PBool true))]> ∅))
           [("foo", mkPortSpec (Some "foo") None None false None None);
            ("bar", ti_bar)] "/tmp/scratch"
           "foo" (mkBinding None None (Some (PStr "$flag{bar}")))
           (mkPortSpec (Some "foo") None None false None None)
           "bar" (mkBinding None None (Some (PBool true))) (PBool true)
           ti_bar "--bar"
           eq_refl eq_refl eq_refl eq_refl eq_refl eq_refl eq_refl eq_refl
           eq_refl eq_refl eq_refl).
Defined.

End ExpandMore.


(** * Further properties of validation, pipes and collection *)
Module ExecutorMore.
Import Docker StrFacts OutputFacts PipeFacts.

(** Whether [validate_task_outputs] accepts does not depend on the order in
    which the outputs are iterated. *)
Theorem validate_order_independent outs outs' :
  Permutation outs outs' ->
  validate_task_outputs outs = Ret tt
  <-> validate_task_outputs outs' = Ret tt.
Proof.
  intros Hperm. rewrite !validate_returns. by rewrite Hperm.
Qed.

Lemma validate_order_independent_witness :
  validate_task_outputs [("_stderr", out_stderr); ("out", out_ok)] = Ret tt
  <-> validate_task_outputs [("out", out_ok); ("_stderr", out_stderr)]
      = Ret tt.
Proof.
  apply (validate_order_independent
           [("_stderr", out_stderr); ("out", out_ok)]
           [("out", out_ok); ("_stderr", out_stderr)]).
  apply perm_swap.
Defined.

(** When [validate_task_outputs] raises, the error is that of the first
    rejected output in iteration order: the path message for a filepath
    target, the output-kind message otherwise. *)
Theorem validate_first_rejected outs e :
  validate_task_outputs outs = Raise e ->
  exists pre name spec post,
    outs = (pre ++ (name, spec) :: post)%list
    /\ Forall (fun ns => rejects ns.1 ns.2 = false) pre
    /\ rejects name spec = true
    /\ e = TaskSpecValidationError
             (if is_filepath spec then msg_bad_path else msg_bad_output).
Proof.
  induction outs as [|[name spec] rest IH]; [discriminate|].
  rewrite validate_cons. destruct (rejects name spec) eqn:Hr.
  - intros [= <-]. exists [], name, spec, rest. by repeat split.
  - intros H. destruct (IH H) as (pre & n & s & post & -> & Hpre & Hn & He).
    exists ((name, spec) :: pre), n, s, post.
    split; [reflexivity|]. split; [by constructor|]. by split.
Qed.

Lemma validate_first_rejected_witness :
  exists pre name spec post,
    [("_stderr", out_stderr); ("out", out_passwd)]
    = (pre ++ (name, spec) :: post)%list
    /\ Forall (fun ns => rejects ns.1 ns.2 = false) pre
    /\ rejects name spec = true
    /\ TaskSpecValidationError msg_bad_path
       = TaskSpecValidationError
           (if is_filepath spec then msg_bad_path else msg_bad_output).
Proof.
  exact (validate_first_rejected
           [("_stderr", out_stderr); ("out", out_passwd)]
           (TaskSpecValidationError msg_bad_path) eq_refl).
Defined.

(** *** Pipes *)

Lemma make_pipe_not_streaming tempdir id spec bindings h :
  streaming bindings (id, spec) = false ->
  make_pipe tempdir id spec bindings h = (Ret None, h).
Proof.
  intros Hs.
  destruct (make_pipe_cases tempdir id spec bindings h)
    as [[_ H]|[(Hs' & _)|(Hs' & _)]]; [done|congruence|congruence].
Qed.

Lemma input_pipes_not_streaming tempdir inputs ti :
  Forall (fun ns => streaming inputs ns = false) ti ->
  forall ip h, input_pipes tempdir ti inputs ip h = (Ret ip, h).
Proof.
  induction 1 as [|[id spec] rest Hs _ IH]; intros ip h; [done|].
  cbn [input_pipes]. unfold bind at 1.
  rewrite make_pipe_not_streaming by done. apply IH.
Qed.

Lemma output_pipes_not_streaming tempdir outputs to :
  Forall (fun ns => streaming outputs ns = false) to ->
  forall op h, output_pipes tempdir to outputs op h = (Ret op, h).
Proof.
  induction 1 as [|[id spec] rest Hs _ IH]; intros op h; [done|].
  cbn [output_pipes]. unfold bind at 1.
  rewrite make_pipe_not_streaming by done. apply IH.
Qed.

(** When no declared port qualifies for a FIFO, [_setup_pipes] leaves the
    host untouched: no FIFO, no open descriptor; what it returns is decided
    by the standard-stream special cases alone. *)
Theorem setup_pipes_without_streams ti inputs to outputs tempdir h :
  Forall (fun ns => streaming inputs ns = false) ti ->
  Forall (fun ns => streaming outputs ns = false) to ->
  _setup_pipes ti inputs to outputs tempdir h
  = (match stdin_pipe ti to inputs [] with
     | Ret ipipes =>
         Ret (ipipes,
              fold_left (std_output_pipe to outputs) ["_stdout"; "_stderr"]
                        [])
     | Raise e => Raise e
     | OutOfFuel => OutOfFuel
     end, h).
Proof.
  intros Hti Hto. unfold _setup_pipes, bind.
  rewrite input_pipes_not_streaming, output_pipes_not_streaming by done.
  unfold lift. by destruct (stdin_pipe ti to inputs []).
Qed.

Lemma setup_pipes_without_streams_witness :
  _setup_pipes [] ∅ [("_stderr", out_stderr)]
               {[ "_stderr" := dummy_binding ]} "/tmp/scratch" empty_host
  = (Ret ([], [(KStr "_stderr",
                AccumulateDictAdapter dummy_binding "script_data")]),
     empty_host).
Proof.
  etrans.
  - apply (setup_pipes_without_streams [] ∅ [("_stderr", out_stderr)]
             {[ "_stderr" := dummy_binding ]} "/tmp/scratch" empty_host).
    + constructor.
    + constructor; [reflexivity|constructor].
  - reflexivity.
Defined.

(** A bound, non-streaming [_stdin] is served from [inputs[id]] where [id]
    is what the loop variable was left at: the last declared output, or
    the last declared input when no output is declared. When the call
    succeeds, the memory adapter holds the binding and the data of that
    port; when that port has no entry in [inputs], the call cannot
    succeed. *)
Theorem setup_pipes_stdin_uses_last_id
    ti inputs to outputs tempdir h spec b0 :
  dict_get ti "_stdin" = Some spec ->
  stream spec = false ->
  inputs !! "_stdin" = Some b0 ->
  (forall ipipes opipes h',
     _setup_pipes ti inputs to outputs tempdir h
     = (Ret (ipipes, opipes), h') ->
     exists k b d,
       id_after_loops ti to = Some k
       /\ inputs !! k = Some b
       /\ data b = Some d
       /\ dict_get ipipes (KStr "_stdin") = Some (MemoryFetchAdapter b d))
  /\ (forall k,
        id_after_loops ti to = Some k ->
        inputs !! k = None ->
        forall r, (_setup_pipes ti inputs to outputs tempdir h).1 <> Ret r).
Proof.
  intros Hspec Hstream Hb0.
  assert (Hstdin : forall ip,
            stdin_pipe ti to inputs ip =
            match id_after_loops ti to with
            | None => Raise (UnboundLocalError "id")
            | Some id =>
                let! b := binding_of inputs id in
                match data b with
                | None => Raise (KeyError "data")
                | Some d =>
                    Ret (dict_set ip (KStr "_stdin") (MemoryFetchAdapter b d))
                end
            end).
  { intros ip. unfold stdin_pipe. by rewrite Hspec, Hb0, Hstream. }
  split.
  - intros ipipes opipes h'. unfold _setup_pipes, bind, lift.
    destruct (input_pipes tempdir ti inputs [] h) as [[ip|e|] h1];
      [|discriminate|discriminate].
    destruct (output_pipes tempdir to outputs [] h1) as [[op|e|] h2];
      [|discriminate|discriminate].
    rewrite Hstdin.
    destruct (id_after_loops ti to) as [k|]; [|discriminate].
    unfold binding_of. destruct (inputs !! k) as [b|] eqn:Hb; [|discriminate].
    cbn [obind]. destruct (data b) as [d|] eqn:Hd; [|discriminate].
    intros [= <- _ _]. exists k, b, d.
    split; [done|]. split; [done|]. split; [done|].
    apply dict_get_set_eq.
  - intros k Hk Hnone r. unfold _setup_pipes, bind, lift.
    destruct (input_pipes tempdir ti inputs [] h) as [[ip|e|] h1];
      [|discriminate|discriminate].
    destruct (output_pipes tempdir to outputs [] h1) as [[op|e|] h2];
      [|discriminate|discriminate].
    rewrite Hstdin, Hk. unfold binding_of. rewrite Hnone. discriminate.
Qed.

Lemma setup_pipes_stdin_uses_last_id_witness :
  (_setup_pipes
     [("_stdin", mkPortSpec (Some "_stdin") None None false None None)]
     {[ "_stdin" := mkBinding None (Some (PStr "hello")) None ]}
     [("_stderr", out_stderr)] {[ "_stderr" := dummy_binding ]}
     "/tmp/scratch" empty_host).1
  <> Ret ([(KStr "_stdin",
            MemoryFetchAdapter
              (mkBinding None (Some (PStr "hello")) None) (PStr "hello"))],
          [(KStr "_stderr",
            AccumulateDictAdapter dummy_binding "script_data")]).
Proof.
  exact (proj2 (setup_pipes_stdin_uses_last_id
                  [("_stdin",
                    mkPortSpec (Some "_stdin") None None false None None)]
                  {[ "_stdin" := mkBinding None (Some (PStr "hello")) None ]}
                  [("_stderr", out_stderr)] {[ "_stderr" := dummy_binding ]}
                  "/tmp/scratch" empty_host
                  (mkPortSpec (Some "_stdin") None None false None None)
                  (mkBinding None (Some (PStr "hello")) None)
                  eq_refl eq_refl eq_refl)
               "_stderr" eq_refl eq_refl
               ([(KStr "_stdin",
                  MemoryFetchAdapter
                    (mkBinding None (Some (PStr "hello")) None)
                    (PStr "hello"))],
                [(KStr "_stderr",
                  AccumulateDictAdapter dummy_binding "script_data")])).
Defined.

Lemma std_output_pipe_str to outputs op id k :
  dict_get (std_output_pipe to outputs op id) (KStr k)
  = if String.eqb id k then
      match dict_get to id, outputs !! id with
      | Some spec, Some b =>
          Some (if stream spec then make_stream_push_adapter b
                else AccumulateDictAdapter b "script_data")
      | _, _ => dict_get op (KStr k)
      end
    else dict_get op (KStr k).
Proof.
  unfold std_output_pipe. destruct (String.eqb_spec id k) as [->|Hne].
  - destruct (dict_get to k); [|done]. destruct (outputs !! k); [|done].
    destruct (stream _); apply dict_get_set_eq.
  - destruct (dict_get to id); [|done]. destruct (outputs !! id); [|done].
    destruct (stream _); apply dict_get_set_ne; congruence.
Qed.

(** On success the captured standard streams are registered under their
    names: a declared and bound [_stdout] or [_stderr] gets a push adapter
    when it streams and an accumulating adapter on [script_data] when it
    does not; one that is not both declared and bound gets no entry. *)
Theorem setup_pipes_std_outputs ti inputs to outputs tempdir h
    ipipes opipes h' id :
  _setup_pipes ti inputs to outputs tempdir h = (Ret (ipipes, opipes), h') ->
  id = "_stdout" \/ id = "_stderr" ->
  dict_get opipes (KStr id)
  = match dict_get to id, outputs !! id with
    | Some spec, Some b =>
        Some (if stream spec then make_stream_push_adapter b
              else AccumulateDictAdapter b "script_data")
    | _, _ => None
    end.
Proof.
  unfold _setup_pipes, bind, lift.
  destruct (input_pipes tempdir ti inputs [] h) as [[ip|e|] h1];
    [|discriminate|discriminate].
  pose proof (output_pipes_inv tempdir outputs to [] h1) as Ho.
  destruct (output_pipes tempdir to outputs [] h1) as [[op|e|] h2];
    [|discriminate|discriminate].
  destruct Ho as (_ & _ & _ & Hkeep).
  assert (Hnone : forall k, dict_get op (KStr k) = None).
  { intros k. rewrite Hkeep; [done|]. intros fd _. discriminate. }
  destruct (stdin_pipe ti to inputs ip) as [ip2|e|];
    [|discriminate|discriminate].
  intros [= _ <- _] Hid. cbn [fold_left].
  rewrite !std_output_pipe_str, Hnone.
  destruct Hid as [->| ->]; cbn [String.eqb Ascii.eqb Bool.eqb];
    repeat match goal with
           | |- context [match ?x with Some _ => _ | None => _ end] =>
               destruct x
           end; reflexivity.
Qed.

Lemma setup_pipes_std_outputs_witness :
  dict_get [(KStr "_stderr",
             AccumulateDictAdapter dummy_binding "script_data")]
           (KStr "_stderr")
  = match dict_get [("_stderr", out_stderr)] "_stderr",
          ({[ "_stderr" := dummy_binding ]} : gmap string Binding)
            !! "_stderr" with
    | Some spec, Some b =>
        Some (if stream spec then make_stream_push_adapter b
              else AccumulateDictAdapter b "script_data")
    | _, _ => None
    end.
Proof.
  exact (setup_pipes_std_outputs [] ∅ [("_stderr", out_stderr)]
           {[ "_stderr" := dummy_binding ]} "/tmp/scratch" empty_host
           [] [(KStr "_stderr",
                AccumulateDictAdapter dummy_binding "script_data")]
           empty_host "_stderr" eq_refl (or_intror eq_refl)).
Defined.

(** *** Collection *)

(** The loop of [run] records as it goes: when it stops at a missing
    output, the binding of every collected output iterated before it
    already has its host path as [script_data], with its [mode] and [data]
    as before. *)
Theorem collect_outputs_partial ex tempdir
    (pre : list (string * PortSpec)) name spec post
    (o : gmap string Binding) :
  NoDup ((pre ++ (name, spec) :: post)%list).*1 ->
  (forall n s, (n, s) ∈ pre -> is_Some (o !! n)) ->
  (forall n s, (n, s) ∈ pre -> collected s = true ->
     ex (collect_path tempdir n s) = true) ->
  collected spec = true ->
  ex (collect_path tempdir name spec) = false ->
  exists o',
    collect_outputs ex tempdir (pre ++ (name, spec) :: post)%list o
    = (Raise (output_missing (collect_path tempdir name spec)), o')
    /\ forall n s, (n, s) ∈ pre -> collected s = true ->
         exists b b',
           o !! n = Some b
           /\ o' !! n = Some b'
           /\ script_data b' = Some (PStr (collect_path tempdir n s))
           /\ mode b' = mode b
           /\ data b' = data b.
Proof.
  intros Hnd Hdom Hex Hc Hmiss. unfold collect_outputs.
  rewrite OutputFacts.for_each_app.
  rewrite fmap_app, NoDup_app in Hnd. destruct Hnd as (Hnd & _ & _).
  destruct (collect_outputs_found ex tempdir pre o Hnd Hdom Hex)
    as (o1 & Hrun & Hrec & _).
  unfold collect_outputs in Hrun. rewrite Hrun.
  cbn [for_each]. unfold bind at 1.
  rewrite (collect_one_missing ex tempdir name spec o1 Hc Hmiss).
  exists o1. split; [reflexivity|].
  intros n s Hin Hcs. destruct (Hrec n s Hin Hcs) as (b & Hb & Hb').
  by exists b, (with_script_data (PStr (collect_path tempdir n s)) b).
Qed.

Lemma collect_outputs_partial_witness :
  exists o',
    collect_outputs (fun p => String.eqb p "/tmp/scratch/result.txt")
      "/tmp/scratch"
      [("result.txt", out_default); ("out", out_ok)]
      (<["result.txt" := dummy_binding]> {[ "out" := dummy_binding ]})
    = (Raise (output_missing "/tmp/scratch/ok.txt"), o')
    /\ exists b',
         o' !! "result.txt" = Some b'
         /\ script_data b' = Some (PStr "/tmp/scratch/result.txt")
         /\ mode b' = Some "test_dummy"
         /\ data b' = None.
Proof.
  destruct (collect_outputs_partial
              (fun p => String.eqb p "/tmp/scratch/result.txt")
              "/tmp/scratch" [("result.txt", out_default)] "out" out_ok []
              (<["result.txt" := dummy_binding]>
                 {[ "out" := dummy_binding ]}))
    as (o' & Hrun & Hrec).
  - repeat constructor; [|apply not_elem_of_nil].
    intros Hin. apply list_elem_of_singleton in Hin. discriminate.
  - intros n s Hin. apply list_elem_of_singleton in Hin as [= -> ->].
    by eexists.
  - intros n s Hin _. by apply list_elem_of_singleton in Hin as [= -> ->].
  - reflexivity.
  - reflexivity.
  - exists o'. split; [exact Hrun|].
    destruct (Hrec "result.txt" out_default) as (b & b' & Hb & Hb' & Hsd);
      [by apply list_elem_of_singleton|reflexivity|].
    rewrite lookup_insert_eq in Hb. injection Hb as <-.
    exists b'. split; [exact Hb'|exact Hsd].
Defined.

(** A collected output whose file exists but whose name has no entry in
    [outputs] makes the loop raise [KeyError] for that name. *)
Theorem collect_outputs_missing_entry ex tempdir
    (pre : list (string * PortSpec)) name spec post
    (o : gmap string Binding) :
  Forall (fun ns => collected ns.2 = false) pre ->
  collected spec = true ->
  ex (collect_path tempdir name spec) = true ->
  o !! name = None ->
  collect_outputs ex tempdir (pre ++ (name, spec) :: post)%list o
  = (Raise (KeyError name), o).
Proof.
  intros Hpre Hc Hex Hnone. unfold collect_outputs.
  rewrite OutputFacts.for_each_app.
  assert (Hskip : for_each pre (collect_one ex tempdir) o = (Ret tt, o)).
  { clear -Hpre. induction Hpre as [|[n s] rest Hs _ IH]; [done|].
    cbn [for_each]. unfold bind at 1.
    by rewrite collect_one_skip. }
  rewrite Hskip. cbn [for_each]. unfold bind at 1.
  unfold collect_one. unfold collected in Hc. rewrite Hc. cbv zeta.
  rewrite Hex. cbn [negb]. unfold bind, gets. by rewrite Hnone.
Qed.

Lemma collect_outputs_missing_entry_witness :
  collect_outputs (fun _ => true) "/tmp/scratch"
                  [("result.txt", out_default)] ∅
  = (Raise (KeyError "result.txt"), ∅).
Proof.
  exact (collect_outputs_missing_entry (fun _ => true) "/tmp/scratch" []
           "result.txt" out_default [] ∅ (Forall_nil_2 _) eq_refl eq_refl
           eq_refl).
Defined.

Lemma collect_one_frame ex tempdir ns (o : gmap string Binding) :
  forall n,
    match (collect_one ex tempdir ns o).2 !! n, o !! n with
    | Some b', Some b => mode b' = mode b /\ data b' = data b
    | None, None => True
    | _, _ => False
    end.
Proof.
  intros n. destruct ns as [name spec]. unfold collect_one.
  destruct (is_filepath spec && negb (stream spec)); cbv zeta.
  2:{ cbn. by destruct (o !! n). }
  destruct (negb (ex _)); [cbn; by destruct (o !! n)|].
  unfold bind, gets. destruct (o !! name) as [b|] eqn:Hb.
  - cbn. destruct (decide (name = n)) as [<-|Hne].
    + by rewrite lookup_insert_eq, Hb.
    + rewrite lookup_insert_ne by done. by destruct (o !! n).
  - cbn. by destruct (o !! n).
Qed.

(** Whatever its outcome, the collection loop neither adds nor removes an
    entry of [outputs], and it leaves the [mode] and the [data] of every
    binding as they were: only [script_data] is ever written. *)
Theorem collect_outputs_frame ex tempdir outs :
  forall (o : gmap string Binding) n,
    match (collect_outputs ex tempdir outs o).2 !! n, o !! n with
    | Some b', Some b => mode b' = mode b /\ data b' = data b
    | None, None => True
    | _, _ => False
    end.
Proof.
  unfold collect_outputs.
  induction outs as [|ns rest IH]; intros o n.
  - cbn. by destruct (o !! n).
  - cbn [for_each]. unfold bind at 1.
    pose proof (collect_one_frame ex tempdir ns o n) as H1.
    destruct (collect_one ex tempdir ns o) as [[u|e|] o1]; cbn [snd] in *;
      [|exact H1|exact H1].
    specialize (IH o1 n).
    destruct ((for_each rest (collect_one ex tempdir) o1).2 !! n) as [b2|],
             (o1 !! n) as [b1|], (o !! n) as [b|]; try done.
    destruct IH, H1. split; congruence.
Qed.

End ExecutorMore.


(** * Properties of the container run and of the garbage collector *)
Module RunFacts.
Import Docker DockerRun.

(** *** White space and the exclusion list *)

Lemma lstrip_has_text s : has_text (lstrip s) = has_text s.
Proof.
  induction s as [|c s IH]; [done|]. cbn [lstrip has_text].
  destruct (isspace c) eqn:Hc; [by rewrite IH|].
  cbn [has_text]. by rewrite Hc.
Qed.

Lemma rstrip_truthy s : truthy (PStr (rstrip s)) = has_text s.
Proof.
  induction s as [|c s IH]; [done|]. cbn [rstrip has_text].
  cbn [truthy] in *. destruct (rstrip s) as [|c' r].
  - cbn in IH. rewrite <- IH. by destruct (isspace c).
  - cbn in IH. rewrite <- IH. cbn. by rewrite orb_true_r.
Qed.

Lemma strip_truthy s : truthy (PStr (strip s)) = has_text s.
Proof. unfold strip. by rewrite rstrip_truthy, lstrip_has_text. Qed.

Lemma split_char_cons sep s : exists h t, split_char sep s = h :: t.
Proof.
  induction s as [|c s (h & t & IH)]; [by eexists _, _|].
  cbn [split_char]. destruct (Ascii.eqb c sep); [by eexists _, _|].
  rewrite IH. by eexists _, _.
Qed.

Lemma split_comma_has_text s :
  existsb has_text (split_char ","%char s) = names_an_image s.
Proof.
  induction s as [|c s IH]; [done|].
  cbn [split_char names_an_image].
  destruct (Ascii.eqb c ","%char) eqn:Hc.
  - cbn [existsb has_text]. rewrite IH, orb_true_r. done.
  - destruct (split_char_cons ","%char s) as (h & t & Hs).
    rewrite Hs in *. cbn [existsb has_text] in *.
    rewrite <- IH, orb_false_r. by rewrite orb_assoc.
Qed.

Lemma keep_images_nil s :
  keep_images (split_char ","%char s) = [] <-> names_an_image s = false.
Proof.
  rewrite <- split_comma_has_text. unfold keep_images.
  induction (split_char ","%char s) as [|f fs IH]; [done|].
  cbn [List.filter existsb]. rewrite strip_truthy.
  destruct (has_text f); [done|]. exact IH.
Qed.


(** *** The garbage collector *)

Ltac exec :=
  cbn [bind lift ask outcome_of ret raise gets modify log set_stdout
       set_stderr on_host on_outputs close_socket fst snd w_trace w_host
       w_outputs stdout stderr negb].

Lemma docker_gc_spec X tempdir w :
  let v := default "" (config X !! "exclude_images") in
  let p := PosixPath.join tempdir ".docker-gc-exclude" in
  let script := PosixPath.join (module_dir X) "docker-gc" in
  let env0 :=
    <["GRACE_PERIOD_SECONDS" := default "3600" (config X !! "cache_timeout")]>
      (<["PID_DIR" := tempdir]>
         (<["STATE_DIR" := tempdir]>
            (<["FORCE_CONTAINER_REMOVAL" := "1"]> (environ X)))) in
  exists tr,
    w_trace (_docker_gc X tempdir w).2 = (w_trace w ++ tr)%list
    /\ w_host (_docker_gc X tempdir w).2 = w_host w
    /\ w_outputs (_docker_gc X tempdir w).2 = w_outputs w
    /\ match (_docker_gc X tempdir w).1 with
       | Ret _ =>
           if names_an_image v
           then exists c,
                  tr = [EvWriteFile p c;
                        EvGcStarted script (<["EXCLUDE_FROM_GC" := p]> env0)]
           else tr = [EvGcStarted script env0]
       | Raise e =>
           tr = [] \/ exists c, tr = [EvWriteFile p c]
       | OutOfFuel => False
       end.
Proof.
  intros v p script env0. unfold _docker_gc.
  destruct (script_isfile X); exec;
    [|exists []; by rewrite app_nil_r; auto].
  destruct (script_executable X); exec;
    [|exists []; by rewrite app_nil_r; auto].
  assert (Hgrace :
            py_str (_read_from_config X "cache_timeout" (PInt 3600))
            = default "3600" (config X !! "cache_timeout")).
  { unfold _read_from_config. by destruct (config X !! "cache_timeout"). }
  assert (Hv : _read_from_config X "exclude_images" (PStr "") = PStr v).
  { unfold _read_from_config, v. by destruct (config X !! "exclude_images"). }
  rewrite Hgrace, Hv. cbn [py_split]. exec. fold env0. fold script.
  pose proof (keep_images_nil v) as Hnil.
  destruct (keep_images (split_char ","%char v)) as [|img imgs] eqn:Hk.
  - rewrite (proj1 Hnil eq_refl). exec.
    destruct (popen_result X script env0); exec.
    + by exists [EvGcStarted script env0].
    + exists []. by rewrite app_nil_r; auto.
  - assert (Hname : names_an_image v = true).
    { destruct (names_an_image v); [done|].
      by specialize (proj2 Hnil eq_refl). }
    rewrite Hname. fold p. exec.
    destruct (write_result X p _); exec;
      [|exists []; by rewrite app_nil_r; auto].
    destruct (popen_result X script _); exec.
    + eexists [_; _]. rewrite <- app_assoc. repeat split. by eexists.
    + eexists [_]. repeat split. right. by eexists.
Qed.


(** *** The three stages of [run] *)

Lemma pull_step_spec X task image w r w1 :
  (if truthy (default (PBool true) (pull_image task))
   then _pull_image X image else ret tt) w = (r, w1) ->
  exists pre,
    w1 = mkRunState (w_host w) (w_outputs w) (w_trace w ++ pre)%list
                    (stdout w) (stderr w)
    /\ Forall (fun c => stage_of c = Starting) pre
    /\ (forall i a c, ~ In (EvContainerStarted i a c) pre)
    /\ (forall u, r = Ret u ->
          truthy (default (PBool true) (pull_image task)) = true ->
          pull_result X image = Returns 0%Z).
Proof.
  destruct (truthy (default (PBool true) (pull_image task))).
  - unfold _pull_image. destruct (pull_result X image) as [rc|e]; exec.
    + intros H. exists [EvPull image rc]. split; [|split; [|split]].
      * destruct (rc =? 0)%Z; exec; by injection H as <- <-.
      * by repeat constructor.
      * intros i a c [H'|[]]; discriminate.
      * intros u ->. destruct (rc =? 0)%Z eqn:Hrc; [|discriminate].
        apply Z.eqb_eq in Hrc. by subst.
    + intros [= <- <-]. exists []. rewrite app_nil_r.
      split; [by destruct w|].
      split; [constructor|]. split; [tauto|discriminate].
  - exec. intros [= <- <-]. exists []. rewrite app_nil_r.
    split; [by destruct w|].
    split; [constructor|]. split; [tauto|discriminate].
Qed.

Lemma start_container_spec X task inputs task_inputs task_outputs tempdir
    w r w' :
  start_container X task inputs task_inputs task_outputs tempdir w = (r, w') ->
  exists tr,
    w_trace w' = (w_trace w ++ tr)%list
    /\ w_outputs w' = w_outputs w
    /\ Forall (fun c => stage_of c = Starting) tr
    /\ match r with
       | Ret pipes =>
           exists image args,
             docker_image task = Some image
             /\ _expand_args (cwd X) (default [] (container_args task))
                             inputs task_inputs tempdir = Ret args
             /\ (truthy (default (PBool true) (pull_image task)) = true ->
                 pull_result X image = Returns 0%Z)
             /\ _setup_pipes task_inputs inputs task_outputs (w_outputs w)
                             tempdir (w_host w) = (Ret pipes, w_host w')
             /\ In (EvContainerStarted
                      image args
                      (container_config tempdir (ep_args_of task))) tr
             /\ forall i a c,
                  In (EvContainerStarted i a c) tr ->
                  i = image /\ a = args
                  /\ c = container_config tempdir (ep_args_of task)
       | _ => forall i a c, ~ In (EvContainerStarted i a c) tr
       end.
Proof.
  unfold start_container.
  destruct (docker_image task) as [image|]; exec.
  2:{ intros [= <- <-]. exists []. rewrite app_nil_r. repeat split; auto. }
  unfold bind at 1.
  destruct ((if truthy (default (PBool true) (pull_image task))
             then _pull_image X image else ret tt) w) as [r1 w1] eqn:Hp.
  apply pull_step_spec in Hp as (pre & -> & Hpre & Hno & Hok).
  destruct r1 as [[]|e|];
    [|intros [= <- <-]; by exists pre|intros [= <- <-]; by exists pre].
  specialize (Hok tt eq_refl).
  destruct (_expand_args (cwd X) (default [] (container_args task)) inputs
                         task_inputs tempdir) as [args|e|]; exec;
    [|intros [= <- <-]; by exists pre|intros [= <- <-]; by exists pre].
  unfold bind at 1, on_host at 1. exec.
  destruct (_setup_pipes task_inputs inputs task_outputs (w_outputs w)
                         tempdir (w_host w)) as [[pipes|e|] h1] eqn:Hpipes;
    exec; [|intros [= <- <-]; by exists pre|intros [= <- <-]; by exists pre].
  destruct (from_env_result X) as [[]|e]; exec;
    [|intros [= <- <-]; by exists pre].
  destruct (containers_run_result X image args _) as [[]|e]; exec;
    [|intros [= <- <-]; by exists pre].
  intros [= <- <-].
  exists (pre ++ [EvContainerStarted
                    image args
                    (container_config tempdir (ep_args_of task))])%list.
  cbn [w_trace w_host w_outputs].
  rewrite app_assoc. split; [done|]. split; [done|].
  split; [apply Forall_app; split; [done|by repeat constructor]|].
  exists image, args. split; [done|]. split; [done|]. split; [done|].
  split; [done|]. split; [apply in_or_app; right; by left|].
  intros i a c Hin. apply in_app_or in Hin as [Hin|[Hin|[]]].
  - by apply Hno in Hin.
  - by injection Hin as <- <- <-.
Qed.

Lemma stream_container_spec X ipipes opipes w r w' :
  stream_container X ipipes opipes w = (r, w') ->
  exists tr,
    w_trace w' = (w_trace w ++ tr)%list
    /\ w_host w' = w_host w
    /\ Forall (fun c => stage_of c = Streaming) tr
    /\ ((forall s, close_result X s = Returns tt) ->
        forall s,
          (exists fileno, In (EvAttached s fileno) tr) <-> In (EvClose s) tr).
Proof.
  unfold stream_container, try_finally, attach_and_loop, close_sockets.
  exec.
  destruct (attach_result X Stdout) as [out|e]; exec.
  2:{ intros [= <- <-]. exists []. rewrite app_nil_r. repeat split; auto.
      - by intros [? []].
      - intros []. }
  destruct (attach_result X Stderr) as [err|e]; exec.
  2:{ destruct (close_result X Stdout) as [[]|e'] eqn:Hc; exec;
        intros [= <- <-];
        exists [EvAttached Stdout out; EvClose Stdout];
        cbn [w_trace w_host];
        rewrite <- app_assoc;
        (split; [done|]); (split; [done|]);
        (split; [by repeat constructor|]);
        intros Hclose s; (split; [intros [fd Hin]|intros Hin]);
        cbn [In] in *; destruct s;
        intuition (try discriminate; eauto 6). }
  unfold on_outputs. exec.
  set (op := dict_set _ (KFd err) _).
  destruct (select_loop_result X ipipes op (w_outputs w)) as [a o'].
  generalize (outcome_of a). intros r0. exec.
  destruct (close_result X Stdout) as [[]|e1] eqn:Hc1; exec.
  - destruct (close_result X Stderr) as [[]|e2] eqn:Hc2; exec;
      intros [= <- <-];
      exists [EvAttached Stdout out; EvAttached Stderr err;
              EvSelectLoop ipipes op; EvClose Stdout; EvClose Stderr];
      cbn [w_trace w_host];
      rewrite <- !app_assoc;
      (split; [done|]); (split; [done|]);
      (split; [by repeat constructor|]);
      intros Hclose s; (split; [intros [fd Hin]|intros Hin]);
      cbn [In] in *; destruct s;
      intuition (try discriminate; eauto 8).
  - intros [= <- <-].
    exists [EvAttached Stdout out; EvAttached Stderr err;
            EvSelectLoop ipipes op; EvClose Stdout].
    cbn [w_trace w_host].
    rewrite <- !app_assoc.
    split; [done|]. split; [done|]. split; [by repeat constructor|].
    intros Hclose. rewrite Hclose in Hc1. discriminate.
Qed.


Lemma collect_outputs_no_fuel ex tempdir outs o :
  (collect_outputs ex tempdir outs o).1 <> OutOfFuel.
Proof.
  unfold collect_outputs. revert o.
  induction outs as [|[name spec] rest IH]; intros o; [discriminate|].
  cbn [for_each]. unfold bind at 1.
  destruct (collect_one ex tempdir (name, spec) o) as [[[]|e|] o1] eqn:H1.
  - apply IH.
  - discriminate.
  - exfalso. revert H1. unfold collect_one.
    destruct (is_filepath spec && negb (stream spec)); [|discriminate].
    cbv zeta. destruct (negb (ex _)); [discriminate|].
    unfold bind, gets. by destruct (o !! name).
Qed.

Lemma collect_after_gc_spec X task_outputs tempdir w r w' :
  collect_after_gc X task_outputs tempdir w = (r, w') ->
  exists tr,
    w_trace w' = (w_trace w ++ tr)%list
    /\ w_host w' = w_host w
    /\ Forall (fun c => stage_of c = Finishing) tr
    /\ forall script env,
         In (EvGcStarted script env) tr ->
         w_outputs w'
         = (collect_outputs (path_exists X) tempdir task_outputs
                            (w_outputs w)).2
         /\ match (collect_outputs (path_exists X) tempdir task_outputs
                                   (w_outputs w)).1 with
            | Ret _ =>
                In EvWait tr
                /\ r = (if negb (wait_returncode X =? 0)%Z
                        then Raise (Exception
                                      ("Docker GC returned code "
                                       ++ py_str (PInt (wait_returncode X))
                                       ++ "."))
                        else Ret tt)
            | Raise e => ~ In EvWait tr /\ r = Raise e
            | OutOfFuel => False
            end.
Proof.
  unfold collect_after_gc. cbv zeta.
  set (gc_dir := PosixPath.join tempdir "docker_gc_scratch").
  destruct (mkdir_result X gc_dir) as [[]|e]; exec.
  2:{ intros [= <- <-]. exists []. rewrite app_nil_r.
      split; [done|]. split; [done|]. split; [constructor|].
      intros ? ? []. }
  unfold bind at 1.
  set (w1 := mkRunState _ _ _ _ _).
  destruct (docker_gc_spec X gc_dir w1) as (tr & Htr & Hh & Ho & Hcase).
  destruct (_docker_gc X gc_dir w1) as [r2 w2]. cbn [fst snd] in *.
  assert (Hfin : Forall (fun c => stage_of c = Finishing) tr).
  { destruct r2 as [[]|e|]; [| |done].
    - destruct (names_an_image _); [destruct Hcase as [c ->]|subst tr];
        by repeat constructor.
    - destruct Hcase as [->|[c ->]]; by repeat constructor. }
  destruct r2 as [[]|e|]; [| |done].
  2:{ intros [= <- <-]. exists (EvMkdir gc_dir :: tr).
      rewrite Htr. subst w1. cbn [w_trace]. rewrite <- app_assoc.
      split; [done|]. split; [done|]. split; [by constructor|].
      intros script env [Hin|Hin]; [discriminate|].
      destruct Hcase as [->|[c ->]]; [destruct Hin|].
      destruct Hin as [Hin|[]]. discriminate. }
  assert (Hnowait : ~ In EvWait (EvMkdir gc_dir :: tr)).
  { intros [Hin|Hin]; [discriminate|].
    destruct (names_an_image _); [destruct Hcase as [c ->]|subst tr];
      cbn [In] in Hin; intuition discriminate. }
  unfold bind at 1, on_outputs at 1. rewrite Ho.
  change (w_outputs w1) with (w_outputs w).
  pose proof (collect_outputs_no_fuel (path_exists X) tempdir task_outputs
                                      (w_outputs w)) as Hfuel.
  destruct (collect_outputs (path_exists X) tempdir task_outputs
                            (w_outputs w)) as [[[]|e|] o2];
    cbn [fst snd] in *; [| |done].
  - exec. intros H. exists (EvMkdir gc_dir :: tr ++ [EvWait])%list.
    assert (Hw' : w' = mkRunState (w_host w2) o2 (w_trace w2 ++ [EvWait])%list
                                  (stdout w2) (stderr w2)
                  /\ r = (if negb (wait_returncode X =? 0)%Z
                          then Raise (Exception
                                        ("Docker GC returned code "
                                         ++ py_str (PInt (wait_returncode X))
                                         ++ "."))
                          else Ret tt)).
    { destruct (negb (wait_returncode X =? 0)%Z); exec;
        by injection H as <- <-. }
    destruct Hw' as [-> ->]. cbn [w_trace w_host w_outputs].
    rewrite Htr, Hh. subst w1. cbn [w_trace w_host].
    rewrite <- !app_assoc. split; [done|]. split; [done|].
    split; [constructor; [done|]; apply Forall_app; split;
            [done|by repeat constructor]|].
    intros script env _. split; [done|]. split; [|done].
    right. apply in_or_app. right. by left.
  - intros [= <- <-]. exists (EvMkdir gc_dir :: tr).
    cbn [w_trace w_host w_outputs].
    rewrite Htr, Hh. subst w1. cbn [w_trace w_host].
    rewrite <- !app_assoc. split; [done|]. split; [done|].
    split; [by constructor|]. done.
Qed.

Lemma new_calls_eq w w' tr :
  w_trace w' = (w_trace w ++ tr)%list -> new_calls w w' = tr.
Proof. intros H. unfold new_calls. rewrite H. apply drop_app_length. Qed.

(** *** The run as a whole *)

Lemma run_spec X task inputs task_inputs task_outputs tempdir w :
  exists starting streaming finishing,
    new_calls w (run X task inputs task_inputs task_outputs tempdir w).2
    = (starting ++ streaming ++ finishing)%list
    /\ Forall (fun c => stage_of c = Starting) starting
    /\ Forall (fun c => stage_of c = Streaming) streaming
    /\ Forall (fun c => stage_of c = Finishing) finishing
    /\ (forall image args cfg,
          In (EvContainerStarted image args cfg) starting ->
          docker_image task = Some image
          /\ _expand_args (cwd X) (default [] (container_args task))
                          inputs task_inputs tempdir = Ret args
          /\ cfg = container_config tempdir (ep_args_of task)
          /\ (truthy (default (PBool true) (pull_image task)) = true ->
              pull_result X image = Returns 0%Z)
          /\ exists pipes,
               _setup_pipes task_inputs inputs task_outputs (w_outputs w)
                            tempdir (w_host w)
               = (Ret pipes,
                  w_host (run X task inputs task_inputs task_outputs
                              tempdir w).2))
    /\ ((forall s, close_result X s = Returns tt) ->
        forall s,
          (exists fileno, In (EvAttached s fileno) streaming)
          <-> In (EvClose s) streaming)
    /\ (forall script env,
          In (EvGcStarted script env) finishing ->
          exists o1,
            w_outputs (run X task inputs task_inputs task_outputs tempdir
                           w).2
            = (collect_outputs (path_exists X) tempdir task_outputs o1).2
            /\ match (collect_outputs (path_exists X) tempdir task_outputs
                                      o1).1 with
               | Ret _ =>
                   In EvWait finishing
                   /\ (run X task inputs task_inputs task_outputs tempdir
                           w).1
                      = (if negb (wait_returncode X =? 0)%Z
                         then Raise (Exception
                                       ("Docker GC returned code "
                                        ++ py_str (PInt (wait_returncode X))
                                        ++ "."))
                         else Ret tt)
               | Raise e =>
                   ~ In EvWait finishing
                   /\ (run X task inputs task_inputs task_outputs tempdir
                           w).1 = Raise e
               | OutOfFuel => False
               end).
Proof.
  destruct (run X task inputs task_inputs task_outputs tempdir w)
    as [r w'] eqn:Hrun.
  cbn [fst snd]. unfold run in Hrun. unfold bind at 1 in Hrun.
  destruct (start_container X task inputs task_inputs task_outputs tempdir w)
    as [r1 w1] eqn:H1.
  apply start_container_spec in H1 as (tr1 & Ht1 & Ho1 & Hs1 & Hc1).
  destruct r1 as [pipes|e|].
  2,3: injection Hrun as <- <-; exists tr1, [], []; rewrite !app_nil_r;
       (split; [by apply new_calls_eq|]); (split; [done|]);
       (split; [constructor|]); (split; [constructor|]);
       (split; [intros i a c Hin; by apply Hc1 in Hin|]);
       (split; [intros _ s; split; [by intros [? []]|intros []]|]);
       intros ? ? [].
  destruct Hc1 as (image & args & Himg & Hargs & Hpull & Hpipes & _ & Huniq).
  unfold bind at 1 in Hrun.
  destruct (stream_container X pipes.1 pipes.2 w1) as [r2 w2] eqn:H2.
  apply stream_container_spec in H2 as (tr2 & Ht2 & Hh2 & Hs2 & Hc2).
  destruct r2 as [[]|e|].
  2,3: injection Hrun as <- <-; exists tr1, tr2, []; rewrite !app_nil_r;
       (split; [apply new_calls_eq; by rewrite Ht2, Ht1, app_assoc|]);
       (split; [done|]); (split; [done|]); (split; [constructor|]);
       (split; [intros i a c Hin; apply Huniq in Hin as (-> & -> & ->);
                rewrite Hh2; eauto 10|]);
       (split; [done|]); intros ? ? [].
  apply collect_after_gc_spec in Hrun as (tr3 & Ht3 & Hh3 & Hs3 & Hc3).
  exists tr1, tr2, tr3.
  split; [apply new_calls_eq; by rewrite Ht3, Ht2, Ht1, <- !app_assoc|].
  split; [done|]. split; [done|]. split; [done|].
  split; [intros i a c Hin; apply Huniq in Hin as (-> & -> & ->);
          rewrite Hh3, Hh2; eauto 10|].
  split; [done|].
  intros script env Hin. exists (w_outputs w2). by apply (Hc3 script env).
Qed.


Lemma in_stage (P : stage) (l : list call) c :
  Forall (fun c => stage_of c = P) l -> In c l -> stage_of c = P.
Proof. rewrite Forall_forall. intros H Hin. by apply H, list_elem_of_In. Qed.

(** The calls that [run] makes come in three blocks, whatever fails on the
    way: pulling and starting the container, then attaching, looping and
    closing, then the garbage collector with its files and the wait. *)
Theorem run_calls_in_stage_order X task inputs task_inputs task_outputs
    tempdir w :
  exists starting streaming finishing,
    new_calls w (run X task inputs task_inputs task_outputs tempdir w).2
    = (starting ++ streaming ++ finishing)%list
    /\ Forall (fun c => stage_of c = Starting) starting
    /\ Forall (fun c => stage_of c = Streaming) streaming
    /\ Forall (fun c => stage_of c = Finishing) finishing.
Proof.
  destruct (run_spec X task inputs task_inputs task_outputs tempdir w)
    as (a & b & c & Heq & Ha & Hb & Hc & _).
  by exists a, b, c.
Qed.

(** A container is started only once everything before it went through:
    the task names the image, the pull, when it is not switched off, ended
    with code 0, the arguments started with are the expanded ones, the
    volume is the temporary directory, and the pipes were set up; the
    FIFOs and descriptors [run] leaves behind are those of [_setup_pipes]. *)
Theorem run_container_started_after_setup X task inputs task_inputs
    task_outputs tempdir w image args cfg :
  In (EvContainerStarted image args cfg)
     (new_calls w (run X task inputs task_inputs task_outputs tempdir w).2) ->
  docker_image task = Some image
  /\ _expand_args (cwd X) (default [] (container_args task))
                  inputs task_inputs tempdir = Ret args
  /\ cfg = container_config tempdir (ep_args_of task)
  /\ (truthy (default (PBool true) (pull_image task)) = true ->
      pull_result X image = Returns 0%Z)
  /\ exists pipes,
       _setup_pipes task_inputs inputs task_outputs (w_outputs w)
                    tempdir (w_host w)
       = (Ret pipes,
          w_host (run X task inputs task_inputs task_outputs tempdir w).2).
Proof.
  destruct (run_spec X task inputs task_inputs task_outputs tempdir w)
    as (a & b & c & -> & Ha & Hb & Hc & Hstart & _).
  intros Hin. apply Hstart.
  apply in_app_or in Hin as [Hin|Hin]; [done|].
  apply in_app_or in Hin as [Hin|Hin].
  - by apply (in_stage _ _ _ Hb) in Hin.
  - by apply (in_stage _ _ _ Hc) in Hin.
Qed.

Lemma run_container_started_after_setup_witness :
  docker_image example_task = Some "busybox"
  /\ _expand_args (cwd quiet) (default [] (container_args example_task))
                  ∅ [] "/tmp/scratch" = Ret ["echo"; "hi"]
  /\ container_config "/tmp/scratch" [] =
     container_config "/tmp/scratch" (ep_args_of example_task)
  /\ (truthy (default (PBool true) (pull_image example_task)) = true ->
      pull_result quiet "busybox" = Returns 0%Z)
  /\ exists pipes,
       _setup_pipes [] ∅ [("result.txt", out_default)]
                    (w_outputs
                       (fresh_state {[ "result.txt" := dummy_binding ]}))
                    "/tmp/scratch"
                    (w_host (fresh_state {[ "result.txt" := dummy_binding ]}))
       = (Ret pipes,
          w_host (run quiet example_task ∅ [] [("result.txt", out_default)]
                      "/tmp/scratch"
                      (fresh_state {[ "result.txt" := dummy_binding ]})).2).
Proof.
  apply (run_container_started_after_setup
           quiet example_task ∅ [] [("result.txt", out_default)]
           "/tmp/scratch" (fresh_state {[ "result.txt" := dummy_binding ]})
           "busybox" ["echo"; "hi"] (container_config "/tmp/scratch" [])).
  vm_compute. right. left. reflexivity.
Defined.

(** When closing a socket does not fail, [run] closes exactly the sockets
    it attached, on every path: after a failed attach, after a select loop
    that raised, and after a normal end. *)
Theorem run_closes_attached_sockets X task inputs task_inputs task_outputs
    tempdir w :
  (forall s, close_result X s = Returns tt) ->
  forall s,
    (exists fileno,
       In (EvAttached s fileno)
          (new_calls w (run X task inputs task_inputs task_outputs tempdir
                            w).2))
    <-> In (EvClose s)
           (new_calls w (run X task inputs task_inputs task_outputs tempdir
                             w).2).
Proof.
  intros Hclose s.
  destruct (run_spec X task inputs task_inputs task_outputs tempdir w)
    as (a & b & c & -> & Ha & Hb & Hc & _ & Hsock & _).
  specialize (Hsock Hclose s).
  assert (Hmid : forall ev, stage_of ev = Streaming ->
                   In ev (a ++ b ++ c)%list <-> In ev b).
  { intros ev Hev. rewrite !in_app_iff. split; [|tauto].
    intros [Hin|[Hin|Hin]]; [|done|].
    - apply (in_stage _ _ _ Ha) in Hin. congruence.
    - apply (in_stage _ _ _ Hc) in Hin. congruence. }
  rewrite (Hmid (EvClose s) eq_refl), <- Hsock.
  split; intros [fd Hin]; exists fd; by apply (Hmid (EvAttached s fd)).
Qed.

Lemma run_closes_attached_sockets_witness :
  (exists fileno,
     In (EvAttached Stderr fileno)
        (new_calls (fresh_state ∅)
                   (run quiet example_task ∅ [] [] "/tmp/scratch"
                        (fresh_state ∅)).2))
  <-> In (EvClose Stderr)
         (new_calls (fresh_state ∅)
                    (run quiet example_task ∅ [] [] "/tmp/scratch"
                         (fresh_state ∅)).2).
Proof.
  apply (run_closes_attached_sockets quiet example_task ∅ [] []
           "/tmp/scratch" (fresh_state ∅)).
  intros s. reflexivity.
Defined.

(** Once the garbage collector is started, [run] ends in one of two ways.
    Either every output is collected, the collector is waited for, and its
    return code alone decides between returning and raising: the outputs
    stay recorded when it is not 0. Or the collection loop raises, and
    [run] raises the same without ever waiting for the collector. *)
Theorem run_gc_and_collection X task inputs task_inputs task_outputs
    tempdir w script env :
  In (EvGcStarted script env)
     (new_calls w (run X task inputs task_inputs task_outputs tempdir w).2) ->
  exists o1,
    w_outputs (run X task inputs task_inputs task_outputs tempdir w).2
    = (collect_outputs (path_exists X) tempdir task_outputs o1).2
    /\ match (collect_outputs (path_exists X) tempdir task_outputs o1).1 with
       | Ret _ =>
           In EvWait (new_calls w (run X task inputs task_inputs
                                       task_outputs tempdir w).2)
           /\ (run X task inputs task_inputs task_outputs tempdir w).1
              = (if negb (wait_returncode X =? 0)%Z
                 then Raise (Exception
                               ("Docker GC returned code "
                                ++ py_str (PInt (wait_returncode X)) ++ "."))
                 else Ret tt)
       | Raise e =>
           ~ In EvWait (new_calls w (run X task inputs task_inputs
                                         task_outputs tempdir w).2)
           /\ (run X task inputs task_inputs task_outputs tempdir w).1
              = Raise e
       | OutOfFuel => False
       end.
Proof.
  destruct (run_spec X task inputs task_inputs task_outputs tempdir w)
    as (a & b & c & -> & Ha & Hb & Hc & _ & _ & Hgc).
  intros Hin.
  assert (Hlast : forall ev, stage_of ev = Finishing ->
                    In ev (a ++ b ++ c)%list <-> In ev c).
  { intros ev Hev. rewrite !in_app_iff. split; [|tauto].
    intros [Hin'|[Hin'|Hin']]; [| |done].
    - apply (in_stage _ _ _ Ha) in Hin'. congruence.
    - apply (in_stage _ _ _ Hb) in Hin'. congruence. }
  apply (Hlast (EvGcStarted script env) eq_refl) in Hin.
  destruct (Hgc script env Hin) as (o1 & Ho & Hcase).
  exists o1. split; [done|].
  destruct (collect_outputs (path_exists X) tempdir task_outputs o1).1;
    [|rewrite (Hlast EvWait eq_refl)|]; [|done|done].
  by rewrite (Hlast EvWait eq_refl).
Qed.


Lemma run_gc_and_collection_witness :
  exists o1,
    w_outputs (run quiet example_task ∅ [] [("result.txt", out_default)]
                   "/tmp/scratch"
                   (fresh_state {[ "result.txt" := dummy_binding ]})).2
    = (collect_outputs (path_exists quiet) "/tmp/scratch"
                       [("result.txt", out_default)] o1).2
    /\ match (collect_outputs (path_exists quiet) "/tmp/scratch"
                              [("result.txt", out_default)] o1).1 with
       | Ret _ =>
           In EvWait
              (new_calls
                 (fresh_state {[ "result.txt" := dummy_binding ]})
                 (run quiet example_task ∅ [] [("result.txt", out_default)]
                      "/tmp/scratch"
                      (fresh_state {[ "result.txt" := dummy_binding ]})).2)
           /\ (run quiet example_task ∅ [] [("result.txt", out_default)]
                   "/tmp/scratch"
                   (fresh_state {[ "result.txt" := dummy_binding ]})).1
              = (if negb (wait_returncode quiet =? 0)%Z
                 then Raise (Exception
                               ("Docker GC returned code "
                                ++ py_str (PInt (wait_returncode quiet))
                                ++ "."))
                 else Ret tt)
       | Raise e =>
           ~ In EvWait
               (new_calls
                  (fresh_state {[ "result.txt" := dummy_binding ]})
                  (run quiet example_task ∅ [] [("result.txt", out_default)]
                       "/tmp/scratch"
                       (fresh_state {[ "result.txt" := dummy_binding ]})).2)
           /\ (run quiet example_task ∅ [] [("result.txt", out_default)]
                   "/tmp/scratch"
                   (fresh_state {[ "result.txt" := dummy_binding ]})).1
              = Raise e
       | OutOfFuel => False
       end.
Proof.
  eapply (run_gc_and_collection
            quiet example_task ∅ [] [("result.txt", out_default)]
            "/tmp/scratch" (fresh_state {[ "result.txt" := dummy_binding ]})).
  vm_compute. do 9 right. left. reflexivity.
Defined.

(** The collector is started with the script that lies beside the module
    and with the worker's environment, in which four variables are set
    whatever they were before: forced removal, the state and PID
    directories at the directory given, and the grace period, 3600 unless
    configured. [EXCLUDE_FROM_GC] names the exclusion file when the
    configuration names an image; otherwise it is inherited, like every
    other variable. *)
Theorem docker_gc_environment X tempdir w script env :
  In (EvGcStarted script env) (new_calls w (_docker_gc X tempdir w).2) ->
  script = PosixPath.join (module_dir X) "docker-gc"
  /\ env !! "FORCE_CONTAINER_REMOVAL" = Some "1"
  /\ env !! "STATE_DIR" = Some tempdir
  /\ env !! "PID_DIR" = Some tempdir
  /\ env !! "GRACE_PERIOD_SECONDS"
     = Some (default "3600" (config X !! "cache_timeout"))
  /\ env !! "EXCLUDE_FROM_GC"
     = (if names_an_image (default "" (config X !! "exclude_images"))
        then Some (PosixPath.join tempdir ".docker-gc-exclude")
        else environ X !! "EXCLUDE_FROM_GC")
  /\ forall k, ~ In k gc_variables -> env !! k = environ X !! k.
Proof.
  destruct (docker_gc_spec X tempdir w) as (tr & Htr & _ & _ & Hcase).
  rewrite (new_calls_eq _ _ _ Htr). intros Hin.
  set (env0 := <["GRACE_PERIOD_SECONDS" := _]> _) in Hcase.
  assert (Henv :
    script = PosixPath.join (module_dir X) "docker-gc"
    /\ (if names_an_image (default "" (config X !! "exclude_images"))
        then env = <["EXCLUDE_FROM_GC" :=
                       PosixPath.join tempdir ".docker-gc-exclude"]> env0
        else env = env0)).
  { destruct (_docker_gc X tempdir w).1 as [[]|e|]; [| |done].
    - destruct (names_an_image _).
      + destruct Hcase as [c ->].
        destruct Hin as [Hin|[Hin|[]]]; [discriminate|].
        by injection Hin as <- <-.
      + subst tr. destruct Hin as [Hin|[]]. by injection Hin as <- <-.
    - destruct Hcase as [->|[c ->]]; [destruct Hin|].
      destruct Hin as [Hin|[]]. discriminate. }
  destruct Henv as [-> Henv]. split; [done|].
  assert (H0 : env0 !! "FORCE_CONTAINER_REMOVAL" = Some "1"
               /\ env0 !! "STATE_DIR" = Some tempdir
               /\ env0 !! "PID_DIR" = Some tempdir
               /\ env0 !! "GRACE_PERIOD_SECONDS"
                  = Some (default "3600" (config X !! "cache_timeout"))
               /\ env0 !! "EXCLUDE_FROM_GC" = environ X !! "EXCLUDE_FROM_GC"
               /\ forall k, ~ In k gc_variables ->
                    env0 !! k = environ X !! k).
  { subst env0. split; [|split; [|split; [|split; [|split]]]].
    - rewrite !lookup_insert_ne by done. by rewrite lookup_insert_eq.
    - rewrite !lookup_insert_ne by done. by rewrite lookup_insert_eq.
    - rewrite !lookup_insert_ne by done. by rewrite lookup_insert_eq.
    - by rewrite lookup_insert_eq.
    - by rewrite !lookup_insert_ne by done.
    - intros k Hk. cbn [gc_variables In] in Hk.
      rewrite !lookup_insert_ne; [done|..]; intros <-; tauto. }
  destruct H0 as (Hf & Hs & Hp & Hg & He & Hk).
  destruct (names_an_image _); subst env.
  - rewrite !lookup_insert_ne by done. rewrite lookup_insert_eq.
    repeat (split; [done|]). intros k Hin'.
    rewrite lookup_insert_ne; [by apply Hk|].
    intros <-. cbn [gc_variables In] in Hin'. tauto.
  - by repeat (split; [done|]).
Qed.

Lemma docker_gc_environment_witness :
  "/opt/worker/docker/docker-gc"
  = PosixPath.join (module_dir quiet) "docker-gc"
  /\ (<["EXCLUDE_FROM_GC" := "/tmp/gc/.docker-gc-exclude"]>
        (<["GRACE_PERIOD_SECONDS" := "3600"]>
           (<["PID_DIR" := "/tmp/gc"]>
              (<["STATE_DIR" := "/tmp/gc"]>
                 (<["FORCE_CONTAINER_REMOVAL" := "1"]> (environ quiet))))))
       !! "FORCE_CONTAINER_REMOVAL" = Some "1".
Proof.
  pose proof (docker_gc_environment quiet "/tmp/gc" (fresh_state ∅)
                "/opt/worker/docker/docker-gc"
                (<["EXCLUDE_FROM_GC" := "/tmp/gc/.docker-gc-exclude"]>
                   (<["GRACE_PERIOD_SECONDS" := "3600"]>
                      (<["PID_DIR" := "/tmp/gc"]>
                         (<["STATE_DIR" := "/tmp/gc"]>
                            (<["FORCE_CONTAINER_REMOVAL" := "1"]>
                               (environ quiet)))))))
    as H.
  destruct H as (Hs & Hf & _).
  - vm_compute. right. left. reflexivity.
  - split; [exact Hs|exact Hf].
Defined.

(** When the collector is started, the exclusion file has been written
    exactly when the configured [exclude_images] holds a character that is
    neither a comma nor white space; it is written once, in the directory
    given, before the collector starts. *)
Theorem docker_gc_exclude_file X tempdir w :
  (_docker_gc X tempdir w).1 = Ret tt ->
  ((exists p c,
      In (EvWriteFile p c) (new_calls w (_docker_gc X tempdir w).2))
   <-> names_an_image (default "" (config X !! "exclude_images")) = true)
  /\ forall p c,
       In (EvWriteFile p c) (new_calls w (_docker_gc X tempdir w).2) ->
       p = PosixPath.join tempdir ".docker-gc-exclude"
       /\ exists env,
            new_calls w (_docker_gc X tempdir w).2
            = [EvWriteFile p c;
               EvGcStarted (PosixPath.join (module_dir X) "docker-gc") env].
Proof.
  destruct (docker_gc_spec X tempdir w) as (tr & Htr & _ & _ & Hcase).
  rewrite (new_calls_eq _ _ _ Htr). intros Hret. rewrite Hret in Hcase.
  destruct (names_an_image _).
  - destruct Hcase as [c ->]. split.
    + split; [done|]. intros _. eexists _, _. by left.
    + intros p' c' [Hin|[Hin|[]]]; [|discriminate].
      injection Hin as <- <-. split; [done|]. by eexists.
  - subst tr. split.
    + split; [|done]. intros (p' & c' & [Hin|[]]). discriminate.
    + intros p' c' [Hin|[]]. discriminate.
Qed.

Lemma docker_gc_exclude_file_witness :
  (exists p c,
     In (EvWriteFile p c)
        (new_calls (fresh_state ∅)
                   (_docker_gc quiet "/tmp/gc" (fresh_state ∅)).2))
  <-> names_an_image (default "" (config quiet !! "exclude_images")) = true.
Proof.
  exact (proj1 (docker_gc_exclude_file quiet "/tmp/gc" (fresh_state ∅)
                  eq_refl)).
Defined.

End RunFacts.
